(** * Automation engine: classifier, field resolver, form loop, dispatcher

    A shallow embedding of the worker of the job-application automation
    repository:

    - [JsString], [Regex]: the string and regular-expression operations the
      TypeScript code relies on ([toLowerCase], [includes], [trim],
      [RegExp.prototype.test], [String.prototype.match], [replace]);
    - [Classifier]: [computeMERNScore] and its rule functions;
    - [FieldResolver]: the numeric branch of [fillAIQuestions];
    - [FormLoop]: the entry decision and the step loop of [applyLinkedIn];
    - [Engine]: the status writes of [applyWithBrowser] and of the direct
      apply block of [runFullAutomation];
    - [Dispatcher]: the consumer loop of the worker ([run], [processJob]).

    Strings are sequences of code units in the range 0..255 (Rocq [string]);
    numbers the code keeps in doubles are small dyadic rationals and are
    modelled in [Q] (scores) or [Z] (counters). *)

From Stdlib Require Import Bool Arith ZArith QArith Qminmax Qround Lia List.
From Stdlib Require Import Ascii String.
From Stdlib Require Import DecimalString.
From Stdlib Require Import Permutation.
Import ListNotations.

Local Open Scope string_scope.
Local Open Scope bool_scope.

(* ------------------------------------------------------------------ *)
(** ** JavaScript string operations *)

Module JsString.

Definition code (a : ascii) : N := N_of_ascii a.

Definition in_range (lo hi : N) (a : ascii) : bool :=
  (N.leb lo (code a) && N.leb (code a) hi)%N.

Definition is_digit (a : ascii) : bool := in_range 48 57 a.
Definition is_upper (a : ascii) : bool := in_range 65 90 a.
Definition is_lower (a : ascii) : bool := in_range 97 122 a.

(** [\w] is [A-Za-z0-9_]. *)
Definition is_word (a : ascii) : bool :=
  is_digit a || is_upper a || is_lower a || N.eqb (code a) 95.

(** [\s] and the characters [trim] strips: TAB, LF, VT, FF, CR, space and the
    no-break space. *)
Definition is_space (a : ascii) : bool :=
  in_range 9 13 a || N.eqb (code a) 32 || N.eqb (code a) 160.

(** [toLowerCase] on one code unit: A-Z, and the Latin-1 capitals except the
    multiplication sign. *)
Definition lower_ascii (a : ascii) : ascii :=
  if is_upper a || (in_range 192 222 a && negb (N.eqb (code a) 215))
  then ascii_of_N (code a + 32) else a.

Fixpoint toLowerCase (s : string) : string :=
  match s with
  | EmptyString => EmptyString
  | String a s' => String (lower_ascii a) (toLowerCase s')
  end.

Fixpoint includes (hay needle : string) : bool :=
  if String.prefix needle hay then true
  else match hay with
       | EmptyString => false
       | String _ hay' => includes hay' needle
       end.

Fixpoint trimStart (s : string) : string :=
  match s with
  | String a s' => if is_space a then trimStart s' else s
  | EmptyString => EmptyString
  end.

Fixpoint trimEnd (s : string) : string :=
  match s with
  | EmptyString => EmptyString
  | String a s' =>
      match trimEnd s' with
      | EmptyString => if is_space a then EmptyString else String a EmptyString
      | t => String a t
      end
  end.

Definition trim (s : string) : string := trimEnd (trimStart s).

(** [s.slice(0, n)] *)
Definition slice0 (n : nat) (s : string) : string := String.substring 0 n s.

(** [xs.join(sep)] *)
Fixpoint join (sep : string) (xs : list string) : string :=
  match xs with
  | [] => ""
  | [x] => x
  | x :: rest => x ++ sep ++ join sep rest
  end.

(** A truthy string is a non-empty one. *)
Definition truthy (s : string) : bool :=
  match s with EmptyString => false | _ => true end.

(** [a || b] on strings. *)
Definition or_else (a b : string) : string := if truthy a then a else b.

(** [x ?? ""] *)
Definition orEmpty (o : option string) : string :=
  match o with Some s => s | None => "" end.

(** [xs.push(x)] *)
Definition push {A : Type} (xs : list A) (x : A) : list A := (xs ++ [x])%list.

Definition dquote : string := String (ascii_of_nat 34) EmptyString.

Definition nat_to_string (n : nat) : string :=
  NilZero.string_of_uint (Nat.to_uint n).

End JsString.

(* ------------------------------------------------------------------ *)
(** ** Regular expressions

    A backtracking matcher in continuation-passing style, with the priority
    order of the ECMAScript matcher: alternatives left to right, greedy
    quantifiers, the leftmost start position first.  Literal characters are
    compared after case folding (every pattern of the code that contains a
    letter carries the [i] flag).  Repetition is only ever applied to a
    single character class in the patterns of the code, which is what
    [StarC] provides.  Only group 1 is ever read by the code, so one
    capture slot is kept ([Cap]); the other groups are plain grouping. *)

Module Regex.
Import JsString.

Inductive regex : Type :=
| Eps
| Chr (c : ascii)
| Cls (p : ascii -> bool)
| WordB
| Seq (r1 r2 : regex)
| Alt (r1 r2 : regex)
| Opt (r : regex)
| StarC (p : ascii -> bool)
| Cap (r : regex).

(** What a successful match hands back: the rest of the input and group 1. *)
Definition outcome : Type := (string * option string)%type.
Definition cont : Type := option string -> option ascii -> string -> option outcome.

Definition word_opt (o : option ascii) : bool :=
  match o with Some a => is_word a | None => false end.

Definition head (s : string) : option ascii :=
  match s with String a _ => Some a | EmptyString => None end.

(** The text between the start [s] of a match and its end [rest]. *)
Definition consumed (s rest : string) : string :=
  String.substring 0 (String.length s - String.length rest) s.

Fixpoint star (p : ascii -> bool) (k : cont) (cap : option string)
         (prev : option ascii) (s : string) : option outcome :=
  match s with
  | String a s' =>
      if p a then
        match star p k cap (Some a) s' with
        | Some x => Some x
        | None => k cap prev s
        end
      else k cap prev s
  | EmptyString => k cap prev s
  end.

Fixpoint rmatch (r : regex) (k : cont) (cap : option string)
         (prev : option ascii) (s : string) : option outcome :=
  match r with
  | Eps => k cap prev s
  | Chr c =>
      match s with
      | String a s' =>
          if Ascii.eqb (lower_ascii a) (lower_ascii c) then k cap (Some a) s' else None
      | EmptyString => None
      end
  | Cls p =>
      match s with
      | String a s' => if p a then k cap (Some a) s' else None
      | EmptyString => None
      end
  | WordB => if xorb (word_opt prev) (word_opt (head s)) then k cap prev s else None
  | Seq r1 r2 => rmatch r1 (fun cap' prev' s' => rmatch r2 k cap' prev' s') cap prev s
  | Alt r1 r2 =>
      match rmatch r1 k cap prev s with
      | Some x => Some x
      | None => rmatch r2 k cap prev s
      end
  | Opt r1 =>
      match rmatch r1 k cap prev s with
      | Some x => Some x
      | None => k cap prev s
      end
  | StarC p => star p k cap prev s
  | Cap r1 => rmatch r1 (fun _ prev' s' => k (Some (consumed s s')) prev' s') cap prev s
  end.

Definition accept : cont := fun cap _ s => Some (s, cap).

(** [match_at r prev s]: the match of [r] that starts exactly at [s]. *)
Definition match_at (r : regex) (prev : option ascii) (s : string) : option outcome :=
  rmatch r accept None prev s.

(** [s.match(r)] without the [g] flag: the leftmost match, as the pair of the
    matched text ([m[0]]) and group 1 ([m[1]]). *)
Fixpoint exec_from (r : regex) (prev : option ascii) (s : string)
  : option (string * option string) :=
  match match_at r prev s with
  | Some (rest, cap) => Some (consumed s rest, cap)
  | None =>
      match s with
      | String a s' => exec_from r (Some a) s'
      | EmptyString => None
      end
  end.

Definition exec (r : regex) (s : string) : option (string * option string) :=
  exec_from r None s.

(** [r.test(s)] *)
Definition test (r : regex) (s : string) : bool :=
  match exec r s with Some _ => true | None => false end.

(** [s.replace(r, f)] with the [g] flag; [f] receives [m[0]] and group 1.
    [skip] counts the characters of the current match still to be dropped. *)
Fixpoint replace_go (r : regex) (f : string -> option string -> string)
         (skip : nat) (prev : option ascii) (s : string) : string :=
  match skip with
  | S n =>
      match s with
      | String a s' => replace_go r f n (Some a) s'
      | EmptyString => EmptyString
      end
  | O =>
      match match_at r prev s with
      | Some (rest, cap) =>
          let m := consumed s rest in
          match s with
          | String a s' =>
              match String.length m with
              | O => f m cap ++ String a (replace_go r f 0 (Some a) s')
              | S n => f m cap ++ replace_go r f n (Some a) s'
              end
          | EmptyString => f m cap
          end
      | None =>
          match s with
          | String a s' => String a (replace_go r f 0 (Some a) s')
          | EmptyString => EmptyString
          end
      end
  end.

Definition replaceAll (r : regex) (f : string -> option string -> string)
           (s : string) : string :=
  replace_go r f 0 None s.

(** *** Pattern combinators *)

Fixpoint Lit (s : string) : regex :=
  match s with
  | EmptyString => Eps
  | String a EmptyString => Chr a
  | String a s' => Seq (Chr a) (Lit s')
  end.

Fixpoint Cat (rs : list regex) : regex :=
  match rs with
  | [] => Eps
  | [r] => r
  | r :: rest => Seq r (Cat rest)
  end.

Fixpoint Any (rs : list regex) : regex :=
  match rs with
  | [] => Cls (fun _ => false)
  | [r] => r
  | r :: rest => Alt r (Any rest)
  end.

Definition PlusC (p : ascii -> bool) : regex := Seq (Cls p) (StarC p).

Definition is_chr (c : string) (a : ascii) : bool :=
  match c with String b _ => Ascii.eqb a b | EmptyString => false end.

(** [\s*], [\s+], [\d+], [\w+], [[\s-]], [[\.\s]] *)
Definition ws_star : regex := StarC is_space.
Definition ws_plus : regex := PlusC is_space.
Definition digits : regex := PlusC is_digit.
Definition words : regex := PlusC is_word.
Definition space_or_dash : regex := Cls (fun a => is_space a || is_chr "-" a).
Definition dot_or_space : regex := Cls (fun a => is_chr "." a || is_space a).

(** [\b( a | b | ... )\b] *)
Definition Word (rs : list regex) : regex := Cat [WordB; Any rs; WordB].

End Regex.

(* ------------------------------------------------------------------ *)
(** ** The eligibility classifier ([computeMERNScore]) *)

Module Classifier.
Import JsString Regex.

Inductive Confidence : Type := Low | Medium | High.

Record MERNScoreResult : Type := {
  match_score : Z;
  is_match : bool;
  reasons : list string;
  missing_skills : list string;
  confidence : Confidence
}.

Definition role_suffix : regex := Any [Lit "developer"; Lit "engineer"; Lit "dev"].

Definition MERN_TITLE_PATTERNS : list (regex * string) :=
  [ (Word [Lit "mern"], "MERN");
    (Cat [WordB; Lit "full"; Opt space_or_dash; Lit "stack";
          Opt (Seq ws_plus words); ws_star; role_suffix; WordB],
     "Full Stack Developer");
    (Cat [WordB; Lit "react"; Opt (Seq (Opt (Lit ".")) (Lit "js")); ws_star;
          role_suffix; WordB],
     "React Developer");
    (Cat [WordB; Lit "node"; Opt (Seq (Opt (Lit ".")) (Lit "js")); ws_star;
          role_suffix; WordB],
     "Node.js Developer");
    (Cat [WordB; Lit "nodejs"; ws_star; role_suffix; WordB], "Node.js Developer") ].

Definition EXCLUDED_TECH : list string :=
  [ "java developer"; "java engineer"; "java backend"; "spring boot";
    "spring framework"; "j2ee";
    "python developer"; "python engineer"; "django"; "flask";
    ".net developer"; ".net engineer"; "c# developer"; "c#.net"; "asp.net";
    "php developer"; "php engineer"; "laravel"; "symfony"; "wordpress developer";
    "salesforce"; "salesforce developer"; "salesforce engineer";
    "flutter developer"; "flutter engineer";
    "android developer"; "android engineer"; "kotlin developer";
    "ios developer"; "ios engineer"; "swift developer";
    "angular developer"; "angular engineer"; "vue developer"; "vue engineer";
    "react native developer";
    "data scientist"; "data analyst"; "data engineer";
    "machine learning"; "ml engineer"; "ai engineer";
    "devops engineer"; "sre engineer"; "cloud engineer";
    "qa engineer"; "test engineer"; "sdet";
    "sap developer"; "sap consultant" ].

Definition EXCLUDED_FRONTEND_ONLY : list string :=
  [ "frontend developer"; "front-end developer"; "front end developer";
    "ui developer"; "ui/ux developer"; "css developer" ].

Definition EXCLUDED_BACKEND_ONLY : list string :=
  [ "backend developer"; "back-end developer"; "back end developer" ].

(** [parseInt(digits, 10)] on a string of decimal digits. *)
Fixpoint parseInt_acc (acc : Z) (s : string) : Z :=
  match s with
  | String a s' =>
      if is_digit a then parseInt_acc (10 * acc + (Z.of_N (code a) - 48)) s' else acc
  | EmptyString => acc
  end.

Definition parseInt (s : string) : Z := parseInt_acc 0 s.

Definition senior_title : regex :=
  Word [Lit "staff"; Lit "principal"; Lit "lead"; Lit "architect"].

(** [/(\d+)\+?\s*(?:years?|yrs?)\s*(?:of\s+)?(?:experience|exp)/i] *)
Definition years_required : regex :=
  Cat [ Cap digits; Opt (Lit "+"); ws_star;
        Alt (Seq (Lit "year") (Opt (Lit "s"))) (Seq (Lit "yr") (Opt (Lit "s")));
        ws_star; Opt (Seq (Lit "of") ws_plus);
        Alt (Lit "experience") (Lit "exp") ].

Definition isSeniorRole (title : string) (description : option string) : bool :=
  let t := toLowerCase title in
  let d := toLowerCase (orEmpty description) in
  if test senior_title t then true
  else
    match exec years_required d with
    | Some (_, Some g1) => (6 <=? parseInt g1)%Z
    | _ => false
    end.

Record RemoteCheck : Type := { remote : bool; remote_reason : string }.

Definition remote_signals : regex :=
  Word [ Lit "remote"; Lit "work from home"; Lit "wfh"; Lit "fully remote";
         Lit "anywhere"; Lit "worldwide"; Lit "global"; Lit "distributed" ].

Definition onsite_signals : regex :=
  Word [ Cat [Lit "on"; Opt space_or_dash; Lit "site"];
         Cat [Lit "in"; Opt space_or_dash; Lit "office"];
         Lit "hybrid";
         Cat [Lit "office"; Opt space_or_dash; Lit "based"];
         Lit "must be located"; Lit "relocation required" ].

Definition isRemoteJob (title : string) (location description : option string)
  : RemoteCheck :=
  let text := toLowerCase (title ++ " " ++ orEmpty location ++ " " ++ orEmpty description) in
  let remoteSignals := test remote_signals text in
  let onsiteSignals := test onsite_signals text in
  if onsiteSignals then {| remote := false; remote_reason := "Job is onsite or hybrid" |}
  else
    let restricted :=
      match location with
      | Some l =>
          if truthy l then
            let loc := toLowerCase l in
            let isLocationSpecific :=
              negb (includes loc "remote") && negb (includes loc "anywhere")
              && negb (includes loc "worldwide") in
            if isLocationSpecific && negb remoteSignals
            then Some ("Location restricted: " ++ dquote ++ l ++ dquote)
            else None
          else None
      | None => None
      end in
    match restricted with
    | Some why => {| remote := false; remote_reason := why |}
    | None =>
        if remoteSignals then {| remote := true; remote_reason := "Fully remote" |}
        else {| remote := false; remote_reason := "No remote indication found" |}
    end.

Record BucketChecks : Type := { hits : list string; misses : list string }.

Definition opt_js : regex := Opt (Seq (Opt (Lit ".")) (Lit "js")).

Definition bucket_react : regex :=
  Cat [WordB; Lit "react"; Opt (Seq (Opt dot_or_space) (Lit "js")); WordB].
Definition bucket_node : regex := Cat [WordB; Lit "node"; opt_js; WordB].
Definition bucket_nodejs : regex := Word [Lit "nodejs"].
Definition bucket_mongo : regex := Word [Lit "mongodb"; Lit "mongo"].
Definition bucket_express : regex :=
  Word [Seq (Lit "express") opt_js; Lit "expressjs"].
Definition bucket_rest : regex :=
  Word [ Cat [Lit "rest"; ws_star; Lit "api"]; Lit "restful"; Lit "graphql";
         Cat [Lit "api"; ws_star; Lit "development"] ].
Definition bucket_js : regex :=
  Word [ Lit "javascript"; Lit "typescript"; Lit "es6"; Lit "es2015"; Lit "ecmascript" ].

(** One [if (...) hits.push(l) else misses.push(l)] of the source. *)
Definition check (b : bool) (label : string) (acc : BucketChecks) : BucketChecks :=
  if b then {| hits := push (hits acc) label; misses := misses acc |}
  else {| hits := hits acc; misses := push (misses acc) label |}.

Definition descBucketChecks (d : string) : BucketChecks :=
  let acc := {| hits := []; misses := [] |} in
  let acc := check (test bucket_react d) "React" acc in
  let acc := check (test bucket_node d || test bucket_nodejs d) "Node.js" acc in
  let acc := check (test bucket_mongo d) "MongoDB" acc in
  let acc := check (test bucket_express d) "Express" acc in
  let acc := check (test bucket_rest d) "REST API" acc in
  let acc := check (test bucket_js d) "JavaScript" acc in
  acc.

Definition pref_startup : regex :=
  Word [ Lit "startup"; Cat [Lit "early"; Opt space_or_dash; Lit "stage"]; Lit "funded";
         Cat [Lit "series"; ws_star;
              Cls (fun a => in_range 97 99 (lower_ascii a))];
         Cat [Lit "seed"; ws_star; Lit "round"] ].
Definition pref_product : regex :=
  Word [ Cat [Lit "product"; ws_star; Lit "company"];
         Cat [Lit "product"; Opt space_or_dash; Lit "based"];
         Lit "saas"; Lit "b2b"; Lit "b2c"; Lit "platform" ].
Definition pref_international : regex :=
  Word [ Lit "international"; Lit "global"; Lit "anywhere"; Lit "worldwide";
         Lit "no visa"; Lit "any country" ].
Definition pref_early : regex :=
  Word [ Cat [Lit "early"; Opt space_or_dash; Lit "stage"]; Lit "small team";
         Lit "founding";
         Cat [Lit "first"; ws_star; digits; ws_star; Lit "engineer"] ].

Definition push_if (b : bool) (label : string) (signals : list string) : list string :=
  if b then push signals label else signals.

Definition preferenceSignals (title description : string) : list string :=
  let text := toLowerCase (title ++ " " ++ description) in
  let signals := [] in
  let signals := push_if (test pref_startup text) "startup" signals in
  let signals := push_if (test pref_product text) "product company" signals in
  let signals := push_if (test pref_international text) "international hiring" signals in
  let signals := push_if (test pref_early text) "early-stage team" signals in
  signals.

Definition isMatchingMERNTitle (title : string) : bool :=
  let t := trim (toLowerCase title) in
  existsb (fun p => test (fst p) t) MERN_TITLE_PATTERNS.

Record Exclusion : Type := { excluded : bool; excluded_reason : string }.

Definition isExcludedJob (title description : string) : Exclusion :=
  let t := toLowerCase title in
  let d := toLowerCase (title ++ " " ++ description) in
  match find (fun tech => includes t tech) EXCLUDED_TECH with
  | Some tech =>
      {| excluded := true;
         excluded_reason := "Title contains excluded tech: " ++ dquote ++ tech ++ dquote |}
  | None =>
      let frontend :=
        if negb (includes t "full") && negb (includes t "mern")
        then find (fun fe => includes t fe) EXCLUDED_FRONTEND_ONLY else None in
      match frontend with
      | Some fe =>
          {| excluded := true;
             excluded_reason := "Frontend-only role: " ++ dquote ++ fe ++ dquote |}
      | None =>
          let backend :=
            if negb (includes d "node")
            then find (fun be => includes t be) EXCLUDED_BACKEND_ONLY else None in
          match backend with
          | Some be =>
              {| excluded := true;
                 excluded_reason :=
                   "Backend-only role without Node.js: " ++ dquote ++ be ++ dquote |}
          | None => {| excluded := false; excluded_reason := "" |}
          end
      end
  end.

(** [Math.round]: the nearest integer, halves towards plus infinity. *)
Definition Math_round (q : Q) : Z := Qfloor (q + (1 # 2)).

Definition count (xs : list string) : Q := inject_Z (Z.of_nat (List.length xs)).

(** The instant rejects of rules 0, 1, 4, 6 and 2. *)
Definition reject (why : list string) : MERNScoreResult :=
  {| match_score := 0; is_match := false; reasons := why;
     missing_skills := []; confidence := High |}.

(** [description && description.length > 50] *)
Definition deepDescription (description : option string) : option string :=
  match description with
  | Some d => if truthy d && (50 <? String.length d)%nat then Some d else None
  | None => None
  end.

Definition confidenceOf (n : nat) : Confidence :=
  if (4 <=? n)%nat then High else if (2 <=? n)%nat then Medium else Low.

(** The end of [computeMERNScore]: preference bonus and final evaluation. *)
Definition finalEvaluation (title : string) (description : option string)
           (score : Q) (reasons missing : list string) (conf : Confidence)
  : MERNScoreResult :=
  let prefs := preferenceSignals title (orEmpty description) in
  let '(score, reasons) :=
    match prefs with
    | [] => (score, reasons)
    | _ =>
        let bonus := Qmin (count prefs * 5) 20 in
        ((score + bonus)%Q, push reasons ("Preference signals: " ++ join ", " prefs))
    end in
  let finalScore := Z.min (Math_round score) 100 in
  let isMatch := (65 <=? finalScore)%Z in
  {| match_score := finalScore; is_match := isMatch; reasons := reasons;
     missing_skills := missing; confidence := conf |}.

Definition computeMERNScore (title : string) (description location : option string)
  : MERNScoreResult :=
  let score : Q := 0 in
  if negb (truthy title) || (String.length (trim title) =? 0)%nat
  then reject ["Empty title"]
  else
    let remoteCheck := isRemoteJob title location description in
    if negb (remote remoteCheck)
    then reject ["Not remote: " ++ remote_reason remoteCheck]
    else
      let reasons := ["Fully remote ✓"] in
      let exclusion := isExcludedJob title (orEmpty description) in
      if excluded exclusion then reject [excluded_reason exclusion]
      else if isSeniorRole title description
      then reject ["Senior role requiring 6+ years experience"]
      else
        match find (fun p => test (fst p) title) MERN_TITLE_PATTERNS with
        | None =>
            reject (push reasons ("Title " ++ dquote ++ title ++ dquote
                                  ++ " doesn't match any MERN role keyword"))
        | Some titleMatch =>
            let score := (score + 35)%Q in
            let reasons := push reasons ("Title matches: " ++ snd titleMatch) in
            match deepDescription description with
            | Some d =>
                let bc := descBucketChecks d in
                let n := List.length (hits bc) in
                let bucketScore := Qmin (count (hits bc) * (15 # 2)) 45 in
                let score := (score + bucketScore)%Q in
                let reasons :=
                  if (2 <=? n)%nat
                  then push reasons ("Description mentions: " ++ join ", " (hits bc))
                  else push reasons ("Description only mentions " ++ nat_to_string n
                                     ++ "/6 MERN techs (need 2+)") in
                let missing := misses bc in
                let conf := confidenceOf n in
                if (n <? 2)%nat
                then {| match_score := Math_round score; is_match := false;
                        reasons := reasons; missing_skills := missing;
                        confidence := conf |}
                else finalEvaluation title description score reasons missing conf
            | None =>
                finalEvaluation title description score
                  (push reasons "No description available for deep validation") [] Low
            end
        end.

Record Validation : Type := {
  pass : bool;
  reason : string;
  score : MERNScoreResult
}.

Definition validateMERNJob (title : string) (description location : option string)
  : Validation :=
  let result := computeMERNScore title description location in
  if is_match result
  then {| pass := true;
          reason := "Matches MERN (" ++ NilZero.string_of_int (Z.to_int (match_score result))
                    ++ "%) — " ++ join "; " (reasons result);
          score := result |}
  else {| pass := false;
          reason := match reasons result with
                    | r :: _ => r
                    | [] => "Does not match MERN criteria"
                    end;
          score := result |}.

(** Closed forms of the two score increments, by the number of preference
    signals and of matched buckets; the proofs below compare
    [computeMERNScore] with them. *)
Definition withBonus (score : Q) (prefs : nat) : Q :=
  match prefs with
  | O => score
  | _ => score + Qmin (inject_Z (Z.of_nat prefs) * 5) 20
  end.

Definition bucketScore (n : nat) : Q := Qmin (inject_Z (Z.of_nat n) * (15 # 2)) 45.

(** The guard of rule 0 and the reasons of two rejects, named for the
    statements below. *)
Definition emptyTitle (title : string) : bool :=
  negb (truthy title) || (String.length (trim title) =? 0)%nat.

Definition senior_reason : string := "Senior role requiring 6+ years experience".

Definition no_title_reasons (title : string) : list string :=
  [ "Fully remote ✓";
    "Title " ++ dquote ++ title ++ dquote ++ " doesn't match any MERN role keyword" ].

End Classifier.

(* ------------------------------------------------------------------ *)
(** ** The field resolver: text inputs of [fillAIQuestions] *)

Module FieldResolver.
Import JsString Regex.

Definition questionSkipKeywords : list string :=
  [ "email"; "e-mail"; "phone"; "mobile"; "name"; "first name"; "last name";
    "address"; "city"; "location"; "linkedin"; "github"; "portfolio"; "website";
    "resume"; "cv"; "cover letter"; "cover_letter"; "upload"; "attach"; "file";
    "search"; "skip to" ].

Definition isSkippableQuestion (label : string) : bool :=
  let normalized := toLowerCase label in
  if (String.length normalized <? 4)%nat then true
  else existsb (fun keyword => includes normalized keyword) questionSkipKeywords.

(** [/-?\d+(\.\d+)?/] *)
Definition numeric_pattern : regex :=
  Cat [Opt (Lit "-"); digits; Opt (Seq (Lit ".") digits)].

Definition extractNumericAnswer (answer : string) : string :=
  match exec numeric_pattern answer with
  | Some (m, _) => m
  | None => ""
  end.

Definition hash : regex := Lit "#".
Definition not_chr (c : string) (a : ascii) : bool := negb (is_chr c a).
Definition drop : string -> option string -> string := fun _ _ => "".
Definition group1 : string -> option string -> string := fun _ g => orEmpty g.
Definition blank : string -> option string -> string := fun _ _ => " ".

(** [/#{1,6}\s/] *)
Definition heading_pattern : regex :=
  Cat [ hash; Opt (Seq hash (Opt (Seq hash (Opt (Seq hash (Opt (Seq hash (Opt hash))))))));
        Cls is_space ].

(** A markdown link, bracketed text followed by a parenthesised target, and
    plain bracketed text; group 1 is the text between the brackets. *)
Definition link_pattern : regex :=
  Cat [ Lit "["; Cap (StarC (not_chr "]")); Lit "]"; Lit "("; StarC (not_chr ")"); Lit ")" ].
Definition bracket_pattern : regex :=
  Cat [ Lit "["; Cap (StarC (not_chr "]")); Lit "]" ].

Definition is_newline (a : ascii) : bool := N.eqb (code a) 10.

(** The sanitising chain applied to the raw answer. *)
Definition sanitize (rawAnswer : string) : string :=
  let a := replaceAll (Lit "**") drop rawAnswer in
  let a := replaceAll (Lit "*") drop a in
  let a := replaceAll heading_pattern drop a in
  let a := replaceAll link_pattern group1 a in
  let a := replaceAll bracket_pattern group1 a in
  let a := replaceAll (PlusC is_newline) blank a in
  let a := replaceAll (Cat [Cls is_space; Cls is_space; StarC is_space]) blank a in
  trim a.

Definition isNumericQuestion (inputType lowered : string) : bool :=
  String.eqb inputType "number" || includes lowered "years"
  || includes lowered "salary" || includes lowered "experience".

Definition isSalary (lowered : string) : bool :=
  includes lowered "salary" || includes lowered "ctc" || includes lowered "compensation"
  || includes lowered "pay" || includes lowered "expected".

Definition isExperience (lowered : string) : bool :=
  includes lowered "years" || includes lowered "experience"
  || includes lowered "how long" || includes lowered "how many".

(** [finalNum] of the numeric branch. *)
Definition finalNum (lowered numeric : string) : string :=
  if isSalary lowered then or_else numeric "0"
  else if isExperience lowered then
    if String.eqb numeric "0" || negb (truthy numeric) then "1" else numeric
  else or_else numeric "1".

Record FieldMeta : Type := { label : string; inputType : string }.

Record UserLinks : Type := {
  linkedin : option string;
  github : option string;
  website : option string
}.

Inductive FieldAction : Type :=
| Skipped
| Filled (value : string).

Definition given (o : option string) : option string :=
  match o with
  | Some s => if truthy s then Some s else None
  | None => None
  end.

(** One iteration of the loop over the text inputs: [current] is the value
    already in the field, [rawAnswer] what [getAnswer(label)] returns. *)
Definition fillField (current : string) (meta : FieldMeta) (userProfile : UserLinks)
           (rawAnswer : string) : FieldAction :=
  if truthy (trim current) then Skipped
  else
    let label := trim (label meta) in
    if negb (truthy label) || isSkippableQuestion label then Skipped
    else
      let lowered := toLowerCase label in
      match (if includes lowered "linkedin" then given (linkedin userProfile) else None) with
      | Some v => Filled v
      | None =>
      match (if includes lowered "github" then given (github userProfile) else None) with
      | Some v => Filled v
      | None =>
      match (if includes lowered "portfolio" || includes lowered "website"
             then given (website userProfile) else None) with
      | Some v => Filled v
      | None =>
          if negb (truthy rawAnswer) then Skipped
          else
            let answer := sanitize rawAnswer in
            if negb (truthy answer) then Skipped
            else if isNumericQuestion (inputType meta) lowered
            then Filled (finalNum lowered (extractNumericAnswer answer))
            else Filled (slice0 200 answer)
      end end end.

(** A profile without links. *)
Definition noLinks : UserLinks := {| linkedin := None; github := None; website := None |}.

End FieldResolver.

(* ------------------------------------------------------------------ *)
(** ** Application states *)

Inductive ApplicationState : Type :=
| QUEUED | PROCESSING | APPLIED | FAILED | MANUAL_INTERVENTION.

Definition is_terminal (s : ApplicationState) : bool :=
  match s with APPLIED | FAILED => true | _ => false end.

Definition state_eqb (a b : ApplicationState) : bool :=
  match a, b with
  | QUEUED, QUEUED | PROCESSING, PROCESSING | APPLIED, APPLIED
  | FAILED, FAILED | MANUAL_INTERVENTION, MANUAL_INTERVENTION => true
  | _, _ => false
  end.

(** What [applyLinkedIn] and [applyIndeed] return. *)
Inductive ApplyResult : Type := R_APPLIED | R_MANUAL | R_FAILED.

(** [result === "APPLIED" ? "APPLIED" : result === "FAILED" ? "FAILED"
    : "MANUAL_INTERVENTION"] *)
Definition statusOf (result : ApplyResult) : ApplicationState :=
  match result with
  | R_APPLIED => APPLIED
  | R_FAILED => FAILED
  | R_MANUAL => MANUAL_INTERVENTION
  end.

(* ------------------------------------------------------------------ *)
(** ** The form automation of [applyLinkedIn]

    The browser is the external capability the engine drives.  A probe is
    the boolean the code sees after its own [.catch(() => false)]; the
    page primitives the code awaits without a handler (waits, fills, clicks)
    are taken to complete. *)

Module FormLoop.
Import JsString.

(** What the code reads off a located element. *)
Record Candidate : Type := { visible : bool; tagName : string; href : string }.

Definition easyApplySelectors : list string :=
  [ "a[aria-label='Easy Apply to this job']";
    "a[href*='openSDUIApplyFlow']";
    "a[aria-label*='Easy Apply']";
    "a:has-text('Easy Apply')";
    "button[aria-label*='Easy Apply']";
    "button.jobs-apply-button";
    ".jobs-apply-button";
    "button:has-text('Easy Apply')";
    "button:has-text('Apply now')";
    "button:has-text('Apply')" ].

(** The guard against job-card links. *)
Definition isJobCardLink (c : Candidate) : bool :=
  String.eqb (tagName c) "A"
  && (includes (href c) "similar-jobs" || includes (href c) "collections").

(** The selector loop: first visible candidate that passes the guard. *)
Definition findEasyApply (locate : string -> Candidate) : option string :=
  find (fun sel => visible (locate sel) && negb (isJobCardLink (locate sel)))
       easyApplySelectors.



(** The probes of one pass through the loop body. *)
Record StepObs : Type := {
  submitVisible : string -> bool;
  reviewVisible : bool;
  nextVisible : bool;
  dismissVisible : bool;
  timedOut : bool;           (* Date.now() - stepStart > STEP_TIMEOUT_MS *)
  timedOutAfterWait : bool;  (* the same test after the 2s wait *)
  anyButton : bool           (* page.$(...) found an application button *)
}.

Definition MAX_STEPS : nat := 7.

Definition submitSelectors : list string :=
  [ "button[aria-label*='Submit application']";
    "button:has-text('Submit application')";
    "button:has-text('Submit')";
    "a[aria-label*='Submit application']";
    "footer button:has-text('Submit')" ].

(** [submitFound] after the loop over the submit selectors. *)
Definition submitFound (o : StepObs) : bool := existsb (submitVisible o) submitSelectors.

Inductive Action : Type := Submit | Review | Next | Stall.

Inductive Flow : Type :=
| Return (r : ApplyResult)
| Continue
| Break.

(** One pass through the loop body, from the navigation decision on. *)
Definition stepBody (autoSubmit : bool) (step : nat) (o : StepObs) : Action * Flow :=
  if submitFound o then
    (Submit, if negb autoSubmit then Return R_MANUAL else Return R_APPLIED)
  else if reviewVisible o then (Review, Continue)
  else if nextVisible o then (Next, Continue)
  else
    (Stall,
     if dismissVisible o then Break
     else if timedOut o then Continue
     else if timedOutAfterWait o then Continue
     else if (2 <=? step)%nat && negb (anyButton o) then Break
     else Continue).

(** [for (let step = 0; step < MAX_STEPS; step += 1) { ... }] followed by the
    final [return "MANUAL"]; the actions taken are recorded on the way. *)
Fixpoint stepLoop (autoSubmit : bool) (obs : nat -> StepObs) (steps : list nat)
  : list Action * ApplyResult :=
  match steps with
  | [] => ([], R_MANUAL)
  | step :: rest =>
      let '(a, flow) := stepBody autoSubmit step (obs step) in
      match flow with
      | Return r => ([a], r)
      | Break => ([a], R_MANUAL)
      | Continue =>
          let '(tr, r) := stepLoop autoSubmit obs rest in (a :: tr, r)
      end
  end.



(** Sample observations: a pass that sees only a Next button, and an
    element that is not on the page. *)
Definition onlyNext : StepObs :=
  {| submitVisible := fun _ => false; reviewVisible := false; nextVisible := true;
     dismissVisible := false; timedOut := false; timedOutAfterWait := false;
     anyButton := true |}.


End FormLoop.

(* ------------------------------------------------------------------ *)
(** ** Status writes of the engine

    The awaited operations of [applyWithBrowser] either complete or throw;
    the store keeps what was written before a throw.  The state threaded
    through a run is the list of states written for the application, oldest
    first; which operations throw is given by an oracle. *)

Module Engine.
Import JsString.

Inductive Res (A : Type) : Type :=
| Ok (a : A)
| Throw.
Arguments Ok {A} a.
Arguments Throw {A}.

Definition Log : Type := list ApplicationState.
Definition M (A : Type) : Type := Log -> Res A * Log.

Definition ret {A : Type} (a : A) : M A := fun log => (Ok a, log).

Definition bind {A B : Type} (m : M A) (f : A -> M B) : M B :=
  fun log =>
    match m log with
    | (Ok a, log') => f a log'
    | (Throw, log') => (Throw, log')
    end.

Notation "m ;; k" := (bind m (fun _ => k)) (at level 61, right associativity).

(** [try { body } catch { handler }] *)
Definition try_catch {A : Type} (body handler : M A) : M A :=
  fun log =>
    match body log with
    | (Ok a, log') => (Ok a, log')
    | (Throw, log') => handler log'
    end.

(** [await prisma.application.update({ data: { status } })] *)
Definition update (status : ApplicationState) (ok : bool) : M unit :=
  fun log => if ok then (Ok tt, push log status) else (Throw, log).

(** Any other awaited operation: it writes no status. *)
Definition call (ok : bool) : M unit :=
  fun log => (if ok then Ok tt else Throw, log).

(** What happens between the PROCESSING write and the outcome write. *)
Inductive Body : Type :=
| Raises                     (* an awaited step throws *)
| Rejected                   (* URL or MERN validation fails: early return *)
| Finished (r : ApplyResult) (* applyLinkedIn / applyIndeed returned, or MANUAL *).

Record Oracle : Type := {
  contextOk : bool;        (* getContext and newPage, retry included *)
  processingOk : bool;     (* the PROCESSING write *)
  body : Body;
  rejectWriteOk : bool;    (* the FAILED write of an early return *)
  posterOk : bool;         (* goto, wait and messageJobPoster after APPLIED *)
  outcomeWriteOk : bool;   (* the outcome write *)
  notifyOk : bool;         (* sendStatusNotification *)
  publishOk : bool;        (* publishEvent *)
  failedWriteOk : bool;    (* handler: the FAILED write *)
  failedNotifyOk : bool;   (* handler: sendStatusNotification *)
  failedPublishOk : bool   (* handler: publishEvent *)
}.

Definition when (b : bool) (m : M unit) : M unit := if b then m else ret tt.

Definition isApplied (r : ApplyResult) : bool :=
  match r with R_APPLIED => true | _ => false end.
Definition isManual (r : ApplyResult) : bool :=
  match r with R_MANUAL => true | _ => false end.

Definition applyWithBrowser (o : Oracle) : M unit :=
  call (contextOk o) ;;
  try_catch
    (update PROCESSING (processingOk o) ;;
     match body o with
     | Raises => call false
     | Rejected => update FAILED (rejectWriteOk o)
     | Finished result =>
         when (isApplied result) (call (posterOk o)) ;;
         update (statusOf result) (outcomeWriteOk o) ;;
         call (notifyOk o) ;;
         when (isManual result) (call (publishOk o))
     end)
    (update FAILED (failedWriteOk o) ;;
     call (failedNotifyOk o) ;;
     call (failedPublishOk o)).

(** The direct-apply block of [runFullAutomation] for one queued job. *)
Definition directApply (o : Oracle) : M unit :=
  try_catch
    (update PROCESSING (processingOk o) ;;
     match body o with
     | Raises => call false
     | Rejected => update FAILED (rejectWriteOk o)
     | Finished result =>
         update (statusOf result) (outcomeWriteOk o) ;;
         call (notifyOk o) ;;
         when (isApplied result) (call (posterOk o))
     end)
    (update FAILED (failedWriteOk o)).

(** [processJob] of the worker. *)
Record JobOracle : Type := {
  firstWriteOk : bool;   (* the PROCESSING write of processJob itself *)
  browser : Oracle;
  errorMessage : option string  (* err?.message when the job throws *)
}.

Definition processJob (j : JobOracle) : M unit :=
  update PROCESSING (firstWriteOk j) ;;
  applyWithBrowser (browser j).

(** The states written by a run, oldest first. *)
Definition writes {A : Type} (m : M A) : Log := snd (m []).

Definition throws {A : Type} (m : M A) : bool :=
  match fst (m []) with Throw => true | Ok _ => false end.

(** In a sequence of writes, a terminal state stays: every later write
    writes the same state. *)
Definition terminal_kept (ws : Log) : Prop :=
  forall i j s t,
    (i < j)%nat -> nth_error ws i = Some s -> is_terminal s = true ->
    nth_error ws j = Some t -> t = s.

(** Every write after a terminal state writes FAILED. *)
Definition only_failed_after_terminal (ws : Log) : Prop :=
  forall i j s t,
    (i < j)%nat -> nth_error ws i = Some s -> is_terminal s = true ->
    nth_error ws j = Some t -> t = FAILED.

Fixpoint only_failed_after_terminal_b (ws : Log) : bool :=
  match ws with
  | [] => true
  | s :: rest =>
      (if is_terminal s then forallb (state_eqb FAILED) rest else true)
      && only_failed_after_terminal_b rest
  end.

Fixpoint terminal_kept_b (ws : Log) : bool :=
  match ws with
  | [] => true
  | s :: rest =>
      (if is_terminal s then forallb (state_eqb s) rest else true)
      && terminal_kept_b rest
  end.

(** Sample oracles: a run in which every operation completes and
    [applyLinkedIn] returns APPLIED, and the same run with a status
    notification that throws. *)
Definition smoothRun : Oracle :=
  {| contextOk := true; processingOk := true; body := Finished R_APPLIED;
     rejectWriteOk := true; posterOk := true; outcomeWriteOk := true;
     notifyOk := true; publishOk := true; failedWriteOk := true;
     failedNotifyOk := true; failedPublishOk := true |}.

Definition notifyThrows : Oracle :=
  {| contextOk := true; processingOk := true; body := Finished R_APPLIED;
     rejectWriteOk := true; posterOk := true; outcomeWriteOk := true;
     notifyOk := false; publishOk := true; failedWriteOk := true;
     failedNotifyOk := true; failedPublishOk := true |}.

End Engine.

(* ------------------------------------------------------------------ *)
(** ** The dispatcher: the consumer loop of the worker

    The world of the worker is the stream of the consumer group, the
    acknowledgements, the log of status writes and the log of the calls of
    [processJob].  What a call of [processJob] does is given by the oracle of
    [Engine].  The stream operations of the loop (XREADGROUP, XADD, XACK,
    PUBLISH) and the FAILED write of its [catch] block are taken to
    complete; [Channel] below lifts this for the publish and the XACK
    that follow [processJob] inside the [try] block. *)

Module Dispatcher.
Import JsString Engine.

Definition MAX_ATTEMPTS : Z := 3.

Record Payload : Type := {
  applicationId : string;
  jobId : string;
  userId : string;
  jobUrl : string;
  platform : string;
  attempts : option Z
}.

(** [{ ...payload, attempts }] *)
Definition withAttempts (p : Payload) (a : Z) : Payload :=
  {| applicationId := applicationId p; jobId := jobId p; userId := userId p;
     jobUrl := jobUrl p; platform := platform p; attempts := Some a |}.

(** A stream entry; [payloadField] is [map.payload]. *)
Record Message : Type := { id : nat; payloadField : option Payload }.

Record Event : Type := { ev_jobId : string; ev_type : string; ev_message : string }.

Record World : Type := {
  stream : list Message;     (* entries not yet delivered to the group, oldest first *)
  nextId : nat;              (* the id the next XADD receives *)
  acked : list nat;          (* XACKed entries *)
  statuses : list (string * ApplicationState);  (* status writes, oldest first *)
  events : list Event;       (* published events *)
  delivered : list Payload   (* the calls of processJob, oldest first *)
}.

Definition xadd (p : Payload) (w : World) : World :=
  {| stream := push (stream w) {| id := nextId w; payloadField := Some p |};
     nextId := S (nextId w); acked := acked w; statuses := statuses w;
     events := events w; delivered := delivered w |}.

Definition xack (i : nat) (w : World) : World :=
  {| stream := stream w; nextId := nextId w; acked := push (acked w) i;
     statuses := statuses w; events := events w; delivered := delivered w |}.

Definition writeStatus (app : string) (ss : list ApplicationState) (w : World) : World :=
  {| stream := stream w; nextId := nextId w; acked := acked w;
     statuses := (statuses w ++ map (fun s => (app, s)) ss)%list;
     events := events w; delivered := delivered w |}.

Definition publishEvent (e : Event) (w : World) : World :=
  {| stream := stream w; nextId := nextId w; acked := acked w; statuses := statuses w;
     events := push (events w) e; delivered := delivered w |}.

Definition pop (rest : list Message) (w : World) : World :=
  {| stream := rest; nextId := nextId w; acked := acked w; statuses := statuses w;
     events := events w; delivered := delivered w |}.

Definition called (p : Payload) (w : World) : World :=
  {| stream := stream w; nextId := nextId w; acked := acked w; statuses := statuses w;
     events := events w; delivered := push (delivered w) p |}.

(** [payload.attempts ?? 0] *)
Definition attemptsOf (p : Payload) : Z :=
  match attempts p with Some a => a | None => 0%Z end.

Definition Z_to_string (z : Z) : string := NilZero.string_of_int (Z.to_int z).

(** [enqueueApplication] of the discovery module and the XADD of [queueJob]:
    both enqueue with [attempts: 0]. *)
Definition enqueueApplication (p : Payload) (w : World) : World :=
  xadd (withAttempts p 0) w.

Section Worker.

(** How the n-th call of [processJob] behaves on a payload. *)
Variable behaviour : nat -> Payload -> JobOracle.

(** The [catch] block of the consumer loop. *)
Definition onFailure (p : Payload) (err : option string) (w : World) : World :=
  let attempts := (attemptsOf p + 1)%Z in
  if (attempts <? MAX_ATTEMPTS)%Z then
    let w := xadd (withAttempts p attempts) w in
    publishEvent {| ev_jobId := applicationId p; ev_type := "ERROR_OCCURRED";
                    ev_message := "Job failed, retrying (" ++ Z_to_string attempts
                                  ++ "/" ++ Z_to_string MAX_ATTEMPTS ++ ")" |} w
  else
    let w := writeStatus (applicationId p) [FAILED] w in
    publishEvent {| ev_jobId := applicationId p; ev_type := "ERROR_OCCURRED";
                    ev_message := match err with Some m => m | None => "Job failed" end |} w.

(** The body of the loop over the messages of one XREADGROUP response. *)
Definition handle (m : Message) (w : World) : World :=
  match payloadField m with
  | None => xack (id m) w
  | Some p =>
      let j := behaviour (List.length (delivered w)) p in
      let w := called p w in
      let '(res, ws) := processJob j [] in
      let w := writeStatus (applicationId p) ws w in
      match res with
      | Ok _ =>
          let w := publishEvent {| ev_jobId := applicationId p; ev_type := "JOB_FINISHED";
                                   ev_message := "Automation completed" |} w in
          xack (id m) w
      | Throw =>
          let w := onFailure p (errorMessage j) w in
          xack (id m) w
      end
  end.

(** One turn of [while (true)]: XREADGROUP with COUNT 1 hands over the oldest
    undelivered entry, or null after the block time. *)
Definition turn (w : World) : World :=
  match stream w with
  | [] => w
  | m :: rest => handle m (pop rest w)
  end.

Fixpoint run (turns : nat) (w : World) : World :=
  match turns with
  | O => w
  | S k => run k (turn w)
  end.

End Worker.

Definition emptyWorld : World :=
  {| stream := []; nextId := 0; acked := []; statuses := []; events := [];
     delivered := [] |}.

(** The last state written for an application. *)
Definition statusOfApp (app : string) (w : World) : option ApplicationState :=
  match filter (fun e => String.eqb (fst e) app) (rev (statuses w)) with
  | (_, s) :: _ => Some s
  | [] => None
  end.




(** An upper bound on the deliveries a stream entry can still cause: itself
    and its requeues. *)
Definition weight (m : Message) : nat :=
  match payloadField m with
  | Some q => S (Z.to_nat (MAX_ATTEMPTS - 1 - attemptsOf q))
  | None => 1
  end.

Definition load (w : World) : nat := list_sum (map weight (stream w)).



(** A sample job, and a worker on which every launch of the browser fails:
    [processJob] writes PROCESSING and [applyWithBrowser] throws before its
    [try] block. *)
Definition sampleJob : Payload :=
  {| applicationId := "app-1"; jobId := "job-1"; userId := "user-1";
     jobUrl := "https://www.linkedin.com/jobs/view/1"; platform := "LINKEDIN";
     attempts := None |}.

Definition launchFails : nat -> Payload -> JobOracle :=
  fun _ _ =>
    {| firstWriteOk := true;
       browser := {| contextOk := false; processingOk := true; body := Raises;
                     rejectWriteOk := true; posterOk := true; outcomeWriteOk := true;
                     notifyOk := true; publishOk := true; failedWriteOk := true;
                     failedNotifyOk := true; failedPublishOk := true |};
       errorMessage := Some "browserType.launchPersistentContext: Timeout" |}.

(** A worker on which the automation raises and the status notification of
    the handler of [applyWithBrowser] throws as well, so that [processJob]
    throws after FAILED has been written. *)
Definition handlerNotifyFails : nat -> Payload -> JobOracle :=
  fun _ _ =>
    {| firstWriteOk := true;
       browser := {| contextOk := true; processingOk := true; body := Raises;
                     rejectWriteOk := true; posterOk := true; outcomeWriteOk := true;
                     notifyOk := true; publishOk := true; failedWriteOk := true;
                     failedNotifyOk := false; failedPublishOk := true |};
       errorMessage := Some "notification failed" |}.


End Dispatcher.

(* ------------------------------------------------------------------ *)
(** ** The labels of the six technology buckets, in the order of
    [descBucketChecks] *)

Module Buckets.

Definition sixBuckets : list string :=
  ["React"; "Node.js"; "MongoDB"; "Express"; "REST API"; "JavaScript"].

End Buckets.

(* ------------------------------------------------------------------ *)
(** ** The form automation of [applyIndeed]

    Modelled like [FormLoop]: probes are the booleans and texts the code
    reads, after its own handlers. *)

Module Indeed.
Import JsString FormLoop.


(** What [elementHandle()] does on a visible apply element: it hands the
    element over, resolves to null, or throws (the [try] around the probe
    swallows the throw and the next selector is tried). *)
Inductive Handle : Type := Handed | NoHandle | HandleThrows.

Record ApplyProbe : Type := { shown : bool; handle : Handle }.




Definition submitSelectors : list string :=
  [ "button:has-text('Submit your application')";
    "button:has-text('Submit')";
    "button:has-text('Finish')";
    "button:has-text('Apply')" ].

Definition continueSelectors : list string :=
  [ "button:has-text('Continue')";
    "button:has-text('Next')";
    "a:has-text('Continue')" ].

(** A located button of the form: visibility and text content. *)
Record Button : Type := { isVisible : bool; textContent : string }.

Record StepObs : Type := {
  button : string -> Button;
  timedOut : bool           (* Date.now() - stepStart > INDEED_STEP_TIMEOUT_MS *)
}.

(** The guard of the submit loop: a visible button whose text says neither
    continue nor next. *)
Definition isSubmit (b : Button) : bool :=
  isVisible b
  && negb (includes (toLowerCase (textContent b)) "continue"
           || includes (toLowerCase (textContent b)) "next").

Definition submitFound (o : StepObs) : option string :=
  find (fun sel => isSubmit (button o sel)) submitSelectors.

Definition foundContinue (o : StepObs) : bool :=
  existsb (fun sel => isVisible (button o sel)) continueSelectors.

(** One pass through the loop body, from the submit check on. *)
Definition stepBody (autoSubmit : bool) (step : nat) (o : StepObs) : Action * Flow :=
  match submitFound o with
  | Some _ => (Submit, if negb autoSubmit then Return R_MANUAL else Return R_APPLIED)
  | None =>
      if foundContinue o then (Next, Continue)
      else
        (Stall,
         if timedOut o then Continue
         else if (2 <=? step)%nat then Break
         else Continue)
  end.

Fixpoint stepLoop (autoSubmit : bool) (obs : nat -> StepObs) (steps : list nat)
  : list Action * ApplyResult :=
  match steps with
  | [] => ([], R_MANUAL)
  | step :: rest =>
      let '(a, flow) := stepBody autoSubmit step (obs step) in
      match flow with
      | Return r => ([a], r)
      | Break => ([a], R_MANUAL)
      | Continue =>
          let '(tr, r) := stepLoop autoSubmit obs rest in (a :: tr, r)
      end
  end.


(** Sample probes: an apply button that is there, and a form on which
    nothing is ever visible and no pass times out. *)
Definition present : ApplyProbe := {| shown := true; handle := Handed |}.


End Indeed.

(* ------------------------------------------------------------------ *)
(** ** Sample pages *)

Module Samples.
Import FormLoop.

(** A page on which every anchor selector lands on a job-card link and only
    the apply button of the job is a button. *)
Definition jobCard : Candidate :=
  {| visible := true; tagName := "A";
     href := "https://www.linkedin.com/jobs/collections/recommended" |}.

Definition cardsAndButton : string -> Candidate :=
  fun sel => if String.eqb sel "button.jobs-apply-button"
             then {| visible := true; tagName := "BUTTON"; href := "" |}
             else jobCard.

End Samples.

(* ------------------------------------------------------------------ *)
(** ** Reading a log of status writes *)

Module StatusLog.
Import Engine.

(** The outcome states: what a finished run may leave behind. *)
Definition settled (s : ApplicationState) : bool :=
  match s with
  | APPLIED | FAILED | MANUAL_INTERVENTION => true
  | QUEUED | PROCESSING => false
  end.

(** The state the store holds after the writes [ws]. *)
Definition lastWrite (ws : Log) : option ApplicationState :=
  match rev ws with
  | s :: _ => Some s
  | [] => None
  end.

Definition endsSettled (ws : Log) : bool :=
  match lastWrite ws with
  | Some s => settled s
  | None => false
  end.

Definition wrote (s : ApplicationState) (ws : Log) : bool := existsb (state_eqb s) ws.

End StatusLog.

(* ------------------------------------------------------------------ *)
(** ** Well-formed worlds of the dispatcher *)

Module StreamInv.
Import Dispatcher.



(** The attempts counter of an entry, when it has a payload, is one that
    [enqueueApplication] or the retry branch of the loop writes. *)
Definition inRange (m : Message) : Prop :=
  match payloadField m with
  | Some q => (0 <= attemptsOf q < MAX_ATTEMPTS)%Z
  | None => True
  end.

Definition finished (app : string) : Event :=
  {| ev_jobId := app; ev_type := "JOB_FINISHED"; ev_message := "Automation completed" |}.

End StreamInv.

(* ------------------------------------------------------------------ *)
(** ** The choice of the AI provider ([ai.ts]) *)

Module Ai.
Import JsString.

(** The environment the module reads when it is loaded. *)
Record Env : Type := {
  GEMINI_API_KEY : option string;
  OPENAI_API_KEY : option string;
  AI_PROVIDER : option string
}.

Inductive Provider : Type := P_openai | P_gemini | P_none.

Definition provider_eqb (a b : Provider) : bool :=
  match a, b with
  | P_openai, P_openai | P_gemini, P_gemini | P_none, P_none => true
  | _, _ => false
  end.

(** [(process.env.AI_PROVIDER ?? "auto").toLowerCase()] *)
Definition provider (e : Env) : string :=
  toLowerCase (match AI_PROVIDER e with Some p => p | None => "auto" end).

(** [key ? new Client(key) : null], as the presence of the client. *)
Definition client (key : option string) : bool :=
  match key with Some k => truthy k | None => false end.

Definition genAI (e : Env) : bool := client (GEMINI_API_KEY e).
Definition openai (e : Env) : bool := client (OPENAI_API_KEY e).

Definition resolveProvider (e : Env) (override : option string) : Provider :=
  let choice := match override with Some o => o | None => provider e end in
  if String.eqb choice "openai"
  then (if openai e then P_openai else if genAI e then P_gemini else P_none)
  else if String.eqb choice "gemini"
  then (if genAI e then P_gemini else if openai e then P_openai else P_none)
  else if openai e then P_openai
  else if genAI e then P_gemini
  else P_none.

Definition isAIEnabled (e : Env) (override : option string) : bool :=
  negb (provider_eqb (resolveProvider e override) P_none).

End Ai.

(* ------------------------------------------------------------------ *)
(** ** Search queries ([buildQuery], [buildMultipleQueries]) *)

Module Queries.
Import JsString.

Record SearchPreference : Type := {
  roles : list string;
  keywords : list string
}.

(** [pref.keywords.slice(0, 2).map((t) => t.trim()).filter(Boolean).join(" ")] *)
Definition keywordQuery (pref : SearchPreference) : string :=
  join " " (filter truthy (map trim (firstn 2 (keywords pref)))).

Definition buildQuery (pref : SearchPreference) : string :=
  let role := match roles pref with r :: _ => Some (trim r) | [] => None end in
  match role with
  | Some r => if truthy r then r else keywordQuery pref
  | None => keywordQuery pref
  end.

(** The body of the loop over the roles. *)
Definition addRole (queries : list string) (role : string) : list string :=
  let trimmed := trim role in
  if truthy trimmed && negb (existsb (String.eqb trimmed) queries)
  then push queries trimmed
  else queries.

Definition buildMultipleQueries (pref : SearchPreference) : list string :=
  let queries := fold_left addRole (roles pref) [] in
  if (List.length queries =? 0)%nat then
    let kw := keywordQuery pref in
    if truthy kw then push queries kw else queries
  else queries.

End Queries.

(* ------------------------------------------------------------------ *)
(** ** The pre-click validation of the searches

    What [searchLinkedIn] and [searchIndeed] do with the cards extracted
    from a result page. *)

Module Search.
Import JsString Classifier.

(** [s.split(sep)] for a non-empty separator. *)
Fixpoint split_go (sep : string) (skip : nat) (cur : string) (s : string) : list string :=
  match s with
  | EmptyString => [cur]
  | String a s' =>
      match skip with
      | S n => split_go sep n cur s'
      | O =>
          if String.prefix sep s
          then cur :: split_go sep (String.length sep - 1) "" s'
          else split_go sep 0 (cur ++ String a "") s'
      end
  end.

Definition split (sep s : string) : list string := split_go sep 0 "" s.

Inductive Platform : Type := LINKEDIN | INDEED.

Record LinkedInCard : Type := {
  title : option string;
  company : option string;
  location : option string;
  url : option string;
  easyApply : bool
}.

Record IndeedCard : Type := {
  i_title : option string;
  i_company : option string;
  i_location : option string;
  jk : option string
}.

Record Job : Type := {
  externalId : string;
  jobUrl : string;
  j_title : option string;
  j_company : option string;
  j_location : option string;
  j_easyApply : option bool;
  platform : Platform
}.

Definition present (o : option string) : bool :=
  match o with Some s => truthy s | None => false end.

(** The part of the URL after [/jobs/view/] up to the next slash, or the URL. *)
Definition linkedInId (u : string) : string :=
  match nth_error (split "/jobs/view/" u) 1 with
  | Some x => match split "/" x with h :: _ => h | [] => u end
  | None => u
  end.

(** Whether a card goes on: [forceApply] bypasses the validation of title
    and location, which runs without a description. *)
Definition keeps (forceApply : bool) (title location : option string) : bool :=
  if forceApply then true
  else pass (validateMERNJob (orEmpty title) None location).

Definition linkedInStep (forceApply : bool) (filtered : list Job) (job : LinkedInCard)
  : list Job :=
  if keeps forceApply (title job) (location job) then
    push filtered
         {| externalId := "linkedin_" ++ linkedInId (orEmpty (url job));
            jobUrl := orEmpty (url job);
            j_title := title job; j_company := company job; j_location := location job;
            j_easyApply := Some (easyApply job); platform := LINKEDIN |}
  else filtered.

Definition searchLinkedIn (forceApply : bool) (jobs : list LinkedInCard) : list Job :=
  let withUrls := filter (fun job => present (url job)) jobs in
  fold_left (linkedInStep forceApply) withUrls [].

Definition indeedStep (forceApply : bool) (validatedResults : list Job) (job : IndeedCard)
  : list Job :=
  if keeps forceApply (i_title job) (i_location job) then
    push validatedResults
         {| externalId := "indeed_" ++ orEmpty (jk job);
            jobUrl := "https://www.indeed.com/viewjob?jk=" ++ orEmpty (jk job);
            j_title := i_title job; j_company := i_company job;
            j_location := i_location job;
            j_easyApply := None; platform := INDEED |}
  else validatedResults.

Definition searchIndeed (forceApply : bool) (jobs : list IndeedCard) : list Job :=
  let withJk := filter (fun job => present (jk job)) jobs in
  fold_left (indeedStep forceApply) withJk [].

End Search.

(* ------------------------------------------------------------------ *)
(** ** Status notifications ([sendStatusNotification]) *)

Module Notifications.
Import JsString Engine.

Inductive NotificationStatus : Type := N_PENDING | N_SENT | N_FAILED.
Inductive NotificationType : Type := T_ERROR | T_COMPLETED | T_STATUS_UPDATE.

Record Mail : Type := { to : string; subject : string; text : string }.

Record Payload : Type := {
  status : ApplicationState;
  title : option string;
  company : option string;
  jobUrl : option string
}.

Definition statusName (s : ApplicationState) : string :=
  match s with
  | QUEUED => "QUEUED"
  | PROCESSING => "PROCESSING"
  | APPLIED => "APPLIED"
  | FAILED => "FAILED"
  | MANUAL_INTERVENTION => "MANUAL_INTERVENTION"
  end.

Definition given (o : option string) : option string :=
  match o with
  | Some s => if truthy s then Some s else None
  | None => None
  end.

Definition formatSubject (status : ApplicationState) (title company : option string)
  : string :=
  let role := match given title with Some t => " " ++ t | None => "" end in
  let org := match given company with Some c => " @ " ++ c | None => "" end in
  match status with
  | APPLIED => "Applied" ++ role ++ org
  | MANUAL_INTERVENTION => "Manual review needed" ++ role ++ org
  | FAILED => "Application failed" ++ role ++ org
  | _ => "Application update" ++ role ++ org
  end.

Definition newline : string := String (ascii_of_nat 10) EmptyString.

Definition pushIf (o : option string) (prefix : string) (lines : list string)
  : list string :=
  match given o with Some v => push lines (prefix ++ v) | None => lines end.

Definition formatBody (payload : Payload) : string :=
  let lines := push [] ("Status: " ++ statusName (status payload)) in
  let lines := pushIf (title payload) "Role: " lines in
  let lines := pushIf (company payload) "Company: " lines in
  let lines := pushIf (jobUrl payload) "Link: " lines in
  let lines := push lines "" in
  let lines := push lines "ApplyCraft notification." in
  join newline lines.

Definition typeOf (s : ApplicationState) : NotificationType :=
  match s with
  | FAILED => T_ERROR
  | APPLIED => T_COMPLETED
  | _ => T_STATUS_UPDATE
  end.

(** What the calls of one run do. *)
Record Oracle : Type := {
  findOk : bool;              (* prisma.user.findUnique completes *)
  email : option string;      (* user?.email *)
  transporter : bool;         (* SMTP_HOST and SMTP_FROM are set *)
  createOk : bool;            (* prisma.notification.create *)
  sendOk : bool;              (* transporter.sendMail *)
  sentUpdateOk : bool;        (* the update to SENT *)
  failedUpdateOk : bool       (* the update to FAILED of the handler *)
}.

(** The notification row of the run and the mails handed to the transport. *)
Record Outbox : Type := {
  row : option (NotificationType * NotificationStatus);
  mails : list Mail
}.

Definition N (A : Type) : Type := Outbox -> Res A * Outbox.

Definition n_bind {A B : Type} (m : N A) (f : A -> N B) : N B :=
  fun o =>
    match m o with
    | (Ok a, o') => f a o'
    | (Throw, o') => (Throw, o')
    end.

Definition n_try {A : Type} (body handler : N A) : N A :=
  fun o =>
    match body o with
    | (Ok a, o') => (Ok a, o')
    | (Throw, o') => handler o'
    end.

Definition n_ret {A : Type} (a : A) : N A := fun o => (Ok a, o).

Definition n_call (ok : bool) : N unit := fun o => (if ok then Ok tt else Throw, o).

Definition create (ok : bool) (t : NotificationType) (s : NotificationStatus) : N unit :=
  fun o => if ok then (Ok tt, {| row := Some (t, s); mails := mails o |}) else (Throw, o).

Definition updateRow (ok : bool) (s : NotificationStatus) : N unit :=
  fun o =>
    if ok then
      (Ok tt, {| row := match row o with Some (t, _) => Some (t, s) | None => None end;
                 mails := mails o |})
    else (Throw, o).

Definition sendMail (ok : bool) (m : Mail) : N unit :=
  fun o => if ok then (Ok tt, {| row := row o; mails := push (mails o) m |}) else (Throw, o).

Definition sendStatusNotification (payload : Payload) (x : Oracle) : N unit :=
  n_bind (n_call (findOk x)) (fun _ =>
  match given (email x) with
  | None => n_ret tt
  | Some address =>
      n_bind (create (createOk x) (typeOf (status payload))
                     (if transporter x then N_PENDING else N_FAILED)) (fun _ =>
      if negb (transporter x) then n_ret tt
      else
        n_try
          (n_bind (sendMail (sendOk x)
                     {| to := address;
                        subject := formatSubject (status payload) (title payload)
                                                 (company payload);
                        text := formatBody payload |}) (fun _ =>
           updateRow (sentUpdateOk x) N_SENT))
          (updateRow (failedUpdateOk x) N_FAILED))
  end).

Definition emptyOutbox : Outbox := {| row := None; mails := [] |}.

Definition outcome (payload : Payload) (x : Oracle) : Res unit * Outbox :=
  sendStatusNotification payload x emptyOutbox.

Definition returns {A : Type} (r : Res A * Outbox) : bool :=
  match fst r with Ok _ => true | Throw => false end.

Definition rowStatus (r : Res unit * Outbox) : option NotificationStatus :=
  match row (snd r) with Some (_, s) => Some s | None => None end.

End Notifications.

(* ------------------------------------------------------------------ *)
(** ** Runs of characters, without a pattern

    Direct definitions of what the run-replacing patterns of the code
    compute; the theorems relate them to the patterns. *)

Module Runs.
Import JsString.

Fixpoint all (P : ascii -> bool) (s : string) : bool :=
  match s with
  | EmptyString => true
  | String a s' => P a && all P s'
  end.

Fixpoint dropRun (p : ascii -> bool) (s : string) : string :=
  match s with
  | String a s' => if p a then dropRun p s' else s
  | EmptyString => EmptyString
  end.

Fixpoint runLength (p : ascii -> bool) (s : string) : nat :=
  match s with
  | String a s' => if p a then S (runLength p s') else O
  | EmptyString => O
  end.

Definition startsWith (p : ascii -> bool) (s : string) : bool :=
  match s with String a _ => p a | EmptyString => false end.

Fixpoint endsWith (p : ascii -> bool) (s : string) : bool :=
  match s with
  | EmptyString => false
  | String a EmptyString => p a
  | String _ s' => endsWith p s'
  end.

(** Every maximal run of [p] characters becomes one space; [inRun] says that
    the characters before belong to a run already replaced. *)
Fixpoint squeeze (p : ascii -> bool) (inRun : bool) (s : string) : string :=
  match s with
  | EmptyString => EmptyString
  | String a s' =>
      if p a then (if inRun then squeeze p true s' else String " " (squeeze p true s'))
      else String a (squeeze p false s')
  end.

(** Every maximal run of two or more [p] characters becomes one space. *)
Fixpoint squeeze2 (p : ascii -> bool) (inRun : bool) (s : string) : string :=
  match s with
  | EmptyString => EmptyString
  | String a s' =>
      if inRun then (if p a then squeeze2 p true s' else String a (squeeze2 p false s'))
      else if p a && startsWith p s' then String " " (squeeze2 p true s')
      else String a (squeeze2 p false s')
  end.

(** No two adjacent [p] characters; [after] says the character before is one. *)
Fixpoint noPair (p : ascii -> bool) (after : bool) (s : string) : bool :=
  match s with
  | EmptyString => true
  | String a s' => if p a then negb after && noPair p true s' else noPair p false s'
  end.

Definition is_alnum (a : ascii) : bool := is_lower a || is_digit a.
Definition is_blank (a : ascii) : bool := Ascii.eqb a " ".

(** Words of [a-z0-9] separated by single spaces. *)
Definition normal (s : string) : bool :=
  all (fun a => is_alnum a || is_blank a) s
  && noPair is_blank true s
  && negb (endsWith is_space s).

End Runs.

(* ------------------------------------------------------------------ *)
(** ** Choosing among the options of a question
    ([normalizeText], [isBlankChoice], [pickBestOption] and the radio
    groups of [fillAIQuestions]) *)

Module Options.
Import JsString Regex.

Record OptionChoice : Type := { value : string; text : string }.

(** [[^a-z0-9]] *)
Definition not_alnum (a : ascii) : bool := negb (is_lower a || is_digit a).

Definition normalizeText (value : string) : string :=
  trim (replaceAll (PlusC not_alnum) FieldResolver.blank (toLowerCase value)).

Definition isBlankChoice (value text : string) : bool :=
  let cleaned := normalizeText (or_else (or_else text value) "") in
  (String.length cleaned =? 0)%nat
  || String.eqb cleaned "select"
  || String.eqb cleaned "select an option"
  || String.eqb cleaned "please select"
  || String.prefix "select" cleaned
  || includes cleaned "choose"
  || String.eqb cleaned "--"
  || String.eqb cleaned "-"
  || String.eqb value "".

Definition yesWords : list string := ["yes"; "true"; "y"].
Definition noWords : list string := ["no"; "false"; "n"].

(** [a > b] *)
Definition gt (a b : Q) : bool := negb (Qle_bool a b).

(** The score of an option in the loop of [pickBestOption]; [None] when the
    option is passed over ([continue]).  The scores are 2, 3, 4 and the
    quotients hits/tokens, which in one call all have the same denominator:
    their order as rationals is their order as doubles. *)
Definition rate (normalizedAnswer : string) (opt : OptionChoice) : option Q :=
  let hasYes := existsb (fun word => includes normalizedAnswer word) yesWords in
  let hasNo := existsb (fun word => includes normalizedAnswer word) noWords in
  let optionText := normalizeText (or_else (text opt) (value opt)) in
  if negb (truthy optionText) then None
  else if hasYes && (includes optionText "yes" || includes optionText "true") then Some 3
  else if hasNo && (includes optionText "no" || includes optionText "false") then Some 3
  else if String.eqb normalizedAnswer optionText then Some 4
  else if includes normalizedAnswer optionText || includes optionText normalizedAnswer
  then Some 2
  else
    let tokens := filter truthy (Search.split " " normalizedAnswer) in
    let hits := List.length (filter (fun token => includes optionText token) tokens) in
    Some (inject_Z (Z.of_nat hits) / inject_Z (Z.of_nat (Nat.max (List.length tokens) 1))).

Fixpoint best_of (normalizedAnswer : string) (options : list OptionChoice)
         (best : option OptionChoice) (bestScore : Q) : option OptionChoice :=
  match options with
  | [] => best
  | opt :: rest =>
      match rate normalizedAnswer opt with
      | None => best_of normalizedAnswer rest best bestScore
      | Some score =>
          if gt score bestScore
          then best_of normalizedAnswer rest (Some opt) score
          else best_of normalizedAnswer rest best bestScore
      end
  end.

Definition pickBestOption (options : list OptionChoice) (answer : string) : option string :=
  let normalizedAnswer := normalizeText answer in
  if negb (truthy normalizedAnswer) then None
  else
    match best_of normalizedAnswer options None 0 with
    | Some best => Some (value best)
    | None => None
    end.

(** [xs.findIndex(f)], [None] for -1. *)
Fixpoint findIndex {A : Type} (f : A -> bool) (xs : list A) : option nat :=
  match xs with
  | [] => None
  | x :: rest =>
      if f x then Some O
      else match findIndex f rest with Some i => Some (S i) | None => None end
  end.

Record RadioOption : Type := { index : nat; label : string; id : string }.

(** The radio of a group that is clicked for an answer, if any. *)
Definition radioTarget (options : list RadioOption) (answer : string) : option nat :=
  let choices := map (fun opt => {| value := label opt; text := label opt |})
                     options in
  match pickBestOption choices answer with
  | None => None
  | Some choice =>
      if negb (truthy choice) then None
      else
        let index :=
          findIndex (fun opt => String.eqb (toLowerCase (trim (label opt)))
                                              (toLowerCase (trim choice))) options in
        let fallbackIndex :=
          findIndex (fun opt => includes (toLowerCase (label opt))
                                            (toLowerCase choice)) options in
        match index with Some i => Some i | None => fallbackIndex end
  end.

End Options.

(* ------------------------------------------------------------------ *)
(** ** Numbers in a text, without a pattern *)

Module Numbers.
Import JsString Runs.

Fixpoint takeRun (p : ascii -> bool) (s : string) : string :=
  match s with
  | String a s' => if p a then String a (takeRun p s') else EmptyString
  | EmptyString => EmptyString
  end.

Definition is_dot (a : ascii) : bool := Ascii.eqb a ".".
Definition is_minus (a : ascii) : bool := Ascii.eqb a "-".

(** A dot followed by digits at the start of [s], and what follows it. *)
Definition fractionAt (s : string) : string * string :=
  match s with
  | String a (String d r) =>
      if is_dot a && is_digit d
      then (String a (String d (takeRun is_digit r)), dropRun is_digit r)
      else (EmptyString, s)
  | _ => (EmptyString, s)
  end.

(** Digits with an optional fraction at the start of [s]. *)
Definition unsignedAt (s : string) : option (string * string) :=
  if startsWith is_digit s then
    let f := fractionAt (dropRun is_digit s) in
    Some (takeRun is_digit s ++ fst f, snd f)
  else None.

(** The number that starts at the first character of [s], if there is one,
    with the rest of the text. *)
Definition numberAt (s : string) : option (string * string) :=
  match s with
  | String a s' =>
      if is_minus a then
        match unsignedAt s' with
        | Some (n, rest) => Some (String a n, rest)
        | None => None
        end
      else unsignedAt s
  | EmptyString => None
  end.

(** The leftmost number of a text, or the empty text. *)
Fixpoint firstNumber (s : string) : string :=
  match numberAt s with
  | Some (n, _) => n
  | None =>
      match s with
      | String _ s' => firstNumber s'
      | EmptyString => EmptyString
      end
  end.

(** An optional minus sign, digits, and optionally a dot and digits. *)
Definition numeral (m : string) : bool :=
  let u := match m with
           | String a t => if is_minus a then t else m
           | EmptyString => m
           end in
  startsWith is_digit u
  && match dropRun is_digit u with
     | EmptyString => true
     | String a f =>
         is_dot a && startsWith is_digit f
         && (String.length (dropRun is_digit f) =? 0)%nat
     end.

End Numbers.

(* ------------------------------------------------------------------ *)
(** ** Collecting the LinkedIn jobs of a run ([runFullAutomation]) *)

Module Automation.
Import JsString Regex Search Queries.

(** A literal matched without the [i] flag. *)
Fixpoint Exact (s : string) : regex :=
  match s with
  | EmptyString => Eps
  | String a EmptyString => Cls (Ascii.eqb a)
  | String a s' => Seq (Cls (Ascii.eqb a)) (Exact s')
  end.

(** [/\/jobs\/view\/(\d+)/] *)
Definition job_view_pattern : regex := Seq (Exact "/jobs/view/") (Cap digits).

(** The key under which a job is counted once: the numeric id of a LinkedIn
    job URL, or the URL. Group 1 takes part in every match. *)
Definition normalizeJobUrl (url : string) : string :=
  match exec job_view_pattern url with
  | Some (_, Some id) => id
  | Some (_, None) => url
  | None => url
  end.

Record Combo : Type := {
  query : string;
  c_location : string;
  remote : bool;
  easyApplyOnly : bool
}.

Definition searchCombos (queries : list string) : list Combo :=
  (map (fun q => {| query := q; c_location := "Remote"; remote := true;
                    easyApplyOnly := true |}) queries
   ++ map (fun q => {| query := q; c_location := "Worldwide"; remote := true;
                       easyApplyOnly := true |}) queries
   ++ [ {| query := match queries with q :: _ => q | [] => "MERN Stack Developer" end;
           c_location := "Remote"; remote := true; easyApplyOnly := false |} ])%list.

(** [seenUrls] and [linkedInJobs]. *)
Record Found : Type := {
  seenUrls : list string;
  linkedInJobs : list Job
}.

Definition nothing : Found := {| seenUrls := []; linkedInJobs := [] |}.

(** The body of the loop over the results of one search. *)
Definition addJob (st : Found) (job : Job) : Found :=
  let jobKey := normalizeJobUrl (jobUrl job) in
  if existsb (String.eqb jobKey) (seenUrls st) then st
  else {| seenUrls := push (seenUrls st) jobKey;
          linkedInJobs := push (linkedInJobs st) job |}.

(** The loop over the search combinations; [page n combo] is what the n-th
    search extracts from the result page, [None] when the search throws. *)
Fixpoint searchAll (forceApply : bool) (page : nat -> Combo -> option (list LinkedInCard))
         (n : nat) (combos : list Combo) (st : Found) : Found :=
  match combos with
  | [] => st
  | combo :: rest =>
      match page n combo with
      | None => st
      | Some cards =>
          let st := fold_left addJob (searchLinkedIn forceApply cards) st in
          if (10 <=? List.length (linkedInJobs st))%nat then st
          else searchAll forceApply page (S n) rest st
      end
  end.

(** The jobs the LinkedIn part of a run goes on with; a failed login skips
    the searches. *)
Definition findLinkedInJobs (forceApply loginOk : bool) (pref : SearchPreference)
           (page : nat -> Combo -> option (list LinkedInCard)) : list Job :=
  if loginOk then
    linkedInJobs (searchAll forceApply page 0 (searchCombos (buildMultipleQueries pref))
                            nothing)
  else [].

Definition keyOf (job : Job) : string := normalizeJobUrl (jobUrl job).

(** [seenUrls] holds the keys of the jobs collected, each once. *)
Definition consistent (st : Found) : Prop :=
  seenUrls st = map keyOf (linkedInJobs st) /\ NoDup (seenUrls st).

End Automation.

(* ------------------------------------------------------------------ *)
(** ** Pieces of the patterns of the field resolver *)

Module Pieces.
Import JsString Regex Runs FieldResolver.

(** A captured group made of characters that satisfy [P]. *)
Definition capOk (P : ascii -> bool) (cap : option string) : Prop :=
  match cap with Some c => all P c = true | None => True end.

Definition not_star (a : ascii) : bool := negb (is_chr "*" a).

(** [\s{2,}] *)
Definition spaces2 : regex := Cat [Cls is_space; Cls is_space; StarC is_space].

Definition clean (a : ascii) : bool := not_star a && negb (is_newline a).

(** [(\.\d+)?] *)
Definition fraction_pattern : regex := Opt (Seq (Lit ".") digits).

End Pieces.

(* ------------------------------------------------------------------ *)
(** ** The awaited calls of the form loop

    The passes of the loop of [applyLinkedIn] with the calls they await
    without a handler: when such a call rejects, the exception leaves
    [applyLinkedIn].  The probes of a pass ([isVisible] and [$$eval], each
    with its [catch]) and the calls to [log] cannot reject. *)

Module FormCalls.
Import JsString FormLoop Engine.

(** What the unhandled awaited calls of one pass do ([true]: the call
    completes), with the two observations that decide whether a refill
    runs. *)
Record Awaited : Type := {
  fills : bool;              (* fillCommonFields, fillAIQuestions at the top of the pass *)
  allRequiredFilled : bool;  (* no empty required field, no validation error *)
  refills : bool;            (* the second fill and the 500 ms wait *)
  stops : bool;              (* AUTO_SUBMIT off: publishEvent before return "MANUAL" *)
  submits : bool;            (* AUTO_SUBMIT on: btn.click() and the 3 s wait *)
  reviewWaits : bool;        (* the 1.5 s wait after the click on Review *)
  postReviewErrors : bool;   (* postReviewErrors.length > 0 *)
  reviewRefills : bool;      (* the fill after a blocked Review *)
  nextWaits : bool;          (* the 1.5 s wait after the click on Next *)
  stallWaits : bool;         (* waitForTimeout(2000) *)
  probes : bool              (* page.$ of the give-up check *)
}.

(** How a pass ends. *)
Inductive Step : Type :=
| Returns (r : ApplyResult)
| Continues
| Breaks
| Throws.

(** How the loop ends. *)
Inductive Outcome : Type :=
| Returned (r : ApplyResult)
| Thrown.

(** One pass through the loop body; the action is the branch of the
    navigation decision the pass enters, if it gets that far. *)
Definition pass (autoSubmit : bool) (step : nat) (o : StepObs) (c : Awaited)
  : option Action * Step :=
  if negb (fills c) then (None, Throws)
  else if negb (allRequiredFilled c) && (step <? MAX_STEPS - 1)%nat && negb (refills c)
  then (None, Throws)
  else if submitFound o then
    (Some Submit,
     if negb autoSubmit
     then (if stops c then Returns R_MANUAL else Throws)
     else (if submits c then Returns R_APPLIED else Throws))
  else if reviewVisible o then
    (Some Review,
     if negb (reviewWaits c) then Throws
     else if postReviewErrors c && negb (reviewRefills c) then Throws
     else Continues)
  else if nextVisible o then
    (Some Next, if nextWaits c then Continues else Throws)
  else
    (Some Stall,
     if dismissVisible o then Breaks
     else if timedOut o then Continues
     else if negb (stallWaits c) then Throws
     else if timedOutAfterWait o then Continues
     else if (2 <=? step)%nat then
       (if negb (probes c) then Throws
        else if negb (anyButton o) then Breaks
        else Continues)
     else Continues).

Definition taken (a : option Action) : list Action :=
  match a with Some x => [x] | None => [] end.

(** The loop and the [return "MANUAL"] that follows it. *)
Fixpoint passes (autoSubmit : bool) (obs : nat -> StepObs) (calls : nat -> Awaited)
         (steps : list nat) : list Action * Outcome :=
  match steps with
  | [] => ([], Returned R_MANUAL)
  | step :: rest =>
      let '(a, flow) := pass autoSubmit step (obs step) (calls step) in
      match flow with
      | Returns r => (taken a, Returned r)
      | Breaks => (taken a, Returned R_MANUAL)
      | Throws => (taken a, Thrown)
      | Continues =>
          let '(tr, r) := passes autoSubmit obs calls rest in ((taken a ++ tr)%list, r)
      end
  end.

Definition formLoop (autoSubmit : bool) (obs : nat -> StepObs) (calls : nat -> Awaited)
  : list Action * Outcome :=
  passes autoSubmit obs calls (seq 0 MAX_STEPS).

(** The end of a pass of [FormLoop.stepBody], which has no throw. *)
Definition lift (f : Flow) : Step :=
  match f with
  | Return r => Returns r
  | Continue => Continues
  | Break => Breaks
  end.

(** Every unhandled call of the pass completes. *)
Definition completes (c : Awaited) : bool :=
  fills c && refills c && stops c && submits c && reviewWaits c && reviewRefills c
  && nextWaits c && stallWaits c && probes c.

(** What [applyWithBrowser] sees of the loop. *)
Definition seen (r : Outcome) : Body :=
  match r with
  | Returned x => Finished x
  | Thrown => Raises
  end.

(** The run of [applyWithBrowser] around a flow that ends as [b], every
    other operation completing. *)
Definition around (b : Body) : Oracle :=
  {| contextOk := true; processingOk := true; body := b;
     rejectWriteOk := true; posterOk := true; outcomeWriteOk := true;
     notifyOk := true; publishOk := true; failedWriteOk := true;
     failedNotifyOk := true; failedPublishOk := true |}.

(** Sample calls: all complete, and the first fill rejects. *)
Definition allComplete : Awaited :=
  {| fills := true; allRequiredFilled := true; refills := true; stops := true;
     submits := true; reviewWaits := true; postReviewErrors := false;
     reviewRefills := true; nextWaits := true; stallWaits := true; probes := true |}.

Definition fillRejects : Awaited :=
  {| fills := false; allRequiredFilled := true; refills := true; stops := true;
     submits := true; reviewWaits := true; postReviewErrors := false;
     reviewRefills := true; nextWaits := true; stallWaits := true; probes := true |}.

End FormCalls.

(* ------------------------------------------------------------------ *)
(** ** The calls of the [try] block of the consumer loop

    The body of the loop with the two calls that follow [processJob] inside
    the [try] block, the publish of JOB_FINISHED and the XACK: when one of
    them rejects, the [catch] block runs as it does for a [processJob] that
    throws.  [processJob] publishes on the same channel (STEP_COMPLETED
    from the flows, the events of [applyWithBrowser]); what a call
    publishes is given with the call.  The calls of the [catch] block are
    taken to complete, as in [Dispatcher]. *)

Module Channel.
Import JsString Engine Dispatcher StreamInv.

Record Around : Type := {
  published : list Event;      (* what processJob publishes during the call *)
  finishedOk : bool;           (* publishEvent(JOB_FINISHED) of the try block *)
  ackOk : bool;                (* redis.xack of the try block *)
  redisError : option string   (* err?.message of a rejected publish or XACK *)
}.

Definition publishAll (es : list Event) (w : World) : World :=
  fold_left (fun w e => publishEvent e w) es w.


Section Worker.

Variable behaviour : nat -> Payload -> JobOracle.
Variable around : nat -> Payload -> Around.

(** The body of the loop over the messages of one XREADGROUP response. *)
Definition handle (m : Message) (w : World) : World :=
  match payloadField m with
  | None => xack (id m) w
  | Some p =>
      let j := behaviour (List.length (delivered w)) p in
      let a := around (List.length (delivered w)) p in
      let w := called p w in
      let '(res, ws) := processJob j [] in
      let w := writeStatus (applicationId p) ws w in
      let w := publishAll (published a) w in
      match res with
      | Ok _ =>
          if finishedOk a then
            let w := publishEvent (finished (applicationId p)) w in
            if ackOk a then xack (id m) w
            else xack (id m) (onFailure p (redisError a) w)
          else xack (id m) (onFailure p (redisError a) w)
      | Throw => xack (id m) (onFailure p (errorMessage j) w)
      end
  end.

Definition turn (w : World) : World :=
  match stream w with
  | [] => w
  | m :: rest => handle m (pop rest w)
  end.

Fixpoint run (turns : nat) (w : World) : World :=
  match turns with
  | O => w
  | S k => run k (turn w)
  end.

End Worker.

(** A call during which [processJob] publishes nothing and both calls of
    the [try] block complete. *)
Definition quiet : Around :=
  {| published := []; finishedOk := true; ackOk := true; redisError := None |}.



Definition ackRejects : nat -> Payload -> Around :=
  fun _ p => {| published := []; finishedOk := true; ackOk := false;
                redisError := Some "Connection is closed." |}.

End Channel.

(* ================================================================== *)
(** * Properties of the classifier *)

Section ClassifierFacts.
Import JsString Regex Classifier.

Lemma check_hits_length (b : bool) (l : string) (acc : BucketChecks) :
  List.length (hits (check b l acc))
  = (List.length (hits acc) + (if b then 1 else 0))%nat.
Proof.
  destruct b; simpl.
  - unfold push. rewrite length_app. reflexivity.
  - lia.
Qed.

Lemma hits_at_most_six (d : string) :
  (List.length (hits (descBucketChecks d)) <= 6)%nat.
Proof.
  unfold descBucketChecks.
  repeat rewrite check_hits_length. simpl.
  repeat match goal with |- context [if ?b then 1%nat else 0%nat] => destruct b end; lia.
Qed.

Lemma push_if_length (b : bool) (l : string) (xs : list string) :
  List.length (push_if b l xs) = (List.length xs + (if b then 1 else 0))%nat.
Proof.
  destruct b; simpl.
  - unfold push. rewrite length_app. reflexivity.
  - lia.
Qed.

Lemma prefs_at_most_four (title description : string) :
  (List.length (preferenceSignals title description) <= 4)%nat.
Proof.
  unfold preferenceSignals.
  repeat rewrite push_if_length. simpl.
  repeat match goal with |- context [if ?b then 1%nat else 0%nat] => destruct b end; lia.
Qed.

Lemma deepDescription_some (description : option string) (d : string) :
  deepDescription description = Some d ->
  description = Some d /\ (50 < String.length d)%nat.
Proof.
  unfold deepDescription. destruct description as [d'|]; [|discriminate].
  destruct (truthy d' && (50 <? String.length d')%nat) eqn:E; [|discriminate].
  intros H; injection H as <-.
  apply andb_prop in E. destruct E as [_ E]. apply Nat.ltb_lt in E. auto.
Qed.

Lemma deepDescription_none (description : option string) :
  deepDescription description = None <->
  description = None
  \/ exists d, description = Some d /\ (String.length d <= 50)%nat.
Proof.
  unfold deepDescription. destruct description as [d|].
  - destruct (50 <? String.length d)%nat eqn:E.
    + destruct d as [|a d]; simpl in *; [discriminate|].
      split; [discriminate|].
      intros [H|[d' [H Hl]]]; [discriminate|]. injection H as <-.
      apply Nat.ltb_lt in E. simpl in Hl. lia.
    + rewrite andb_false_r. apply Nat.ltb_ge in E.
      split; auto. intros _. right. exists d. auto.
  - split; auto.
Qed.

Lemma finalEvaluation_score title description score rs ms conf :
  match_score (finalEvaluation title description score rs ms conf)
  = Z.min (Math_round
             (withBonus score
                (List.length (preferenceSignals title (orEmpty description))))) 100.
Proof.
  unfold finalEvaluation, withBonus, count.
  destruct (preferenceSignals title (orEmpty description)); reflexivity.
Qed.

Lemma finalEvaluation_is_match title description score rs ms conf :
  is_match (finalEvaluation title description score rs ms conf)
  = (65 <=? match_score (finalEvaluation title description score rs ms conf))%Z.
Proof.
  unfold finalEvaluation.
  destruct (preferenceSignals title (orEmpty description)); reflexivity.
Qed.

Lemma finalEvaluation_missing title description score rs ms conf :
  missing_skills (finalEvaluation title description score rs ms conf) = ms.
Proof.
  unfold finalEvaluation.
  destruct (preferenceSignals title (orEmpty description)); reflexivity.
Qed.

Lemma title_only_bound (m : nat) :
  (m <= 4)%nat ->
  (Z.min (Math_round (withBonus (0 + 35) m)) 100 <= 55)%Z.
Proof.
  intros H.
  destruct m as [|[|[|[|[|m]]]]]; try lia; vm_compute; discriminate.
Qed.

Lemma deep_score_monotone (n m : nat) :
  (n <= 5)%nat -> (m <= 4)%nat ->
  let before :=
    if (n <? 2)%nat then Math_round (0 + 35 + bucketScore n)
    else Z.min (Math_round (withBonus (0 + 35 + bucketScore n) m)) 100 in
  let after :=
    if (S n <? 2)%nat then Math_round (0 + 35 + bucketScore (S n))
    else Z.min (Math_round (withBonus (0 + 35 + bucketScore (S n)) m)) 100 in
  (before <= after)%Z.
Proof.
  intros Hn Hm.
  destruct n as [|[|[|[|[|[|n]]]]]]; try lia;
    destruct m as [|[|[|[|[|m]]]]]; try lia; vm_compute; discriminate.
Qed.

Lemma deep_score_four (m : nat) :
  (m <= 4)%nat ->
  Z.min (Math_round (withBonus (0 + 35 + bucketScore 4) m)) 100
  = (65 + 5 * Z.of_nat m)%Z.
Proof.
  intros Hm.
  destruct m as [|[|[|[|[|m]]]]]; try lia; vm_compute; reflexivity.
Qed.

Lemma floor_score (n : nat) :
  (n < 2)%nat ->
  Math_round (0 + 35 + bucketScore n) = (if (n =? 0)%nat then 35 else 43)%Z.
Proof.
  intros H. destruct n as [|[|n]]; try lia; vm_compute; reflexivity.
Qed.

End ClassifierFacts.

Section ClassifierTheorems.
Import JsString Regex Classifier.

(** Unfolds [computeMERNScore] down to its rule cascade. *)
Ltac enter_cascade :=
  unfold computeMERNScore; cbv zeta.

(** C3. A description that matches fewer than two of the six technology
    buckets is never a match, whatever the title scored. *)
Theorem hard_floor_rejects (title : string) (description location : option string) :
  (List.length (hits (descBucketChecks (orEmpty description))) < 2)%nat ->
  is_match (computeMERNScore title description location) = false.
Proof.
  intros Hfew. enter_cascade.
  destruct (negb (truthy title) || (String.length (trim title) =? 0)%nat); [reflexivity|].
  destruct (negb (remote (isRemoteJob title location description))); [reflexivity|].
  destruct (excluded (isExcludedJob title (orEmpty description))); [reflexivity|].
  destruct (isSeniorRole title description); [reflexivity|].
  destruct (find _ MERN_TITLE_PATTERNS) as [titleMatch|]; [|reflexivity].
  destruct (deepDescription description) as [d|] eqn:Edeep.
  - apply deepDescription_some in Edeep as [-> _]. simpl orEmpty in Hfew.
    apply Nat.ltb_lt in Hfew. rewrite Hfew. reflexivity.
  - rewrite finalEvaluation_is_match, finalEvaluation_score.
    apply Z.leb_gt.
    pose proof (title_only_bound _ (prefs_at_most_four title (orEmpty description))).
    lia.
Qed.

Lemma hard_floor_rejects_witness :
  let d := "We cook, we garden, we hike and we read many books in the sun." in
  (List.length (hits (descBucketChecks d)) < 2)%nat
  /\ is_match (computeMERNScore "Full Stack Developer" (Some d) (Some "Remote")) = false.
Proof.
  split.
  - vm_compute. lia.
  - apply hard_floor_rejects. vm_compute. lia.
Defined.

(** C10. With no description, or one of at most 50 characters, the bucket
    rule is skipped: the score is 0 or 35 plus the preference bonus, at most
    55, which is attained, and the result is never a match; so the
    validation of search results, which passes no description, accepts no
    job. *)
Theorem short_description_never_matches :
  (forall (title : string) (description location : option string),
      (description = None
       \/ exists d, description = Some d /\ (String.length d <= 50)%nat) ->
      let r := computeMERNScore title description location in
      In (match_score r) [0; 35; 40; 45; 50; 55]%Z
      /\ (match_score r <= 55)%Z
      /\ is_match r = false
      /\ missing_skills r = []
      /\ pass (validateMERNJob title description location) = false)
  /\ (forall (title : string) (location : option string),
         pass (validateMERNJob title None location) = false)
  /\ (exists (title : string) (location : option string),
         match_score (computeMERNScore title None location) = 55%Z).
Proof.
  assert (main : forall title description location,
             deepDescription description = None ->
             let r := computeMERNScore title description location in
             In (match_score r) [0; 35; 40; 45; 50; 55]%Z
             /\ is_match r = false /\ missing_skills r = []).
  { intros title description location Hshort. enter_cascade.
    rewrite Hshort.
    destruct (negb (truthy title) || (String.length (trim title) =? 0)%nat);
      [simpl; auto|].
    destruct (negb (remote (isRemoteJob title location description))); [simpl; auto|].
    destruct (excluded (isExcludedJob title (orEmpty description))); [simpl; auto|].
    destruct (isSeniorRole title description); [simpl; auto|].
    destruct (find _ MERN_TITLE_PATTERNS) as [titleMatch|]; [|simpl; auto].
    rewrite finalEvaluation_is_match, finalEvaluation_missing, finalEvaluation_score.
    pose proof (prefs_at_most_four title (orEmpty description)) as Hm.
    destruct (List.length (preferenceSignals title (orEmpty description)))
      as [|[|[|[|[|m]]]]]; try lia; vm_compute; intuition congruence. }
  assert (bound : forall z, In z [0; 35; 40; 45; 50; 55]%Z -> (z <= 55)%Z).
  { intros z Hz. simpl in Hz. lia. }
  split; [|split].
  - intros title description location Hshort r.
    apply deepDescription_none in Hshort.
    destruct (main title description location Hshort) as (Hin & Hm & Hs).
    fold r in Hin, Hm, Hs.
    repeat split; auto.
    unfold validateMERNJob. cbv zeta. fold r. rewrite Hm. reflexivity.
  - intros title location.
    destruct (main title None location eq_refl) as (_ & Hm & _).
    unfold validateMERNJob. cbv zeta. rewrite Hm. reflexivity.
  - exists "Full Stack Developer, remote SaaS startup, worldwide founding team", None.
    vm_compute. reflexivity.
Qed.

Lemma short_description_never_matches_witness :
  let r := computeMERNScore "Full Stack Developer" (Some "React, Node.js, MongoDB, Express")
             (Some "Remote") in
  (String.length "React, Node.js, MongoDB, Express" <= 50)%nat
  /\ (match_score r <= 55)%Z /\ is_match r = false.
Proof.
  split; [vm_compute; lia|].
  destruct short_description_never_matches as [H _].
  destruct (H "Full Stack Developer" (Some "React, Node.js, MongoDB, Express")
              (Some "Remote")) as (_ & Hb & Hm & _).
  - right. exists "React, Node.js, MongoDB, Express". split; [reflexivity|].
    vm_compute. lia.
  - split; assumption.
Defined.

(** C4 (amended). For a non-empty title the rules run in the order remote,
    exclusion, seniority, title, buckets; the first of the remote,
    exclusion, seniority and title rules that fails rejects with score 0,
    while a failing bucket rule rejects with the points gathered so far
    (35 or 43).  The title "Senior .NET Developer" is rejected by the
    exclusion rule with score 0 as soon as the remote rule passes, whatever
    the description says about years of experience. *)
Theorem rule_order :
  (forall (title : string) (description location : option string),
      emptyTitle title = false ->
      let r := computeMERNScore title description location in
      let remoteCheck := isRemoteJob title location description in
      let exclusion := isExcludedJob title (orEmpty description) in
      let senior := isSeniorRole title description in
      let titleMatch := find (fun p => test (fst p) title) MERN_TITLE_PATTERNS in
      (remote remoteCheck = false ->
       r = reject ["Not remote: " ++ remote_reason remoteCheck])
      /\ (remote remoteCheck = true -> excluded exclusion = true ->
          r = reject [excluded_reason exclusion])
      /\ (remote remoteCheck = true -> excluded exclusion = false -> senior = true ->
          r = reject [senior_reason])
      /\ (remote remoteCheck = true -> excluded exclusion = false -> senior = false ->
          titleMatch = None ->
          r = reject (no_title_reasons title))
      /\ (remote remoteCheck = true -> excluded exclusion = false -> senior = false ->
          titleMatch <> None ->
          forall d, deepDescription description = Some d ->
          (List.length (hits (descBucketChecks d)) < 2)%nat ->
          is_match r = false
          /\ match_score r
             = (if (List.length (hits (descBucketChecks d)) =? 0)%nat then 35 else 43)%Z))
  /\ (forall (description location : option string),
         remote (isRemoteJob "Senior .NET Developer" location description) = true ->
         computeMERNScore "Senior .NET Developer" description location
         = reject ["Title contains excluded tech: " ++ dquote ++ ".net developer" ++ dquote]).
Proof.
  split.
  - intros title description location Hne r remoteCheck exclusion senior titleMatch.
    subst r remoteCheck exclusion senior titleMatch.
    unfold emptyTitle in Hne. enter_cascade. rewrite Hne.
    destruct (remote (isRemoteJob title location description)); simpl negb; cbv iota.
    2:{ repeat split; intros; try discriminate; reflexivity. }
    destruct (excluded (isExcludedJob title (orEmpty description))).
    { repeat split; intros; try discriminate; reflexivity. }
    destruct (isSeniorRole title description).
    { repeat split; intros; try discriminate; reflexivity. }
    destruct (find _ MERN_TITLE_PATTERNS) as [titleMatch|].
    2:{ repeat split; intros; try discriminate; try reflexivity; congruence. }
    split; [intros; discriminate|]. split; [intros; discriminate|].
    split; [intros; discriminate|]. split; [intros; discriminate|].
    intros _ _ _ _ d Hdeep Hfew. rewrite Hdeep.
    pose proof Hfew as Hfew'. apply Nat.ltb_lt in Hfew'. rewrite Hfew'.
    split; [reflexivity|]. cbn [match_score].
    exact (floor_score _ Hfew).
  - intros description location Hremote.
    enter_cascade. rewrite Hremote. cbn [negb].
    replace (negb (truthy "Senior .NET Developer")
             || (String.length (trim "Senior .NET Developer") =? 0)%nat)
      with false by (vm_compute; reflexivity).
    unfold isExcludedJob. cbv zeta.
    replace (find (fun tech => includes (toLowerCase "Senior .NET Developer") tech)
               EXCLUDED_TECH)
      with (Some ".net developer") by (vm_compute; reflexivity).
    reflexivity.
Qed.

Lemma rule_order_witness :
  remote (isRemoteJob "Senior .NET Developer" (Some "Remote")
            (Some "6+ years experience")) = true
  /\ isSeniorRole "Senior .NET Developer" (Some "6+ years experience") = true
  /\ match_score (computeMERNScore "Senior .NET Developer"
                    (Some "6+ years experience") (Some "Remote")) = 0%Z.
Proof.
  split; [vm_compute; reflexivity|]. split; [vm_compute; reflexivity|].
  destruct rule_order as [_ H].
  rewrite (H (Some "6+ years experience") (Some "Remote")).
  - reflexivity.
  - vm_compute. reflexivity.
Defined.

(** C4, as stated, fails twice: a failing bucket rule does not give score
    0, and the scenario input without any remote wording is rejected by the
    remote rule, not by the exclusion rule. *)
Lemma rule_order_counterexample :
  let d := "We cook, we garden, we hike and we read many books in the sun." in
  let r := computeMERNScore "Full Stack Developer" (Some d) (Some "Remote") in
  let s := computeMERNScore "Senior .NET Developer" (Some "6+ years experience") None in
  (List.length (hits (descBucketChecks d)) < 2)%nat
  /\ is_match r = false
  /\ match_score r = 35%Z
  /\ match_score r <> 0%Z
  /\ reasons s = ["Not remote: No remote indication found"].
Proof.
  vm_compute. repeat split; try lia; discriminate.
Qed.

Lemma full_stack_not_excluded (description : string) :
  excluded (isExcludedJob "Full Stack Developer" description) = false.
Proof.
  unfold isExcludedJob. cbv zeta.
  generalize (includes (toLowerCase ("Full Stack Developer" ++ " " ++ description)) "node").
  intros b.
  replace (find (fun tech => includes (toLowerCase "Full Stack Developer") tech) EXCLUDED_TECH)
    with (@None string) by (vm_compute; reflexivity).
  replace (negb (includes (toLowerCase "Full Stack Developer") "full")
           && negb (includes (toLowerCase "Full Stack Developer") "mern"))
    with false by (vm_compute; reflexivity).
  replace (find (fun be => includes (toLowerCase "Full Stack Developer") be)
             EXCLUDED_BACKEND_ONLY)
    with (@None string) by (vm_compute; reflexivity).
  destruct b; reflexivity.
Qed.

Lemma full_stack_title :
  exists r, find (fun p => test (fst p) "Full Stack Developer") MERN_TITLE_PATTERNS
            = Some (r, "Full Stack Developer").
Proof.
  unfold MERN_TITLE_PATTERNS. cbn [find fst].
  lazymatch goal with
  | |- exists r, (if ?b then _ else _) = _ =>
      replace b with false by (vm_compute; reflexivity)
  end.
  lazymatch goal with
  | |- exists r, (if ?b then _ else _) = _ =>
      replace b with true by (vm_compute; reflexivity)
  end.
  eexists. reflexivity.
Qed.

Lemma deepDescription_long (d : string) :
  (50 < String.length d)%nat -> deepDescription (Some d) = Some d.
Proof.
  intros H. unfold deepDescription.
  assert (Ht : truthy d = true) by (destruct d; [simpl in H; lia | reflexivity]).
  apply Nat.ltb_lt in H. rewrite Ht, H. reflexivity.
Qed.

(** C5 (amended). For the title "Full Stack Developer", a job that passes
    the remote rule and a description longer than 50 characters that matches
    exactly the buckets React, Node.js, MongoDB and Express and does not ask
    for six or more years, the score is 65 plus 5 per preference signal, so
    65 when there is none, and the job is a match. *)
Theorem full_stack_four_buckets (d : string) (location : option string) :
  remote (isRemoteJob "Full Stack Developer" location (Some d)) = true ->
  (50 < String.length d)%nat ->
  isSeniorRole "Full Stack Developer" (Some d) = false ->
  hits (descBucketChecks d) = ["React"; "Node.js"; "MongoDB"; "Express"] ->
  let r := computeMERNScore "Full Stack Developer" (Some d) location in
  let k := List.length (preferenceSignals "Full Stack Developer" d) in
  match_score r = (65 + 5 * Z.of_nat k)%Z
  /\ is_match r = true
  /\ (k = 0%nat -> match_score r = 65%Z).
Proof.
  intros Hremote Hlong Hsenior Hhits r k.
  assert (Hscore : match_score r = (65 + 5 * Z.of_nat k)%Z
                   /\ is_match r = (65 <=? match_score r)%Z).
  { subst r k. enter_cascade.
    replace (negb (truthy "Full Stack Developer")
             || (String.length (trim "Full Stack Developer") =? 0)%nat)
      with false by (vm_compute; reflexivity).
    rewrite Hremote. cbn [negb].
    rewrite (full_stack_not_excluded (orEmpty (Some d))), Hsenior.
    destruct full_stack_title as [p ->].
    rewrite (deepDescription_long d Hlong), Hhits.
    cbn [List.length Nat.ltb Nat.leb].
    rewrite finalEvaluation_is_match, finalEvaluation_score.
    split; [|reflexivity].
    exact (deep_score_four _ (prefs_at_most_four _ _)). }
  destruct Hscore as [Hscore Hmatch].
  split; [exact Hscore|]. split.
  - rewrite Hmatch, Hscore. apply Z.leb_le. lia.
  - intros Hk. rewrite Hscore, Hk. reflexivity.
Qed.

Lemma full_stack_four_buckets_witness :
  let d := "We build web apps with React, Node.js, MongoDB and Express every day." in
  let r := computeMERNScore "Full Stack Developer" (Some d) (Some "Remote") in
  hits (descBucketChecks d) = ["React"; "Node.js"; "MongoDB"; "Express"]
  /\ match_score r = 65%Z /\ is_match r = true.
Proof.
  split; [vm_compute; reflexivity|].
  destruct (full_stack_four_buckets
              "We build web apps with React, Node.js, MongoDB and Express every day."
              (Some "Remote")) as (_ & Hm & H65).
  - vm_compute. reflexivity.
  - vm_compute. lia.
  - vm_compute. reflexivity.
  - vm_compute. reflexivity.
  - split; [apply H65; vm_compute; reflexivity | exact Hm].
Defined.

(** C5, as stated, fails on a description of at most 50 characters: the
    four buckets match, the bucket rule is skipped, the score is 35. *)
Lemma full_stack_four_buckets_counterexample :
  let d := "React, Node.js, MongoDB, Express" in
  let r := computeMERNScore "Full Stack Developer" (Some d) (Some "Remote") in
  remote (isRemoteJob "Full Stack Developer" (Some "Remote") (Some d)) = true
  /\ hits (descBucketChecks d) = ["React"; "Node.js"; "MongoDB"; "Express"]
  /\ match_score r = 35%Z
  /\ is_match r = false.
Proof.
  vm_compute. repeat split; reflexivity.
Qed.

(** C8 (amended). One more matched bucket never lowers the score when the
    other rule outcomes are unchanged and the description stays on the same
    side of the 50-character gate of the bucket rule. *)
Theorem one_more_bucket_monotone
        (title : string) (location description1 description2 : option string) :
  (deepDescription description1 = None <-> deepDescription description2 = None) ->
  remote (isRemoteJob title location description1)
  = remote (isRemoteJob title location description2) ->
  excluded (isExcludedJob title (orEmpty description1))
  = excluded (isExcludedJob title (orEmpty description2)) ->
  isSeniorRole title description1 = isSeniorRole title description2 ->
  preferenceSignals title (orEmpty description1)
  = preferenceSignals title (orEmpty description2) ->
  incl (hits (descBucketChecks (orEmpty description1)))
       (hits (descBucketChecks (orEmpty description2))) ->
  List.length (hits (descBucketChecks (orEmpty description2)))
  = S (List.length (hits (descBucketChecks (orEmpty description1)))) ->
  (match_score (computeMERNScore title description1 location)
   <= match_score (computeMERNScore title description2 location))%Z.
Proof.
  intros Hgate Hremote Hexcl Hsenior Hprefs _ Hmore.
  enter_cascade.
  destruct (negb (truthy title) || (String.length (trim title) =? 0)%nat);
    [reflexivity|].
  rewrite Hremote, Hexcl, Hsenior.
  destruct (negb (remote (isRemoteJob title location description2))); [reflexivity|].
  destruct (excluded (isExcludedJob title (orEmpty description2))); [reflexivity|].
  destruct (isSeniorRole title description2); [reflexivity|].
  destruct (find _ MERN_TITLE_PATTERNS) as [titleMatch|]; [|reflexivity].
  destruct (deepDescription description1) as [d1|] eqn:E1;
    destruct (deepDescription description2) as [d2|] eqn:E2.
  - apply deepDescription_some in E1 as [-> _].
    apply deepDescription_some in E2 as [-> _].
    simpl orEmpty in *.
    pose proof (hits_at_most_six d2) as H6.
    pose proof (prefs_at_most_four title d2) as H4.
    pose proof (deep_score_monotone (List.length (hits (descBucketChecks d1)))
                  (List.length (preferenceSignals title d2))) as Hmono.
    cbv zeta in Hmono. rewrite <- Hmore in Hmono.
    destruct (List.length (hits (descBucketChecks d1)) <? 2)%nat;
      destruct (List.length (hits (descBucketChecks d2)) <? 2)%nat;
      cbn [match_score]; repeat rewrite finalEvaluation_score;
      simpl orEmpty; rewrite ?Hprefs; apply Hmono; lia.
  - destruct Hgate as [_ Hgate]. specialize (Hgate eq_refl). discriminate.
  - destruct Hgate as [Hgate _]. specialize (Hgate eq_refl). discriminate.
  - repeat rewrite finalEvaluation_score. rewrite Hprefs. reflexivity.
Qed.

Lemma one_more_bucket_monotone_witness :
  let d1 := "We cook, we garden, we hike and we use React to build our web site." in
  let d2 := "We cook, we garden, we hike and we use React and Node to build sites." in
  (match_score (computeMERNScore "Full Stack Developer" (Some d1) (Some "Remote"))
   <= match_score (computeMERNScore "Full Stack Developer" (Some d2) (Some "Remote")))%Z.
Proof.
  apply one_more_bucket_monotone.
  - vm_compute. split; discriminate.
  - vm_compute. reflexivity.
  - vm_compute. reflexivity.
  - vm_compute. reflexivity.
  - vm_compute. reflexivity.
  - vm_compute. intros a [H|[]]. left. exact H.
  - vm_compute. reflexivity.
Defined.

(** C8, as stated, fails across the 50-character gate: appending text that
    brings in the first bucket makes the description long enough for the
    bucket rule, whose reject drops the preference bonus: 45 becomes 43. *)
Lemma one_more_bucket_counterexample :
  let title := "Full Stack Developer" in
  let location := Some "Remote" in
  let d1 := "saas startup" in
  let d2 := "saas startup, we build our product with react every day!" in
  remote (isRemoteJob title location (Some d1)) = remote (isRemoteJob title location (Some d2))
  /\ excluded (isExcludedJob title d1) = excluded (isExcludedJob title d2)
  /\ isSeniorRole title (Some d1) = isSeniorRole title (Some d2)
  /\ preferenceSignals title d1 = preferenceSignals title d2
  /\ hits (descBucketChecks d1) = []
  /\ hits (descBucketChecks d2) = ["React"]
  /\ match_score (computeMERNScore title (Some d1) location) = 45%Z
  /\ match_score (computeMERNScore title (Some d2) location) = 43%Z.
Proof.
  vm_compute. repeat split; reflexivity.
Qed.

End ClassifierTheorems.

(* ================================================================== *)
(** * Properties of the field resolver *)

Section FieldResolverTheorems.
Import JsString Regex FieldResolver.

Lemma existsb_false_at {A : Type} (f : A -> bool) (l : list A) (x : A) :
  existsb f l = false -> In x l -> f x = false.
Proof.
  intros H Hin. destruct (f x) eqn:E; [|reflexivity].
  assert (existsb f l = true) by (apply existsb_exists; exists x; auto).
  congruence.
Qed.

(** A label that is not skipped contains no skip keyword. *)
Lemma kept_label_has_no_keyword (label keyword : string) :
  isSkippableQuestion label = false ->
  In keyword questionSkipKeywords ->
  includes (toLowerCase label) keyword = false.
Proof.
  unfold isSkippableQuestion. cbv zeta.
  destruct (String.length (toLowerCase label) <? 4)%nat; [discriminate|].
  intros H Hin.
  exact (existsb_false_at (fun k => includes (toLowerCase label) k) _ _ H Hin).
Qed.

Ltac keyword_in := unfold questionSkipKeywords; simpl; tauto.

(** A filled field that reaches the numeric branch carries [finalNum]. *)
Lemma fillField_numeric current meta links raw v :
  fillField current meta links raw = Filled v ->
  isNumericQuestion (inputType meta) (toLowerCase (trim (label meta))) = true ->
  v = finalNum (toLowerCase (trim (label meta))) (extractNumericAnswer (sanitize raw)).
Proof.
  unfold fillField. cbv zeta.
  destruct (truthy (trim current)); [discriminate|].
  destruct (negb (truthy (trim (label meta)))); [discriminate|]. cbn [orb].
  destruct (isSkippableQuestion (trim (label meta))) eqn:Hskip; [discriminate|].
  rewrite (kept_label_has_no_keyword _ "linkedin" Hskip) by keyword_in.
  rewrite (kept_label_has_no_keyword _ "github" Hskip) by keyword_in.
  rewrite (kept_label_has_no_keyword _ "portfolio" Hskip) by keyword_in.
  rewrite (kept_label_has_no_keyword _ "website" Hskip) by keyword_in.
  cbn [orb].
  destruct (negb (truthy raw)); [discriminate|].
  destruct (negb (truthy (sanitize raw))); [discriminate|].
  intros H Hnum. rewrite Hnum in H. injection H as <-. reflexivity.
Qed.

(** The floor rules of the numeric branch, where the code keeps them: a
    field whose label carries a salary keyword is answered with the parsed
    number, and with "0" when none can be parsed; an experience question
    whose label carries no salary keyword is never answered "0", and is
    answered "1" when the parsed number is "0" or absent. *)
Lemma numeric_floor_rules current meta links raw v :
  let lowered := toLowerCase (trim (label meta)) in
  let numeric := extractNumericAnswer (sanitize raw) in
  fillField current meta links raw = Filled v ->
  isNumericQuestion (inputType meta) lowered = true ->
  (isSalary lowered = true ->
   v = or_else numeric "0" /\ (numeric = "" -> v = "0"))
  /\ (isSalary lowered = false -> isExperience lowered = true ->
      v <> "0" /\ (numeric = "0" \/ numeric = "" -> v = "1")).
Proof.
  intros lowered numeric Hfill Hnum.
  rewrite (fillField_numeric _ _ _ _ _ Hfill Hnum).
  fold lowered numeric. unfold finalNum.
  split.
  - intros ->. split; [reflexivity | intros ->; reflexivity].
  - intros -> ->.
    destruct (String.eqb numeric "0") eqn:E0.
    + split; [discriminate | reflexivity].
    + apply String.eqb_neq in E0.
      destruct numeric as [|a n].
      * split; [discriminate | reflexivity].
      * cbn. split; [exact E0|]. intros [H|H]; [contradiction | discriminate].
Qed.

Lemma numeric_floor_rules_witness :
  let meta := {| label := "Years of experience with React"; inputType := "text" |} in
  fillField "" meta noLinks "**0** years" = Filled "1"
  /\ "1" <> "0".
Proof.
  split; [vm_compute; reflexivity|].
  destruct (numeric_floor_rules ""
              {| label := "Years of experience with React"; inputType := "text" |}
              noLinks "**0** years" "1") as [_ H].
  - vm_compute. reflexivity.
  - vm_compute. reflexivity.
  - destruct H as [H _]; [vm_compute; reflexivity | vm_compute; reflexivity | exact H].
Defined.

(** C9. The floor of the experience questions is lost on a label that
    also holds a salary keyword as a substring: "Years of experience with
    payment gateways" is an experience question (it holds "years" and
    "experience") and mentions no salary, but [isSalary] finds "pay" inside
    "payment" and is tested first, so the answer "0" is typed as "0", where
    the same answer to "Years of experience with React" is typed as "1".
    The floor is moreover a comparison with the string "0": on the React
    question the answers "0.0", "00" and "-0" are typed unchanged. *)
Theorem experience_floor_misfires :
  let payment := {| label := "Years of experience with payment gateways";
                    inputType := "text" |} in
  let react := {| label := "Years of experience with React"; inputType := "text" |} in
  let lowered := toLowerCase (trim (label payment)) in
  isSkippableQuestion (trim (label payment)) = false
  /\ isNumericQuestion (inputType payment) lowered = true
  /\ includes lowered "years" = true
  /\ includes lowered "experience" = true
  /\ isExperience lowered = true
  /\ map (includes lowered) ["salary"; "ctc"; "compensation"; "pay"; "expected"]
     = [false; false; false; true; false]
  /\ isSalary lowered = true
  /\ extractNumericAnswer (sanitize "0") = "0"
  /\ fillField "" payment noLinks "0" = Filled "0"
  /\ fillField "" react noLinks "0" = Filled "1"
  /\ map (fillField "" react noLinks) ["0.0"; "00"; "-0"]
     = [Filled "0.0"; Filled "00"; Filled "-0"].
Proof.
  vm_compute. repeat split; reflexivity.
Qed.

End FieldResolverTheorems.

(* ================================================================== *)
(** * Properties of the form automation *)

Section FormLoopTheorems.
Import JsString FormLoop.

Variable autoSubmit : bool.

(** The action of each pass follows the priority Submit, Review, Next, Stall. *)
Lemma stepBody_priority (step : nat) (o : StepObs) :
  let a := fst (stepBody autoSubmit step o) in
  (submitFound o = true -> a = Submit)
  /\ (submitFound o = false -> reviewVisible o = true -> a = Review)
  /\ (submitFound o = false -> reviewVisible o = false -> nextVisible o = true -> a = Next)
  /\ (submitFound o = false -> reviewVisible o = false -> nextVisible o = false -> a = Stall).
Proof.
  unfold stepBody.
  destruct (submitFound o), (reviewVisible o), (nextVisible o);
    cbn; repeat split; intros; congruence.
Qed.

(** Only a visible submit affordance ends a pass with something else than
    MANUAL or a continuation. *)
Lemma stepBody_without_submit (step : nat) (o : StepObs) :
  submitFound o = false ->
  forall r, snd (stepBody autoSubmit step o) <> Return r.
Proof.
  unfold stepBody. intros -> r.
  destruct (reviewVisible o), (nextVisible o), (dismissVisible o), (timedOut o),
    (timedOutAfterWait o), ((2 <=? step)%nat && negb (anyButton o)); cbn; discriminate.
Qed.

Lemma firstn_seq_prefix (k n a : nat) :
  (k <= n)%nat -> firstn k (seq a n) = seq a k.
Proof.
  revert n a. induction k as [|k IH]; intros n a Hk; [reflexivity|].
  destruct n as [|n]; [lia|]. cbn. f_equal. apply IH. lia.
Qed.

Lemma stepLoop_trace (obs : nat -> StepObs) (steps : list nat) :
  let tr := fst (stepLoop autoSubmit obs steps) in
  (List.length tr <= List.length steps)%nat
  /\ tr = map (fun i => fst (stepBody autoSubmit i (obs i)))
            (firstn (List.length tr) steps).
Proof.
  induction steps as [|i rest IH]; [split; reflexivity|].
  cbn [stepLoop].
  destruct (stepBody autoSubmit i (obs i)) as [a flow] eqn:E.
  assert (Ha : a = fst (stepBody autoSubmit i (obs i))) by (rewrite E; reflexivity).
  destruct flow.
  - cbn. split; [lia | rewrite <- Ha; reflexivity].
  - destruct (stepLoop autoSubmit obs rest) as [tr r]. cbn in IH |- *.
    destruct IH as [IHl IHt]. split; [lia|]. rewrite <- Ha. f_equal. exact IHt.
  - cbn. split; [lia | rewrite <- Ha; reflexivity].
Qed.

Lemma stepLoop_without_submit (obs : nat -> StepObs) (steps : list nat) :
  (forall i, In i steps -> submitFound (obs i) = false) ->
  snd (stepLoop autoSubmit obs steps) = R_MANUAL.
Proof.
  induction steps as [|i rest IH]; intros Hno; [reflexivity|].
  cbn [stepLoop].
  pose proof (stepBody_without_submit i (obs i) (Hno i (or_introl eq_refl))) as Hret.
  destruct (stepBody autoSubmit i (obs i)) as [a flow]. cbn in Hret.
  destruct flow.
  - exfalso. exact (Hret r eq_refl).
  - specialize (IH (fun j Hj => Hno j (or_intror Hj))).
    destruct (stepLoop autoSubmit obs rest) as [tr r]. exact IH.
  - reflexivity.
Qed.



End FormLoopTheorems.

Section FormLoopWitnesses.
Import JsString FormLoop.


End FormLoopWitnesses.

(* ================================================================== *)
(** * The form loop and its awaited calls *)

Section FormCallsTheorems.
Import JsString FormLoop Engine FormCalls.

Lemma submit_probes (o : StepObs) :
  ((exists sel, In sel submitSelectors /\ submitVisible o sel = true) ->
   submitFound o = true)
  /\ ((forall sel, In sel submitSelectors -> submitVisible o sel = false) ->
      submitFound o = false).
Proof.
  unfold submitFound. split.
  - intros (sel & Hin & Hv). apply existsb_exists. exists sel. auto.
  - intros H. destruct (existsb (submitVisible o) submitSelectors) eqn:E; [|reflexivity].
    apply existsb_exists in E as (sel & Hin & Hv). rewrite (H sel Hin) in Hv. discriminate.
Qed.

Ltac crack_cond b :=
  first [ is_var b; destruct b
        | match b with
          | negb ?x => is_var x; destruct x
          | ?x && _ => crack_cond x
          | _ => destruct b eqn:?
          end ].

Ltac crack :=
  match goal with
  | |- context [if ?b then _ else _] => crack_cond b
  | H : context [if ?b then _ else _] |- _ => crack_cond b
  end.

Ltac cases_of_pass c :=
  unfold pass, completes;
  destruct c as [fi ar rf st sb rw pe rr nw sw pr];
  cbn [fills allRequiredFilled refills stops submits reviewWaits postReviewErrors
       reviewRefills nextWaits stallWaits probes];
  repeat (cbn in *;
          first [ discriminate | congruence | crack | intro | split
                | match goal with |- context [?x && _] => is_var x; destruct x end ]).

(** A pass that does not reach the decision has thrown. *)
Lemma pass_undecided (autoSubmit : bool) (step : nat) (o : StepObs) (c : Awaited) :
  fst (pass autoSubmit step o c) = None -> snd (pass autoSubmit step o c) = Throws.
Proof. cases_of_pass c. Qed.

(** The decision of a pass, on the flag of the submit loop. *)
Lemma pass_decision (autoSubmit : bool) (step : nat) (o : StepObs) (c : Awaited)
      (a : Action) :
  fst (pass autoSubmit step o c) = Some a ->
  (submitFound o = true -> a = Submit)
  /\ (submitFound o = false -> reviewVisible o = true -> a = Review)
  /\ (submitFound o = false -> reviewVisible o = false -> nextVisible o = true ->
      a = Next)
  /\ (submitFound o = false -> reviewVisible o = false -> nextVisible o = false ->
      a = Stall).
Proof.
  unfold pass.
  destruct (negb (fills c)); [discriminate|].
  destruct (negb (allRequiredFilled c) && (step <? MAX_STEPS - 1)%nat && negb (refills c));
    [discriminate|].
  destruct (submitFound o), (reviewVisible o), (nextVisible o); cbn [fst];
    intros H; injection H as <-; repeat split; intros; congruence.
Qed.

Lemma pass_without_submit (autoSubmit : bool) (step : nat) (o : StepObs) (c : Awaited) :
  submitFound o = false ->
  fst (pass autoSubmit step o c) <> Some Submit
  /\ forall r, snd (pass autoSubmit step o c) <> Returns r.
Proof. intros Hs. unfold pass. rewrite Hs. cases_of_pass c. Qed.

Lemma pass_throws (autoSubmit : bool) (step : nat) (o : StepObs) (c : Awaited) :
  snd (pass autoSubmit step o c) = Throws -> completes c = false.
Proof. cases_of_pass c. Qed.

Lemma taken_length (a : option Action) : (List.length (taken a) <= 1)%nat.
Proof. destruct a; cbn; lia. Qed.

Lemma passes_shape (autoSubmit : bool) (obs : nat -> StepObs) (calls : nat -> Awaited)
      (steps : list nat) :
  let run := passes autoSubmit obs calls steps in
  (List.length (fst run) <= List.length steps)%nat
  /\ ((forall i, In i steps -> submitFound (obs i) = false) ->
      (snd run = Returned R_MANUAL \/ snd run = Thrown) /\ ~ In Submit (fst run))
  /\ (snd run = Thrown -> exists i, In i steps /\ completes (calls i) = false).
Proof.
  induction steps as [|i rest (IH1 & IH2 & IH3)].
  { cbn. split; [lia|]. split; [intros _; split; [left; reflexivity | intros []]|].
    discriminate. }
  cbn [passes].
  pose proof (pass_without_submit autoSubmit i (obs i) (calls i)) as Hns.
  pose proof (pass_throws autoSubmit i (obs i) (calls i)) as Hth.
  destruct (pass autoSubmit i (obs i) (calls i)) as [a flow]. cbn [fst snd] in Hns, Hth.
  pose proof (taken_length a) as Hlen.
  assert (Htaken : submitFound (obs i) = false -> ~ In Submit (taken a)).
  { intros Hs Hin. destruct (Hns Hs) as [Hne _]. destruct a as [x|]; [|destruct Hin].
    destruct Hin as [ -> |[]]. apply Hne. reflexivity. }
  destruct flow.
  - cbn [fst snd List.length]. split; [lia|]. split; [|discriminate].
    intros Hno. exfalso. destruct (Hns (Hno i (or_introl eq_refl))) as [_ Hr].
    exact (Hr r eq_refl).
  - destruct (passes autoSubmit obs calls rest) as [tr r]. cbn [fst snd] in *.
    split; [rewrite length_app; cbn [List.length]; lia|]. split.
    + intros Hno. destruct (IH2 (fun j Hj => Hno j (or_intror Hj))) as [Hr Hin].
      split; [exact Hr|]. intros H. apply in_app_or in H as [H|H]; [|exact (Hin H)].
      exact (Htaken (Hno i (or_introl eq_refl)) H).
    + intros Hr. destruct (IH3 Hr) as (j & Hj & Hc). exists j. split; [right; exact Hj | exact Hc].
  - cbn [fst snd List.length]. split; [lia|]. split; [|discriminate].
    intros Hno. split; [left; reflexivity | exact (Htaken (Hno i (or_introl eq_refl)))].
  - cbn [fst snd List.length]. split; [lia|]. split.
    + intros Hno. split; [right; reflexivity | exact (Htaken (Hno i (or_introl eq_refl)))].
    + intros _. exists i. split; [left; reflexivity | exact (Hth eq_refl)].
Qed.

(** The actions recorded are the decisions of the leading steps, in order. *)
Lemma passes_trace (autoSubmit : bool) (obs : nat -> StepObs) (calls : nat -> Awaited)
      (steps : list nat) :
  let tr := fst (passes autoSubmit obs calls steps) in
  map Some tr
  = map (fun i => fst (pass autoSubmit i (obs i) (calls i)))
        (firstn (List.length tr) steps).
Proof.
  induction steps as [|i rest IH]; [reflexivity|].
  cbn [passes].
  pose proof (pass_undecided autoSubmit i (obs i) (calls i)) as Hun.
  destruct (pass autoSubmit i (obs i) (calls i)) as [a flow] eqn:E. cbn [fst snd] in Hun.
  destruct flow, a as [x|]; cbn [fst taken List.length firstn map app];
    try rewrite E; try reflexivity; try (specialize (Hun eq_refl); discriminate).
  destruct (passes autoSubmit obs calls rest) as [tr r]. cbn [fst] in IH |- *.
  cbn [app List.length firstn map]. rewrite E. cbn [fst]. f_equal. exact IH.
Qed.

(** When every awaited call completes, the passes are those of
    [FormLoop.stepLoop]. *)
Lemma pass_complete (autoSubmit : bool) (step : nat) (o : StepObs) (c : Awaited) :
  completes c = true ->
  pass autoSubmit step o c
  = (Some (fst (stepBody autoSubmit step o)), lift (snd (stepBody autoSubmit step o))).
Proof.
  unfold completes, pass, stepBody. intros H.
  destruct c as [f a rf st sb rw pe rr nw sw pr].
  cbn [fills allRequiredFilled refills stops submits reviewWaits postReviewErrors
       reviewRefills nextWaits stallWaits probes] in H |- *.
  destruct f, rf, st, sb, rw, rr, nw, sw, pr; try discriminate H. clear H.
  cbn [negb andb fst snd lift]. rewrite !andb_false_r.
  destruct (submitFound o); [destruct autoSubmit; reflexivity|].
  destruct (reviewVisible o); [reflexivity|].
  destruct (nextVisible o); [reflexivity|].
  cbn [fst snd].
  destruct (dismissVisible o); [reflexivity|].
  destruct (timedOut o); [reflexivity|].
  destruct (timedOutAfterWait o); [reflexivity|].
  destruct (2 <=? step)%nat; [|reflexivity].
  destruct (anyButton o); reflexivity.
Qed.

Lemma passes_complete (autoSubmit : bool) (obs : nat -> StepObs) (calls : nat -> Awaited)
      (steps : list nat) :
  (forall i, In i steps -> completes (calls i) = true) ->
  passes autoSubmit obs calls steps
  = (fst (stepLoop autoSubmit obs steps), Returned (snd (stepLoop autoSubmit obs steps))).
Proof.
  induction steps as [|i rest IH]; intros Hall; [reflexivity|].
  cbn [passes stepLoop].
  rewrite (pass_complete autoSubmit i (obs i) (calls i) (Hall i (or_introl eq_refl))).
  rewrite (IH (fun j Hj => Hall j (or_intror Hj))).
  destruct (stepBody autoSubmit i (obs i)) as [a flow]. cbn [fst snd lift taken].
  destruct flow; cbn; try reflexivity.
  destruct (stepLoop autoSubmit obs rest) as [tr r]. reflexivity.
Qed.

Lemma caught_failure (o : Oracle) :
  body o = Raises -> contextOk o = true -> processingOk o = true ->
  failedWriteOk o = true -> failedNotifyOk o = true -> failedPublishOk o = true ->
  throws (applyWithBrowser o) = false
  /\ writes (applyWithBrowser o) = [PROCESSING; FAILED].
Proof.
  destruct o as [c p b rw po ow n pu fw fn fp]. cbn.
  intros -> -> -> -> -> ->. split; reflexivity.
Qed.

(** C2. Every pass of the step loop that reaches the navigation decision
    picks its action by the priority Submit, Review, Next, Stall on the
    visibility probes of that pass; the loop makes at most MAX_STEPS = 7
    passes, over steps 0, 1, ... in order. A run in which no submit selector is visible in any of the seven
    steps returns MANUAL, which [applyWithBrowser] records as
    MANUAL_INTERVENTION, provided that no call the loop awaits without a
    handler rejects; when such a call rejects the loop throws instead, and
    the handler of [applyWithBrowser] records FAILED. *)
Theorem form_loop_stalls_to_manual
        (autoSubmit : bool) (obs : nat -> StepObs) (calls : nat -> Awaited) :
  let run := formLoop autoSubmit obs calls in
  let noSubmit :=
    forall step sel, (step < MAX_STEPS)%nat -> In sel submitSelectors ->
                     submitVisible (obs step) sel = false in
  (forall step o c a,
      fst (pass autoSubmit step o c) = Some a ->
      ((exists sel, In sel submitSelectors /\ submitVisible o sel = true) -> a = Submit)
      /\ ((forall sel, In sel submitSelectors -> submitVisible o sel = false) ->
          (reviewVisible o = true -> a = Review)
          /\ (reviewVisible o = false -> nextVisible o = true -> a = Next)
          /\ (reviewVisible o = false -> nextVisible o = false -> a = Stall)))
  /\ (forall step o c,
        fst (pass autoSubmit step o c) = None -> snd (pass autoSubmit step o c) = Throws)
  /\ (List.length (fst run) <= 7)%nat
  /\ map Some (fst run)
     = map (fun i => fst (pass autoSubmit i (obs i) (calls i)))
           (seq 0 (List.length (fst run)))
  /\ (noSubmit ->
      (snd run = Returned R_MANUAL \/ snd run = Thrown) /\ ~ In Submit (fst run))
  /\ (noSubmit ->
      (forall step, (step < MAX_STEPS)%nat -> completes (calls step) = true) ->
      snd run = Returned R_MANUAL
      /\ writes (applyWithBrowser (around (seen (snd run))))
         = [PROCESSING; MANUAL_INTERVENTION]
      /\ throws (applyWithBrowser (around (seen (snd run)))) = false)
  /\ (snd run = Thrown ->
      (exists step, (step < MAX_STEPS)%nat /\ completes (calls step) = false)
      /\ forall o : Oracle,
          body o = seen (snd run) -> contextOk o = true -> processingOk o = true ->
          failedWriteOk o = true -> failedNotifyOk o = true -> failedPublishOk o = true ->
          throws (applyWithBrowser o) = false
          /\ writes (applyWithBrowser o) = [PROCESSING; FAILED]).
Proof.
  intros run noSubmit.
  destruct (passes_shape autoSubmit obs calls (seq 0 MAX_STEPS)) as (H1 & H2 & H3).
  fold (formLoop autoSubmit obs calls) in H1, H2, H3. fold run in H1, H2, H3.
  rewrite length_seq in H1.
  assert (Hflag : noSubmit -> forall i, In i (seq 0 MAX_STEPS) -> submitFound (obs i) = false).
  { intros Hno i Hi. apply in_seq in Hi. apply submit_probes.
    intros sel Hsel. apply Hno; [lia | exact Hsel]. }
  assert (Hthrown : snd run = Thrown ->
                    exists step, (step < MAX_STEPS)%nat /\ completes (calls step) = false).
  { intros Hr. destruct (H3 Hr) as (i & Hi & Hc). apply in_seq in Hi.
    exists i. split; [lia | exact Hc]. }
  split.
  { intros step o c a Ha.
    destruct (pass_decision autoSubmit step o c a Ha) as (D1 & D2 & D3 & D4).
    destruct (submit_probes o) as [P1 P2].
    split; [intros Hex; exact (D1 (P1 Hex))|].
    intros Hno. specialize (P2 Hno). repeat split; auto. }
  split; [intros step o c; apply pass_undecided|].
  split; [exact H1|].
  split.
  { pose proof (passes_trace autoSubmit obs calls (seq 0 MAX_STEPS)) as Htr.
    cbv zeta in Htr. fold (formLoop autoSubmit obs calls) in Htr. fold run in Htr.
    rewrite (firstn_seq_prefix _ _ 0 H1) in Htr. exact Htr. }
  split; [intros Hno; exact (H2 (Hflag Hno))|].
  split.
  { intros Hno Hall.
    assert (Hr : snd run = Returned R_MANUAL).
    { destruct (H2 (Hflag Hno)) as [[Hr|Hr] _]; [exact Hr|].
      destruct (Hthrown Hr) as (i & Hi & Hc). rewrite (Hall i Hi) in Hc. discriminate. }
    rewrite Hr. repeat split; reflexivity. }
  intros Hr. split; [exact (Hthrown Hr)|].
  intros o Hb. rewrite Hr in Hb. apply caught_failure. exact Hb.
Qed.

Lemma form_loop_stalls_to_manual_witness :
  let run := formLoop true (fun _ => onlyNext) (fun _ => allComplete) in
  fst run = [Next; Next; Next; Next; Next; Next; Next]
  /\ snd run = Returned R_MANUAL
  /\ writes (applyWithBrowser (around (seen (snd run))))
     = [PROCESSING; MANUAL_INTERVENTION]
  /\ throws (applyWithBrowser (around (seen (snd run)))) = false.
Proof.
  split; [vm_compute; reflexivity|].
  destruct (form_loop_stalls_to_manual true (fun _ => onlyNext) (fun _ => allComplete))
    as (_ & _ & _ & _ & _ & H & _).
  apply H; intros; reflexivity.
Defined.

(** C2, as stated, fails on a run in which no submit affordance is ever
    visible and the first fill of the first pass rejects: the loop throws
    before any action, and the application is recorded as FAILED, not as
    MANUAL_INTERVENTION. *)
Lemma form_loop_stalls_to_manual_counterexample :
  let run := formLoop true (fun _ => onlyNext) (fun _ => fillRejects) in
  forallb (fun sel => negb (submitVisible onlyNext sel)) submitSelectors = true
  /\ run = ([], Thrown)
  /\ writes (applyWithBrowser (around (seen (snd run)))) = [PROCESSING; FAILED]
  /\ throws (applyWithBrowser (around (seen (snd run)))) = false.
Proof. vm_compute. repeat split; reflexivity. Qed.

End FormCallsTheorems.

(* ================================================================== *)
(** * Properties of the status writes *)

Section EngineTheorems.
Import JsString Engine.

Lemma forallb_nth_error {A : Type} (f : A -> bool) (l : list A) (n : nat) (x : A) :
  forallb f l = true -> nth_error l n = Some x -> f x = true.
Proof.
  intros H Hn. apply nth_error_In in Hn.
  rewrite forallb_forall in H. auto.
Qed.

Lemma state_eqb_eq (a b : ApplicationState) : state_eqb a b = true -> b = a.
Proof. destruct a, b; cbn; congruence. Qed.

Lemma only_failed_after_terminal_reflect (ws : Log) :
  only_failed_after_terminal_b ws = true -> only_failed_after_terminal ws.
Proof.
  unfold only_failed_after_terminal.
  induction ws as [|w ws IH]; intros Hb i j s t Hij Hi Hs Hj.
  - destruct i; discriminate.
  - cbn in Hb. apply andb_prop in Hb. destruct Hb as [Hhd Htl].
    destruct j as [|j]; [lia|]. cbn in Hj.
    destruct i as [|i].
    + cbn in Hi. injection Hi as ->. rewrite Hs in Hhd.
      apply (forallb_nth_error _ _ _ _ Hhd) in Hj. apply state_eqb_eq in Hj. exact Hj.
    + cbn in Hi. apply (IH Htl i j s t); auto. lia.
Qed.

Lemma terminal_kept_reflect (ws : Log) :
  terminal_kept_b ws = true -> terminal_kept ws.
Proof.
  unfold terminal_kept.
  induction ws as [|w ws IH]; intros Hb i j s t Hij Hi Hs Hj.
  - destruct i; discriminate.
  - cbn in Hb. apply andb_prop in Hb. destruct Hb as [Hhd Htl].
    destruct j as [|j]; [lia|]. cbn in Hj.
    destruct i as [|i].
    + cbn in Hi. injection Hi as ->. rewrite Hs in Hhd.
      apply (forallb_nth_error _ _ _ _ Hhd) in Hj. apply state_eqb_eq in Hj. exact Hj.
    + cbn in Hi. apply (IH Htl i j s t); auto. lia.
Qed.

(** Case analysis that follows the run: split on the next oracle answer the
    run depends on, and stop as soon as the writes are determined. *)
Ltac next_answer :=
  match goal with
  | |- context [if ?b then _ else _] => is_var b; destruct b
  | |- context [match ?b with Raises => _ | Rejected => _ | Finished _ => _ end] =>
      is_var b; destruct b
  | |- context [match ?r with R_APPLIED => _ | R_MANUAL => _ | R_FAILED => _ end] =>
      is_var r; destruct r
  end.

Ltac all_runs o :=
  destruct o as [c p b rw po ow n pu fw fn fp];
  cbv [writes applyWithBrowser directApply bind try_catch update call when ret
       isApplied isManual contextOk processingOk body rejectWriteOk posterOk
       outcomeWriteOk notifyOk publishOk failedWriteOk failedNotifyOk failedPublishOk
       statusOf];
  repeat (cbn; first [reflexivity | discriminate | next_answer | intro]).

Lemma applyWithBrowser_only_failed (o : Oracle) :
  only_failed_after_terminal_b (writes (applyWithBrowser o)) = true.
Proof. all_runs o. Qed.

Lemma directApply_only_failed (o : Oracle) :
  only_failed_after_terminal_b (writes (directApply o)) = true.
Proof. all_runs o. Qed.

Lemma applyWithBrowser_kept (o : Oracle) :
  notifyOk o = true -> publishOk o = true ->
  terminal_kept_b (writes (applyWithBrowser o)) = true.
Proof. all_runs o. Qed.

Lemma directApply_kept (o : Oracle) :
  notifyOk o = true -> posterOk o = true ->
  terminal_kept_b (writes (directApply o)) = true.
Proof. all_runs o. Qed.

(** C6 (amended). The status writes are unconditional.  Within one run of
    [applyWithBrowser], and of the direct-apply block of
    [runFullAutomation], every state written after a terminal state is
    FAILED: FAILED is never followed by another state, and APPLIED is
    overwritten, by FAILED only, when a step after the outcome write throws
    and the handler runs.  When the notification and the steps after it
    complete, a terminal state once written stays. *)
Theorem terminal_overwritten_only_by_failed (o : Oracle) :
  only_failed_after_terminal (writes (applyWithBrowser o))
  /\ only_failed_after_terminal (writes (directApply o))
  /\ (notifyOk o = true -> publishOk o = true ->
      terminal_kept (writes (applyWithBrowser o)))
  /\ (notifyOk o = true -> posterOk o = true ->
      terminal_kept (writes (directApply o))).
Proof.
  split; [|split; [|split]].
  - apply only_failed_after_terminal_reflect, applyWithBrowser_only_failed.
  - apply only_failed_after_terminal_reflect, directApply_only_failed.
  - intros Hn Hp. apply terminal_kept_reflect, applyWithBrowser_kept; assumption.
  - intros Hn Hp. apply terminal_kept_reflect, directApply_kept; assumption.
Qed.

Lemma terminal_overwritten_only_by_failed_witness :
  writes (applyWithBrowser smoothRun) = [PROCESSING; APPLIED]
  /\ terminal_kept (writes (applyWithBrowser smoothRun))
  /\ terminal_kept (writes (directApply smoothRun)).
Proof.
  split; [reflexivity|].
  destruct (terminal_overwritten_only_by_failed smoothRun) as (_ & _ & Ha & Hd).
  split; [apply Ha | apply Hd]; reflexivity.
Defined.

(** C6, as stated, fails: the outcome APPLIED is written, the status
    notification throws, and the handler writes FAILED over it. *)
Lemma terminal_state_overwritten :
  writes (applyWithBrowser notifyThrows) = [PROCESSING; APPLIED; FAILED]
  /\ writes (directApply notifyThrows) = [PROCESSING; APPLIED; FAILED]
  /\ ~ terminal_kept (writes (applyWithBrowser notifyThrows))
  /\ ~ terminal_kept (writes (directApply notifyThrows)).
Proof.
  split; [reflexivity|]. split; [reflexivity|].
  split; intros H;
    specialize (H 1%nat 2%nat APPLIED FAILED (Nat.lt_succ_diag_r 1) eq_refl eq_refl eq_refl);
    discriminate.
Qed.

End EngineTheorems.

(* ================================================================== *)
(** * The calls of the try block *)

Section ChannelFacts.
Import JsString Engine Dispatcher StreamInv.




Variable behaviour : nat -> Payload -> JobOracle.
Variable around : nat -> Payload -> Channel.Around.




Lemma run_quiet (turns : nat) (w : World) :
  Channel.run behaviour (fun _ _ => Channel.quiet) turns w = run behaviour turns w.
Proof.
  revert w. induction turns as [|k IH]; intros w; [reflexivity|].
  cbn [Channel.run run]. rewrite IH. reflexivity.
Qed.

End ChannelFacts.

(* ================================================================== *)
(** * Properties of the dispatcher *)

Section DispatcherTheorems.
Import JsString Engine Dispatcher.

Variable behaviour : nat -> Payload -> JobOracle.



Lemma run_idle (n : nat) (w : World) : stream w = [] -> run behaviour n w = w.
Proof.
  induction n as [|n IH]; intros H; [reflexivity|].
  cbn. unfold turn at 1. rewrite H. unfold turn in IH. apply IH. exact H.
Qed.

Lemma run_idle_stream (n : nat) (w : World) :
  stream w = [] -> stream (run behaviour n w) = [].
Proof. intros H. rewrite (run_idle n w H). exact H. Qed.


(** *** What one turn does to the rest of the world *)

Lemma handle_delivered (m : Message) (w : World) :
  delivered (handle behaviour m w)
  = (delivered w ++ match payloadField m with Some q => [q] | None => [] end)%list.
Proof.
  unfold handle. destruct (payloadField m) as [q|]; [|cbn; rewrite app_nil_r; reflexivity].
  destruct (processJob _ []) as [res ws]. destruct res; cbn; [reflexivity|].
  unfold onFailure. cbv zeta.
  destruct (attemptsOf q + 1 <? MAX_ATTEMPTS)%Z; reflexivity.
Qed.

Lemma handle_stream (m : Message) (w : World) :
  stream (handle behaviour m w) = stream w
  \/ exists q, payloadField m = Some q
               /\ (attemptsOf q + 1 < MAX_ATTEMPTS)%Z
               /\ stream (handle behaviour m w)
                  = push (stream w)
                      {| id := nextId w;
                         payloadField := Some (withAttempts q (attemptsOf q + 1)) |}.
Proof.
  unfold handle. destruct (payloadField m) as [q|]; [|left; reflexivity].
  destruct (processJob _ []) as [res ws]. destruct res; cbn; [left; reflexivity|].
  unfold onFailure. cbv zeta.
  destruct (attemptsOf q + 1 <? MAX_ATTEMPTS)%Z eqn:E; [|left; reflexivity].
  right. exists q. apply Z.ltb_lt in E. repeat split; auto.
Qed.





(** Every turn on a non-empty stream lowers the load. *)
Lemma turn_lowers_load (w : World) (m : Message) (rest : list Message) :
  stream w = m :: rest -> (load (turn behaviour w) < load w)%nat.
Proof.
  intros Hs. unfold turn, load. rewrite Hs.
  destruct (handle_stream m (pop rest w)) as [H|(q & Hq & Hlt & H)]; rewrite H;
    cbn [stream pop map list_sum fold_right].
  - unfold weight at 2, list_sum. destruct (payloadField m); lia.
  - unfold push. rewrite map_app, list_sum_app. cbn [map list_sum fold_right].
    unfold weight at 2 3. rewrite Hq. cbn [payloadField].
    unfold attemptsOf at 1. cbn [attempts withAttempts].
    unfold MAX_ATTEMPTS, list_sum in *. lia.
Qed.

Lemma run_drains (n : nat) (w : World) :
  (load w <= n)%nat -> stream (run behaviour n w) = [].
Proof.
  revert w. induction n as [|n IH]; intros w Hl.
  - cbn. unfold load in Hl. destruct (stream w) as [|m rest]; [reflexivity|].
    cbn [map list_sum fold_right] in Hl. unfold weight at 1 in Hl.
    destruct (payloadField m); lia.
  - cbn [run]. destruct (stream w) as [|m rest] eqn:Hs.
    + unfold turn. rewrite Hs. apply run_idle_stream. exact Hs.
    + apply IH. pose proof (turn_lowers_load w m rest Hs). lia.
Qed.

(** *** The retry invariant *)

Section AlwaysFailing.

Variable p : Payload.
Variable before : list Payload.
Hypothesis always_throws :
  forall k q, applicationId q = applicationId p ->
              throws (processJob (behaviour k q)) = true.






End AlwaysFailing.


(** *** When [processJob] throws, and when it does not *)






End DispatcherTheorems.

Section DispatcherWitnesses.
Import JsString Engine Dispatcher.



(** Across deliveries the same holds as within a run: the retry of a job
    whose first delivery already wrote FAILED writes PROCESSING over it. *)
Lemma redelivery_rewrites_processing :
  statuses (run handlerNotifyFails 2 (enqueueApplication sampleJob emptyWorld))
  = [ ("app-1", PROCESSING); ("app-1", PROCESSING); ("app-1", FAILED);
      ("app-1", PROCESSING); ("app-1", PROCESSING); ("app-1", FAILED) ].
Proof. reflexivity. Qed.

End DispatcherWitnesses.

(* ================================================================== *)
(** * Further properties of the classifier *)

Section ClassifierExtras.
Import JsString Regex Classifier Buckets.

Lemma evaluation_shape (title : string) (description location : option string) :
  let r := computeMERNScore title description location in
  (0 <= match_score r <= 100)%Z
  /\ is_match r = (65 <=? match_score r)%Z
  /\ reasons r <> [].
Proof.
  unfold computeMERNScore; cbv zeta.
  destruct (negb (truthy title) || (String.length (trim title) =? 0)%nat);
    [cbn; repeat split; try lia; discriminate|].
  destruct (negb (remote (isRemoteJob title location description)));
    [cbn; repeat split; try lia; discriminate|].
  destruct (excluded (isExcludedJob title (orEmpty description)));
    [cbn; repeat split; try lia; discriminate|].
  destruct (isSeniorRole title description); [cbn; repeat split; try lia; discriminate|].
  destruct (find _ MERN_TITLE_PATTERNS) as [titleMatch|];
    [|cbn; repeat split; try lia; discriminate].
  assert (final : forall d sc rs ms c n,
             (n <= 6)%nat -> sc = (0 + 35 + bucketScore n)%Q \/ sc = (0 + 35)%Q ->
             rs <> [] ->
             let r := finalEvaluation title d sc rs ms c in
             (0 <= match_score r <= 100)%Z
             /\ is_match r = (65 <=? match_score r)%Z
             /\ reasons r <> []).
  { intros d sc rs ms c n Hn Hsc Hrs r. subst r.
    rewrite finalEvaluation_is_match, finalEvaluation_score.
    pose proof (prefs_at_most_four title (orEmpty d)) as Hm.
    split; [|split; [reflexivity|]].
    - destruct Hsc as [-> | ->];
        destruct (List.length (preferenceSignals title (orEmpty d))) as [|[|[|[|[|m]]]]];
        try lia;
        try (destruct n as [|[|[|[|[|[|[|n]]]]]]]; try lia);
        vm_compute; split; discriminate.
    - unfold finalEvaluation.
      destruct (preferenceSignals title (orEmpty d)); cbn; [exact Hrs|].
      unfold push. intros H. apply app_eq_nil in H. destruct H; discriminate. }
  destruct (deepDescription description) as [d|] eqn:Edeep.
  - pose proof (hits_at_most_six d) as H6.
    destruct (List.length (hits (descBucketChecks d)) <? 2)%nat eqn:Efew.
    + apply Nat.ltb_lt in Efew. cbn [match_score is_match reasons].
      change (Qmin (count (hits (descBucketChecks d)) * (15 # 2)) 45)
        with (bucketScore (List.length (hits (descBucketChecks d)))).
      rewrite (floor_score _ Efew).
      split; [destruct (_ =? 0)%nat; lia|].
      split; [destruct (_ =? 0)%nat; reflexivity|].
      destruct (2 <=? _)%nat; unfold push; intros H; apply app_eq_nil in H;
        destruct H; discriminate.
    + apply (final description _ _ _ _ (List.length (hits (descBucketChecks d))) H6).
      * left. reflexivity.
      * destruct (2 <=? _)%nat; unfold push; intros H; apply app_eq_nil in H;
          destruct H; discriminate.
  - apply (final description _ _ _ _ 0%nat); [lia | right; reflexivity |].
    unfold push. intros H. apply app_eq_nil in H. destruct H; discriminate.
Qed.

(** X1. Every evaluation has a score between 0 and 100, is a match exactly when
    the score reaches 65, and carries at least one reason. *)
Theorem score_range_and_threshold (title : string) (description location : option string) :
  let r := computeMERNScore title description location in
  (0 <= match_score r <= 100)%Z
  /\ is_match r = (65 <=? match_score r)%Z
  /\ reasons r <> [].
Proof. exact (evaluation_shape title description location). Qed.

Lemma shallow_never_matches (title : string) (description location : option string) :
  deepDescription description = None ->
  is_match (computeMERNScore title description location) = false.
Proof.
  intros Edeep. unfold computeMERNScore; cbv zeta.
  destruct (negb (truthy title) || (String.length (trim title) =? 0)%nat);
    [reflexivity|].
  destruct (negb (remote (isRemoteJob title location description))); [reflexivity|].
  destruct (excluded (isExcludedJob title (orEmpty description))); [reflexivity|].
  destruct (isSeniorRole title description); [reflexivity|].
  destruct (find _ MERN_TITLE_PATTERNS) as [titleMatch|]; [|reflexivity].
  rewrite Edeep, finalEvaluation_is_match, finalEvaluation_score.
  pose proof (title_only_bound _ (prefs_at_most_four title (orEmpty description))).
  apply Z.leb_gt. lia.
Qed.

(** X2. A match has passed every rule: a non-empty title, the remote, exclusion
    and seniority rules, a title pattern, and a description longer than 50
    characters with at least two buckets; its confidence is not low and
    its missing skills are the buckets the description does not mention. *)
Theorem match_is_sound (title : string) (description location : option string) :
  let r := computeMERNScore title description location in
  is_match r = true ->
  emptyTitle title = false
  /\ remote (isRemoteJob title location description) = true
  /\ excluded (isExcludedJob title (orEmpty description)) = false
  /\ isSeniorRole title description = false
  /\ find (fun p => test (fst p) title) MERN_TITLE_PATTERNS <> None
  /\ exists d, description = Some d
               /\ (50 < String.length d)%nat
               /\ (2 <= List.length (hits (descBucketChecks d)))%nat
               /\ missing_skills r = misses (descBucketChecks d)
               /\ confidence r <> Low.
Proof.
  unfold emptyTitle, computeMERNScore; cbv zeta.
  destruct (negb (truthy title) || (String.length (trim title) =? 0)%nat);
    [discriminate|].
  destruct (remote (isRemoteJob title location description)); [|discriminate].
  cbn [negb].
  destruct (excluded (isExcludedJob title (orEmpty description))); [discriminate|].
  destruct (isSeniorRole title description); [discriminate|].
  destruct (find _ MERN_TITLE_PATTERNS) as [titleMatch|]; [|discriminate].
  destruct (deepDescription description) as [d|] eqn:Edeep.
  - apply deepDescription_some in Edeep as [-> Hlong].
    destruct (List.length (hits (descBucketChecks d)) <? 2)%nat eqn:Efew; [discriminate|].
    apply Nat.ltb_ge in Efew. intros _.
    repeat split; try reflexivity; try discriminate.
    exists d. repeat split; auto.
    + apply finalEvaluation_missing.
    + unfold finalEvaluation.
      destruct (preferenceSignals title (orEmpty (Some d))); cbn [confidence];
        unfold confidenceOf;
        destruct (4 <=? List.length (hits (descBucketChecks d)))%nat; try discriminate;
        apply Nat.leb_le in Efew; rewrite Efew; discriminate.
  - rewrite finalEvaluation_is_match, finalEvaluation_score. intros H.
    apply Z.leb_le in H.
    pose proof (title_only_bound _ (prefs_at_most_four title (orEmpty description))).
    lia.
Qed.

Lemma match_is_sound_witness :
  let d := "We build web apps with React, Node.js, MongoDB and Express every day." in
  is_match (computeMERNScore "Full Stack Developer" (Some d) (Some "Remote")) = true
  /\ remote (isRemoteJob "Full Stack Developer" (Some "Remote") (Some d)) = true.
Proof.
  split; [vm_compute; reflexivity|].
  destruct (match_is_sound "Full Stack Developer"
              (Some "We build web apps with React, Node.js, MongoDB and Express every day.")
              (Some "Remote")) as (_ & H & _).
  - vm_compute. reflexivity.
  - exact H.
Defined.

(** X3. [validateMERNJob] passes exactly the matches, hands the evaluation back,
    and when it fails its reason is the first reason of the evaluation: the
    fallback text is never used. *)
Theorem validation_reports_first_reason
        (title : string) (description location : option string) :
  let r := computeMERNScore title description location in
  let v := validateMERNJob title description location in
  pass v = is_match r
  /\ score v = r
  /\ (pass v = false -> List.head (reasons r) = Some (reason v)).
Proof.
  intros r v. subst v. unfold validateMERNJob. cbv zeta. fold r.
  destruct (evaluation_shape title description location) as (_ & _ & Hne).
  fold r in Hne.
  destruct (is_match r); cbn; repeat split; try discriminate.
  intros _. destruct (reasons r); [contradiction | reflexivity].
Qed.

Lemma check_permutation (b : bool) (l : string) (acc : BucketChecks) (seen : list string) :
  Permutation (hits acc ++ misses acc)%list seen ->
  Permutation (hits (check b l acc) ++ misses (check b l acc))%list
                          (seen ++ [l])%list.
Proof.
  intros H. destruct b; cbn; unfold push.
  - rewrite <- app_assoc.
    eapply Permutation_trans;
      [apply Permutation_app_head, Permutation_app_comm|].
    rewrite app_assoc. apply Permutation_app_tail. exact H.
  - rewrite app_assoc. apply Permutation_app_tail. exact H.
Qed.

(** X4. The bucket check sorts the six technology labels into hits and misses:
    together they are the six labels, each exactly once. *)
Theorem buckets_partition (d : string) :
  let bc := descBucketChecks d in
  Permutation (hits bc ++ misses bc)%list sixBuckets
  /\ (List.length (hits bc) + List.length (misses bc) = 6)%nat
  /\ (forall l, In l (hits bc) -> ~ In l (misses bc)).
Proof.
  intros bc.
  assert (P : Permutation (hits bc ++ misses bc)%list sixBuckets).
  { subst bc. unfold descBucketChecks. cbv zeta.
    change sixBuckets
      with (((((([] ++ ["React"]) ++ ["Node.js"]) ++ ["MongoDB"]) ++ ["Express"])
              ++ ["REST API"]) ++ ["JavaScript"])%list.
    repeat apply check_permutation. cbn. constructor. }
  split; [exact P|]. split.
  - rewrite <- length_app. rewrite (Permutation_length P). reflexivity.
  - intros l Hh Hm.
    assert (N : NoDup (hits bc ++ misses bc)%list).
    { apply (Permutation_NoDup (Permutation_sym P)).
      unfold sixBuckets.
      repeat (constructor; [cbn; intuition discriminate|]). constructor. }
    apply in_split in Hh. destruct Hh as (l1 & l2 & Hh). rewrite Hh in N.
    rewrite <- app_assoc in N. cbn in N. apply NoDup_remove_2 in N.
    apply N. rewrite app_assoc. apply in_or_app. right. exact Hm.
Qed.

(** X5. The remote verdict is exactly: a remote signal in the text and no
    onsite signal.  The location only chooses the reason of a reject. *)
Theorem remote_verdict (title : string) (location description : option string) :
  let text := toLowerCase (title ++ " " ++ orEmpty location ++ " " ++ orEmpty description) in
  let c := isRemoteJob title location description in
  remote c = test remote_signals text && negb (test onsite_signals text)
  /\ (remote c = true -> remote_reason c = "Fully remote")
  /\ (test onsite_signals text = true -> remote_reason c = "Job is onsite or hybrid").
Proof.
  intros text c. subst c. unfold isRemoteJob. cbv zeta. fold text.
  destruct (test onsite_signals text), (test remote_signals text);
    cbn; repeat split; try discriminate; try reflexivity;
    destruct location as [l|]; cbn; try destruct (truthy l); cbn;
    try destruct (negb (includes (toLowerCase l) "remote")
                  && negb (includes (toLowerCase l) "anywhere")
                  && negb (includes (toLowerCase l) "worldwide"));
    cbn; try reflexivity; try discriminate; intros; try discriminate; reflexivity.
Qed.

End ClassifierExtras.

(* ================================================================== *)
(** * Further properties of the field resolver *)

Section FieldResolverExtras.
Import JsString Regex FieldResolver.

Ltac skip_keyword := unfold questionSkipKeywords; simpl; tauto.

Lemma fillField_without_links current meta userProfile rawAnswer :
  fillField current meta userProfile rawAnswer = fillField current meta noLinks rawAnswer.
Proof.
  unfold fillField. cbv zeta.
  destruct (truthy (trim current)); [reflexivity|].
  destruct (negb (truthy (trim (label meta)))); [reflexivity|]. cbn [orb].
  destruct (isSkippableQuestion (trim (label meta))) eqn:Hskip; [reflexivity|].
  rewrite (kept_label_has_no_keyword _ "linkedin" Hskip) by skip_keyword.
  rewrite (kept_label_has_no_keyword _ "github" Hskip) by skip_keyword.
  rewrite (kept_label_has_no_keyword _ "portfolio" Hskip) by skip_keyword.
  rewrite (kept_label_has_no_keyword _ "website" Hskip) by skip_keyword.
  reflexivity.
Qed.

(** X6. The profile links never reach a field: every label for which
    [fillAIQuestions] would use the LinkedIn, GitHub or website link is
    already skipped by [isSkippableQuestion]. *)
Theorem profile_links_unused current meta userProfile rawAnswer :
  fillField current meta userProfile rawAnswer = fillField current meta noLinks rawAnswer.
Proof. exact (fillField_without_links current meta userProfile rawAnswer). Qed.

Lemma substring_length_le (n : nat) (s : string) :
  (String.length (String.substring 0 n s) <= n)%nat.
Proof.
  revert s. induction n as [|n IH]; intros [|a s]; cbn; try lia.
  specialize (IH s). lia.
Qed.

Lemma finalNum_not_empty (lowered numeric : string) : finalNum lowered numeric <> "".
Proof.
  unfold finalNum, or_else.
  destruct (isSalary lowered); [destruct numeric; cbn; discriminate|].
  destruct (isExperience lowered).
  - destruct (String.eqb numeric "0"); cbn; [discriminate|].
    destruct numeric; cbn; discriminate.
  - destruct numeric; cbn; discriminate.
Qed.

(** X7. A field is only filled when it is empty and its label is a kept
    question; the value written is never empty; outside the numeric branch
    it is the sanitised answer cut to 200 characters. *)
Theorem filled_value_shape current meta userProfile rawAnswer v :
  fillField current meta userProfile rawAnswer = Filled v ->
  trim current = ""
  /\ isSkippableQuestion (trim (label meta)) = false
  /\ v <> ""
  /\ (isNumericQuestion (inputType meta) (toLowerCase (trim (label meta))) = false ->
      v = slice0 200 (sanitize rawAnswer) /\ (String.length v <= 200)%nat).
Proof.
  rewrite fillField_without_links. unfold fillField. cbv zeta.
  destruct (trim current) eqn:Ec; [|discriminate]. cbn [truthy].
  destruct (negb (truthy (trim (label meta)))); [discriminate|]. cbn [orb].
  destruct (isSkippableQuestion (trim (label meta))) eqn:Hskip; [discriminate|].
  cbn [linkedin github website noLinks given].
  repeat match goal with
         | |- context [if ?b then @None string else None] =>
             replace (if b then @None string else None) with (@None string)
               by (destruct b; reflexivity)
         end.
  destruct (negb (truthy rawAnswer)); [discriminate|].
  destruct (sanitize rawAnswer) as [|a answer] eqn:Ea; [discriminate|]. cbn [truthy negb].
  destruct (isNumericQuestion (inputType meta) (toLowerCase (trim (label meta)))).
  - intros H. injection H as <-.
    split; [reflexivity|]. split; [reflexivity|].
    split; [apply finalNum_not_empty | discriminate].
  - intros H. injection H as <-.
    split; [reflexivity|]. split; [reflexivity|].
    split; [cbn; discriminate|].
    intros _. split; [reflexivity | apply substring_length_le].
Qed.

Lemma filled_value_shape_witness :
  let meta := {| label := "Why do you want this job?"; inputType := "text" |} in
  fillField "" meta noLinks "I enjoy **building** products." = Filled "I enjoy building products."
  /\ "I enjoy building products." <> "".
Proof.
  split; [vm_compute; reflexivity|].
  destruct (filled_value_shape "" {| label := "Why do you want this job?"; inputType := "text" |}
              noLinks "I enjoy **building** products." "I enjoy building products.")
    as (_ & _ & H & _).
  - vm_compute. reflexivity.
  - exact H.
Defined.

End FieldResolverExtras.

(* ================================================================== *)
(** * Further properties of the form automation *)

Section FormLoopExtras.
Import JsString FormLoop Samples.

Lemma find_first {A : Type} (f : A -> bool) (l : list A) (x : A) :
  find f l = Some x ->
  exists pre post, l = (pre ++ x :: post)%list /\ f x = true
                   /\ forall y, In y pre -> f y = false.
Proof.
  induction l as [|a l IH]; [discriminate|]. cbn.
  destruct (f a) eqn:E.
  - intros H. injection H as <-. exists [], l. repeat split; auto. intros y [].
  - intros H. destruct (IH H) as (pre & post & -> & Hx & Hpre).
    exists (a :: pre), post. repeat split; auto.
    intros y [<-|Hy]; auto.
Qed.

(** X8. The entry action is the first selector, in the order of the list, whose
    element is visible and is not a link to a job card: no earlier selector
    qualifies, and a link to similar jobs or to a collection is never taken. *)
Theorem easy_apply_first_match (locate : string -> Candidate) (sel : string) :
  findEasyApply locate = Some sel ->
  exists pre post,
    easyApplySelectors = (pre ++ sel :: post)%list
    /\ visible (locate sel) = true
    /\ isJobCardLink (locate sel) = false
    /\ forall s, In s pre ->
                 visible (locate s) = false \/ isJobCardLink (locate s) = true.
Proof.
  unfold findEasyApply. intros H.
  destruct (find_first _ _ _ H) as (pre & post & Hl & Hx & Hpre).
  exists pre, post. apply andb_prop in Hx. destruct Hx as [Hv Hj].
  apply negb_true_iff in Hj. repeat split; auto.
  intros s Hs. specialize (Hpre s Hs). cbn beta in Hpre.
  destruct (visible (locate s)); [|auto].
  destruct (isJobCardLink (locate s)); [auto|discriminate].
Qed.

Lemma easy_apply_first_match_witness :
  findEasyApply cardsAndButton = Some "button.jobs-apply-button"
  /\ visible (cardsAndButton "button.jobs-apply-button") = true
  /\ isJobCardLink (cardsAndButton "button.jobs-apply-button") = false.
Proof.
  split; [vm_compute; reflexivity|].
  destruct (easy_apply_first_match cardsAndButton "button.jobs-apply-button")
    as (pre & post & _ & Hv & Hj & _); [vm_compute; reflexivity|].
  split; assumption.
Defined.



End FormLoopExtras.

Section IndeedExtras.
Import JsString FormLoop.





End IndeedExtras.

(* ================================================================== *)
(** * Further properties of the status writes *)

Section EngineExtras.
Import JsString Engine StatusLog.

Ltac next_oracle_answer :=
  match goal with
  | |- context [if ?b then _ else _] => is_var b; destruct b
  | |- context [match ?b with Raises => _ | Rejected => _ | Finished _ => _ end] =>
      is_var b; destruct b
  | |- context [match ?r with R_APPLIED => _ | R_MANUAL => _ | R_FAILED => _ end] =>
      is_var r; destruct r
  end.

Ltac explore o :=
  destruct o as [c p b rw po ow n pu fw fn fp];
  cbv [writes throws applyWithBrowser directApply processJob bind try_catch update call
       when ret isApplied isManual contextOk processingOk body rejectWriteOk posterOk
       outcomeWriteOk notifyOk publishOk failedWriteOk failedNotifyOk failedPublishOk
       statusOf firstWriteOk browser];
  repeat (cbn; first [reflexivity | discriminate | next_oracle_answer | intro]).

Lemma applyWithBrowser_absorbs (o : Oracle) :
  contextOk o = true -> failedWriteOk o = true -> failedNotifyOk o = true ->
  failedPublishOk o = true ->
  throws (applyWithBrowser o) = false.
Proof. explore o. Qed.

Lemma applyWithBrowser_settles (o : Oracle) :
  throws (applyWithBrowser o) = false -> endsSettled (writes (applyWithBrowser o)) = true.
Proof. explore o. Qed.

Lemma directApply_settles (o : Oracle) :
  throws (directApply o) = false -> endsSettled (writes (directApply o)) = true.
Proof. explore o. Qed.

Lemma processJob_settles (f : bool) (o : Oracle) (e : option string) :
  throws (processJob {| firstWriteOk := f; browser := o; errorMessage := e |}) = false ->
  endsSettled (writes (processJob {| firstWriteOk := f; browser := o;
                                     errorMessage := e |})) = true.
Proof. destruct f; explore o. Qed.

(** X12. Every error raised inside the [try] block of [applyWithBrowser] is
    absorbed by its handler: when the browser context is obtained and the
    three steps of the handler complete, the function returns normally.
    And whenever [applyWithBrowser], the direct-apply block or [processJob]
    returns normally, the application is left in an outcome state, APPLIED,
    FAILED or MANUAL_INTERVENTION, never in PROCESSING. *)
Theorem normal_return_settles (j : JobOracle) :
  let o := browser j in
  (contextOk o = true -> failedWriteOk o = true -> failedNotifyOk o = true ->
   failedPublishOk o = true -> throws (applyWithBrowser o) = false)
  /\ (throws (applyWithBrowser o) = false ->
      endsSettled (writes (applyWithBrowser o)) = true)
  /\ (throws (directApply o) = false -> endsSettled (writes (directApply o)) = true)
  /\ (throws (processJob j) = false -> endsSettled (writes (processJob j)) = true).
Proof.
  intros o. split; [apply applyWithBrowser_absorbs|].
  split; [apply applyWithBrowser_settles|]. split; [apply directApply_settles|].
  destruct j as [f o' e]. apply processJob_settles.
Qed.

Lemma normal_return_settles_witness :
  throws (applyWithBrowser notifyThrows) = false
  /\ lastWrite (writes (applyWithBrowser notifyThrows)) = Some FAILED.
Proof.
  destruct (normal_return_settles
              {| firstWriteOk := true; browser := notifyThrows; errorMessage := None |})
    as (H & _).
  split; [apply H; reflexivity | reflexivity].
Defined.

Lemma applyWithBrowser_applied (o : Oracle) :
  wrote APPLIED (writes (applyWithBrowser o)) = true ->
  body o = Finished R_APPLIED /\ outcomeWriteOk o = true /\ posterOk o = true.
Proof. explore o; repeat split; reflexivity. Qed.

Lemma directApply_applied (o : Oracle) :
  wrote APPLIED (writes (directApply o)) = true ->
  body o = Finished R_APPLIED /\ outcomeWriteOk o = true.
Proof. explore o; repeat split; reflexivity. Qed.

Lemma applyWithBrowser_manual (o : Oracle) :
  wrote MANUAL_INTERVENTION (writes (applyWithBrowser o)) = true ->
  body o = Finished R_MANUAL /\ outcomeWriteOk o = true.
Proof. explore o; repeat split; reflexivity. Qed.

Lemma applyWithBrowser_applied_once (o : Oracle) :
  (count_occ (fun a b : ApplicationState => ltac:(decide equality) : {a = b} + {a <> b})
             (writes (applyWithBrowser o)) APPLIED <= 1)%nat.
Proof. explore o; cbn; lia. Qed.

(** X13. APPLIED is recorded only when the platform flow returned APPLIED (in
    [applyWithBrowser]: and the messaging of the job poster that precedes
    the write did not throw), MANUAL_INTERVENTION only when it returned
    MANUAL; and a run records APPLIED at most once. *)
Theorem applied_only_when_flow_applied (o : Oracle) :
  (wrote APPLIED (writes (applyWithBrowser o)) = true ->
   body o = Finished R_APPLIED /\ outcomeWriteOk o = true /\ posterOk o = true)
  /\ (wrote APPLIED (writes (directApply o)) = true ->
      body o = Finished R_APPLIED /\ outcomeWriteOk o = true)
  /\ (wrote MANUAL_INTERVENTION (writes (applyWithBrowser o)) = true ->
      body o = Finished R_MANUAL /\ outcomeWriteOk o = true)
  /\ (count_occ (fun a b : ApplicationState => ltac:(decide equality) : {a = b} + {a <> b})
                (writes (applyWithBrowser o)) APPLIED <= 1)%nat.
Proof.
  split; [apply applyWithBrowser_applied|]. split; [apply directApply_applied|].
  split; [apply applyWithBrowser_manual | apply applyWithBrowser_applied_once].
Qed.

Lemma applied_only_when_flow_applied_witness :
  wrote APPLIED (writes (applyWithBrowser smoothRun)) = true
  /\ body smoothRun = Finished R_APPLIED.
Proof.
  split; [reflexivity|].
  destruct (applied_only_when_flow_applied smoothRun) as (H & _).
  destruct (H eq_refl) as (Hb & _). exact Hb.
Defined.

End EngineExtras.

(* ================================================================== *)
(** * Further properties of the consumer loop *)

Section DispatcherExtras.
Import JsString Engine Dispatcher StatusLog StreamInv.

Variable behaviour : nat -> Payload -> JobOracle.









Lemma turn_budget (w : World) :
  (List.length (delivered (turn behaviour w)) + load (turn behaviour w)
   <= List.length (delivered w) + load w)%nat.
Proof.
  destruct (stream w) as [|m rest] eqn:Hs.
  - unfold turn. rewrite Hs. lia.
  - pose proof (turn_lowers_load behaviour w m rest Hs) as Hl.
    unfold turn in *. rewrite Hs in *. rewrite handle_delivered, length_app.
    cbn [delivered pop]. destruct (payloadField m); cbn [List.length]; lia.
Qed.

Lemma run_budget (n : nat) (w : World) :
  (List.length (delivered (run behaviour n w)) + load (run behaviour n w)
   <= List.length (delivered w) + load w)%nat.
Proof.
  revert w. induction n as [|n IH]; intros w; [cbn; lia|].
  cbn [run]. pose proof (IH (turn behaviour w)). pose proof (turn_budget w). lia.
Qed.

Lemma inRange_weight (m : Message) : inRange m -> (weight m <= 3)%nat.
Proof.
  unfold inRange, weight, MAX_ATTEMPTS. destruct (payloadField m); intros; lia.
Qed.

Lemma inRange_load (l : list Message) :
  Forall inRange l -> (list_sum (map weight l) <= 3 * List.length l)%nat.
Proof.
  induction 1 as [|m l Hm _ IH]; [cbn; lia|].
  cbn [map list_sum fold_right List.length]. pose proof (inRange_weight m Hm).
  unfold list_sum in IH. lia.
Qed.

Lemma inRange_turn (w : World) :
  Forall inRange (stream w) -> Forall inRange (stream (turn behaviour w)).
Proof.
  unfold turn. destruct (stream w) as [|m rest] eqn:Hs; [rewrite Hs; auto|].
  intros H. inversion H as [|? ? Hm Hrest]; subst.
  destruct (handle_stream behaviour m (pop rest w)) as [H1|(q & Hq & Hlt & H1)];
    rewrite H1; cbn [stream pop]; [exact Hrest|].
  unfold push. apply Forall_app. split; [exact Hrest|].
  constructor; [|constructor].
  unfold inRange in *. cbn [payloadField]. rewrite Hq in Hm.
  change (attemptsOf (withAttempts q (attemptsOf q + 1))) with (attemptsOf q + 1)%Z.
  unfold MAX_ATTEMPTS in *. lia.
Qed.

Lemma inRange_run (n : nat) (w : World) :
  Forall inRange (stream w) -> Forall inRange (stream (run behaviour n w)).
Proof.
  revert w. induction n as [|n IH]; intros w H; [exact H|].
  cbn [run]. apply IH, inRange_turn, H.
Qed.

Lemma delivered_turn_inRange (w : World) (q : Payload) :
  Forall inRange (stream w) -> In q (delivered (turn behaviour w)) ->
  In q (delivered w) \/ (0 <= attemptsOf q < MAX_ATTEMPTS)%Z.
Proof.
  unfold turn. destruct (stream w) as [|m rest] eqn:Hs; [auto|].
  intros H. inversion H as [|? ? Hm _]; subst.
  rewrite handle_delivered. cbn [delivered pop]. intros Hq.
  apply in_app_or in Hq. destruct Hq as [Hq|Hq]; [left; exact Hq|].
  unfold inRange in Hm. destruct (payloadField m) as [q'|]; [|destruct Hq].
  destruct Hq as [<-|[]]. right. exact Hm.
Qed.

Lemma delivered_run_inRange (n : nat) (w : World) (q : Payload) :
  Forall inRange (stream w) -> In q (delivered (run behaviour n w)) ->
  In q (delivered w) \/ (0 <= attemptsOf q < MAX_ATTEMPTS)%Z.
Proof.
  revert w. induction n as [|n IH]; intros w H Hq; [left; exact Hq|].
  cbn [run] in Hq. destruct (IH _ (inRange_turn w H) Hq) as [Hd|Hr]; [|right; exact Hr].
  apply (delivered_turn_inRange w q H Hd).
Qed.

(** X15. The loop does a bounded amount of work on any stream, whatever the jobs
    do: when every waiting entry carries an attempts counter of 0, 1 or 2
    (the ones [enqueueApplication] and the retry branch write), a stream of
    k entries causes at most 3k calls of [processJob] however long the loop
    runs, the stream is empty after 3k turns, the counter of every entry
    still waiting stays in that range, and [processJob] is never called with
    a counter of 3 or more. *)
Theorem work_is_bounded (n : nat) (w : World) :
  Forall inRange (stream w) ->
  let k := List.length (stream w) in
  let w' := run behaviour n w in
  (List.length (delivered w') <= List.length (delivered w) + 3 * k)%nat
  /\ ((3 * k <= n)%nat -> stream w' = [])
  /\ Forall inRange (stream w')
  /\ (forall q, In q (delivered w') ->
                In q (delivered w) \/ (0 <= attemptsOf q < MAX_ATTEMPTS)%Z).
Proof.
  intros H k w'. pose proof (inRange_load _ H) as Hl. fold (load w) in Hl. fold k in Hl.
  split; [|split; [|split]].
  - pose proof (run_budget n w). fold w' in H0. lia.
  - intros Hn. apply run_drains. lia.
  - apply inRange_run, H.
  - intros q. apply delivered_run_inRange, H.
Qed.


End DispatcherExtras.

Section DispatcherExtrasWitnesses.
Import JsString Engine Dispatcher StatusLog StreamInv.


Lemma work_is_bounded_witness :
  let w := enqueueApplication sampleJob (enqueueApplication sampleJob emptyWorld) in
  (List.length (delivered (run launchFails 9 w)) <= 0 + 3 * 2)%nat
  /\ List.length (delivered (run launchFails 9 w)) = 6%nat.
Proof.
  intros w. split; [|reflexivity].
  assert (H : Forall inRange (stream w)).
  { repeat constructor; cbn; lia. }
  exact (proj1 (work_is_bounded launchFails 9 w H)).
Defined.

End DispatcherExtrasWitnesses.

Section ChannelExtras.
Import JsString Engine Dispatcher StatusLog StreamInv.


End ChannelExtras.

Section ChannelExtrasWitnesses.
Import JsString Engine Dispatcher StatusLog StreamInv.


(** A job that was applied for and whose XACK rejects on every delivery is
    applied for three times and ends FAILED. *)
Lemma unacknowledged_job_is_repeated :
  let applies := fun (_ : nat) (_ : Payload) =>
                   {| firstWriteOk := true; browser := smoothRun; errorMessage := None |} in
  let w := Channel.run applies Channel.ackRejects 5
             (enqueueApplication sampleJob emptyWorld) in
  map attempts (delivered w) = [Some 0; Some 1; Some 2]%Z
  /\ map snd (statuses w)
     = [PROCESSING; PROCESSING; APPLIED; PROCESSING; PROCESSING; APPLIED;
        PROCESSING; PROCESSING; APPLIED; FAILED]
  /\ statusOfApp "app-1" w = Some FAILED.
Proof. vm_compute. repeat split; reflexivity. Qed.

End ChannelExtrasWitnesses.

(* ================================================================== *)
(** * The choice of the AI provider *)

Section AiExtras.
Import JsString Ai.

(** X17. The configured provider is a preference, not a requirement: AI is
    enabled exactly when one of the two keys is set, whatever AI_PROVIDER or
    the override say; a provider is only returned when its key is set; and
    when both keys are set the choice [gemini] selects Gemini and every
    other choice, known or not, selects OpenAI. *)
Theorem provider_is_a_preference (e : Env) (override : option string) :
  let choice := match override with Some o => o | None => provider e end in
  isAIEnabled e override = (openai e || genAI e)
  /\ (resolveProvider e override = P_openai -> openai e = true)
  /\ (resolveProvider e override = P_gemini -> genAI e = true)
  /\ (openai e = true -> genAI e = true ->
      resolveProvider e override
      = if String.eqb choice "gemini" then P_gemini else P_openai).
Proof.
  unfold isAIEnabled, resolveProvider. cbv zeta.
  destruct (String.eqb _ "openai") eqn:Eo; destruct (String.eqb _ "gemini") eqn:Eg;
    destruct (openai e), (genAI e); cbn; repeat split; intros; try congruence.
  apply String.eqb_eq in Eo. apply String.eqb_eq in Eg. congruence.
Qed.

End AiExtras.

(* ================================================================== *)
(** * Search queries *)

Section QueriesExtras.
Import JsString Queries.

Lemma addRole_spec (queries : list string) (role : string) :
  NoDup queries -> Forall (fun q => q <> "") queries ->
  let queries' := addRole queries role in
  NoDup queries' /\ Forall (fun q => q <> "") queries'
  /\ incl queries queries'
  /\ (trim role <> "" -> In (trim role) queries')
  /\ (forall q, In q queries' -> In q queries \/ q = trim role)
  /\ (queries <> [] -> List.hd_error queries' = List.hd_error queries)
  /\ (queries = [] -> queries' = if truthy (trim role) then [trim role] else []).
Proof.
  intros Hnd Hne. unfold addRole. cbv zeta.
  destruct (trim role) as [|a t] eqn:Et; cbn [truthy andb].
  - repeat split; auto using incl_refl; try contradiction.
  - destruct (existsb (String.eqb (String a t)) queries) eqn:Ex; cbn [negb].
    + apply existsb_exists in Ex as (q & Hq & Hqe). apply String.eqb_eq in Hqe. subst q.
      repeat split; auto using incl_refl. intros ->. destruct Hq.
    + assert (Hnot : ~ In (String a t) queries).
      { intros Hin. assert (existsb (String.eqb (String a t)) queries = true)
          by (apply existsb_exists; exists (String a t); split;
              [exact Hin | apply String.eqb_refl]). congruence. }
      unfold push. repeat split.
      * apply NoDup_app; [exact Hnd | repeat constructor; intros [] |].
        intros x Hx [ <- |[]]. contradiction.
      * apply Forall_app. split; [exact Hne | repeat constructor; discriminate].
      * apply incl_appl, incl_refl.
      * intros _. apply in_or_app. right. left. reflexivity.
      * intros q Hq. apply in_app_or in Hq as [Hq|[ <- |[]]]; auto.
      * intros Hq. destruct queries; [contradiction | reflexivity].
      * intros ->. reflexivity.
Qed.

Lemma roles_spec (rs : list string) (queries : list string) :
  NoDup queries -> Forall (fun q => q <> "") queries ->
  let queries' := fold_left addRole rs queries in
  NoDup queries' /\ Forall (fun q => q <> "") queries'
  /\ incl queries queries'
  /\ (forall role, In role rs -> trim role <> "" -> In (trim role) queries')
  /\ (forall q, In q queries' -> In q queries \/ exists role, In role rs /\ q = trim role)
  /\ (queries <> [] -> List.hd_error queries' = List.hd_error queries).
Proof.
  revert queries. induction rs as [|r rs IH]; intros queries Hnd Hne; cbn [fold_left].
  - repeat split; auto using incl_refl. intros role [].
  - destruct (addRole_spec queries r Hnd Hne) as (A1 & A2 & A3 & A4 & A5 & A6 & _).
    destruct (IH (addRole queries r) A1 A2) as (B1 & B2 & B3 & B4 & B5 & B6).
    repeat split; auto.
    + eapply incl_tran; eassumption.
    + intros role [ <- |Hin] Hr; [apply B3, A4, Hr | apply B4; assumption].
    + intros q Hq. destruct (B5 q Hq) as [Hq'|(role & Hin & ->)].
      * destruct (A5 q Hq') as [ | -> ]; [left; assumption|].
        right. exists r. split; [left; reflexivity | reflexivity].
      * right. exists role. split; [right; assumption | reflexivity].
    + intros Hq. rewrite B6; [apply A6, Hq|].
      intros Hempty. rewrite Hempty in A3. destruct queries as [|q0 qs]; [contradiction|].
      destruct (A3 q0 (or_introl eq_refl)).
Qed.

Lemma fold_addRole_blank (rs : list string) :
  Forall (fun role => trim role = "") rs -> fold_left addRole rs [] = [].
Proof.
  induction 1 as [|r rs Hr _ IH]; [reflexivity|].
  cbn [fold_left]. unfold addRole at 2. rewrite Hr. cbn. exact IH.
Qed.

(** X18. The queries for a preference are distinct and never blank; every role
    that is not blank is searched, in its trimmed form, and nothing else is
    when some role is not blank. The first query is the one [buildQuery]
    gives whenever the first role is not blank, and when every role is
    blank the queries are the query of [buildQuery], if it is not empty. *)
Theorem queries_cover_the_roles (pref : SearchPreference) :
  let queries := buildMultipleQueries pref in
  NoDup queries
  /\ Forall (fun q => q <> "") queries
  /\ (forall role, In role (roles pref) -> trim role <> "" -> In (trim role) queries)
  /\ (forall q, In q queries ->
        (exists role, In role (roles pref) /\ q = trim role)
        \/ (Forall (fun role => trim role = "") (roles pref) /\ q = keywordQuery pref))
  /\ (forall r rest, roles pref = r :: rest -> trim r <> "" ->
        List.hd_error queries = Some (buildQuery pref))
  /\ (Forall (fun role => trim role = "") (roles pref) ->
        queries = if truthy (buildQuery pref) then [buildQuery pref] else []).
Proof.
  unfold buildMultipleQueries. cbv zeta.
  destruct (roles_spec (roles pref) [] (NoDup_nil _) (Forall_nil _))
    as (H1 & H2 & _ & H4 & H5 & _).
  assert (Hblank : fold_left addRole (roles pref) [] = [] ->
                   Forall (fun role => trim role = "") (roles pref)).
  { intros Hnil. apply Forall_forall. intros role Hin.
    destruct (trim role) eqn:Et; [reflexivity|].
    exfalso. assert (Hin' : In (trim role) (fold_left addRole (roles pref) []))
      by (apply H4; [exact Hin | rewrite Et; discriminate]).
    rewrite Hnil in Hin'. destruct Hin'. }
  assert (HbuildBlank : Forall (fun role => trim role = "") (roles pref) ->
                        buildQuery pref = keywordQuery pref).
  { intros Hall. unfold buildQuery. destruct (roles pref) as [|r rest]; [reflexivity|].
    inversion Hall as [|? ? Hr _]; subst. rewrite Hr. reflexivity. }
  destruct (fold_left addRole (roles pref) []) as [|q0 qs] eqn:Efold; cbn [List.length Nat.eqb].
  - specialize (Hblank eq_refl). rewrite (HbuildBlank Hblank).
    assert (Hnone : forall role, In role (roles pref) -> trim role <> "" -> False).
    { intros role Hin Hr. rewrite Forall_forall in Hblank. auto. }
    assert (Hfirst : forall r rest, roles pref = r :: rest -> trim r <> "" -> False).
    { intros r rest Hroles. apply Hnone. rewrite Hroles. left. reflexivity. }
    destruct (keywordQuery pref) as [|a kw] eqn:Ekw; cbn [truthy]; unfold push; cbn [List.app].
    + split; [constructor|]. split; [constructor|].
      split; [intros role Hin Hr; destruct (Hnone role Hin Hr)|].
      split; [intros q []|].
      split; [intros r rest Hroles Hr; destruct (Hfirst r rest Hroles Hr)|].
      intros _. reflexivity.
    + split; [repeat constructor; intros []|].
      split; [repeat constructor; discriminate|].
      split; [intros role Hin Hr; destruct (Hnone role Hin Hr)|].
      split.
      { intros q [ <- |[]]. right. split; [exact Hblank | reflexivity]. }
      split; [intros r rest Hroles Hr; destruct (Hfirst r rest Hroles Hr)|].
      intros _. reflexivity.
  - split; [exact H1|]. split; [exact H2|]. split; [exact H4|].
    split.
    { intros q Hq. destruct (H5 q Hq) as [[]|H]. left. exact H. }
    split.
    { intros r rest Hroles Hr. unfold buildQuery. rewrite Hroles.
      destruct (trim r) as [|a t] eqn:Et; [contradiction|]. cbn [truthy].
      rewrite Hroles in Efold. cbn [fold_left] in Efold.
      unfold addRole at 2 in Efold. rewrite Et in Efold. cbn in Efold.
      destruct (roles_spec rest [String a t]) as (_ & _ & _ & _ & _ & Hhd).
      * repeat constructor. intros [].
      * repeat constructor. discriminate.
      * unfold push in Efold. cbn [List.app] in Efold. rewrite Efold in Hhd.
        apply Hhd. discriminate. }
    intros Hall. rewrite (fold_addRole_blank _ Hall) in Efold. discriminate.
Qed.

End QueriesExtras.

(* ================================================================== *)
(** * The pre-click validation of the searches *)

Section SearchExtras.
Import JsString Classifier Search.

Lemma keeps_only_forced (forceApply : bool) (title location : option string) :
  keeps forceApply title location = forceApply.
Proof.
  unfold keeps. destruct forceApply; [reflexivity|].
  unfold validateMERNJob. cbv zeta.
  rewrite (shallow_never_matches (orEmpty title) None location eq_refl). reflexivity.
Qed.

Lemma fold_left_skip {A B : Type} (f : list B -> A -> list B) (l : list A) (acc : list B) :
  (forall acc x, f acc x = acc) -> fold_left f l acc = acc.
Proof.
  intros H. revert acc. induction l as [|x l IH]; intros acc; [reflexivity|].
  cbn. rewrite H. apply IH.
Qed.

Lemma fold_left_push {A B : Type} (f : list B -> A -> list B) (g : A -> B)
      (l : list A) (acc : list B) :
  (forall acc x, f acc x = push acc (g x)) -> fold_left f l acc = (acc ++ map g l)%list.
Proof.
  intros H. revert acc. induction l as [|x l IH]; intros acc; cbn.
  - rewrite app_nil_r. reflexivity.
  - rewrite H, IH. unfold push. rewrite <- app_assoc. reflexivity.
Qed.

(** X19. The validation that [searchLinkedIn] and [searchIndeed] run on a card
    before any click passes no card: it evaluates the title and the location
    without a description, and such an evaluation never reaches 65 points.
    Unless FORCE_APPLY is set both searches return no job, whatever the
    result page shows; with FORCE_APPLY they return one job for each card
    that has a URL (a job key on Indeed), in the order of the page. *)
Theorem preclick_validation_passes_nothing
        (cards : list LinkedInCard) (icards : list IndeedCard) :
  (forall title location, keeps false title location = false)
  /\ searchLinkedIn false cards = []
  /\ searchIndeed false icards = []
  /\ map jobUrl (searchLinkedIn true cards)
     = map (fun c => orEmpty (url c)) (filter (fun c => present (url c)) cards)
  /\ map jobUrl (searchIndeed true icards)
     = map (fun c => "https://www.indeed.com/viewjob?jk=" ++ orEmpty (jk c))
           (filter (fun c => present (jk c)) icards).
Proof.
  split; [intros; apply keeps_only_forced|].
  split; [|split; [|split]].
  - unfold searchLinkedIn. apply fold_left_skip. intros acc x.
    unfold linkedInStep. rewrite keeps_only_forced. reflexivity.
  - unfold searchIndeed. apply fold_left_skip. intros acc x.
    unfold indeedStep. rewrite keeps_only_forced. reflexivity.
  - unfold searchLinkedIn.
    rewrite (fold_left_push (linkedInStep true)
               (fun job => {| externalId := "linkedin_" ++ linkedInId (orEmpty (url job));
                              jobUrl := orEmpty (url job);
                              j_title := title job; j_company := company job;
                              j_location := location job;
                              j_easyApply := Some (easyApply job);
                              platform := LINKEDIN |})).
    + cbn [List.app]. rewrite map_map. reflexivity.
    + intros acc x. reflexivity.
  - unfold searchIndeed.
    rewrite (fold_left_push (indeedStep true)
               (fun job => {| externalId := "indeed_" ++ orEmpty (jk job);
                              jobUrl := "https://www.indeed.com/viewjob?jk=" ++ orEmpty (jk job);
                              j_title := i_title job; j_company := i_company job;
                              j_location := i_location job;
                              j_easyApply := None; platform := INDEED |})).
    + cbn [List.app]. rewrite map_map. reflexivity.
    + intros acc x. reflexivity.
Qed.

End SearchExtras.

(* ================================================================== *)
(** * Status notifications *)

Section NotificationsExtras.
Import JsString Engine Notifications.

(** X20. A notification row is never left pending: when [sendStatusNotification]
    returns, the row it created, if any, says SENT or FAILED. The row says
    SENT exactly when the mail went out and the update to SENT completed; at
    most one mail is sent, and none without a transport or an address. A
    failing transport is absorbed: the function throws only when a database
    call does (the lookup of the user, the creation of the row, or the
    update to FAILED of the handler). *)
Theorem notification_row_settles (payload : Payload) (x : Oracle) :
  let r := outcome payload x in
  (returns r = true -> rowStatus r <> Some N_PENDING)
  /\ (rowStatus r = Some N_SENT <->
      findOk x = true /\ given (email x) <> None /\ createOk x = true
      /\ transporter x = true /\ sendOk x = true /\ sentUpdateOk x = true)
  /\ (List.length (mails (snd r)) <= 1)%nat
  /\ (mails (snd r) <> [] ->
      given (email x) <> None /\ transporter x = true /\ sendOk x = true)
  /\ (returns r = false ->
      findOk x = false \/ createOk x = false \/ failedUpdateOk x = false)
  /\ (given (email x) = None -> findOk x = true ->
      returns r = true /\ row (snd r) = None).
Proof.
  unfold outcome, sendStatusNotification, returns, rowStatus.
  destruct x as [f e t c s su fu]. cbn [findOk email transporter createOk sendOk
                                        sentUpdateOk failedUpdateOk].
  destruct (given e) as [address|]; destruct f, t, c, s, su, fu; cbn;
    repeat split; intros; try congruence; try lia; try tauto;
    repeat match goal with H : _ /\ _ |- _ => destruct H end; try congruence.
Qed.

End NotificationsExtras.

(* ================================================================== *)
(** * Runs of characters and the patterns that replace them *)

Section RunsFacts.
Import JsString Regex Runs.

Lemma star_greedy (p : ascii -> bool) (cap : option string) (prev : option ascii)
      (s : string) :
  star p accept cap prev s = Some (dropRun p s, cap).
Proof.
  revert prev. induction s as [|a s IH]; intros prev; [reflexivity|].
  cbn [star dropRun]. destruct (p a); [rewrite IH|]; reflexivity.
Qed.

Lemma dropRun_length (p : ascii -> bool) (s : string) :
  (String.length (dropRun p s) + runLength p s = String.length s)%nat.
Proof.
  induction s as [|a s IH]; [reflexivity|].
  cbn [dropRun runLength]. destruct (p a); cbn [String.length]; lia.
Qed.

Lemma substring_length (n : nat) (s : string) :
  (n <= String.length s)%nat -> String.length (String.substring 0 n s) = n.
Proof.
  revert s. induction n as [|n IH]; intros [|a s]; cbn; try lia.
  intros H. rewrite IH; lia.
Qed.

Lemma consumed_length (s rest : string) :
  (String.length rest <= String.length s)%nat ->
  String.length (consumed s rest) = (String.length s - String.length rest)%nat.
Proof. intros H. unfold consumed. apply substring_length. lia. Qed.

Lemma match_at_plus (p : ascii -> bool) (prev : option ascii) (s : string) :
  match_at (PlusC p) prev s
  = match s with
    | String a s' => if p a then Some (dropRun p s', None) else None
    | EmptyString => None
    end.
Proof.
  unfold match_at, PlusC. destruct s as [|a s']; [reflexivity|].
  cbn [rmatch]. destruct (p a); [apply star_greedy | reflexivity].
Qed.

(** Replacing the runs matched by [p+] is squeezing them. *)
Lemma replace_plus (p : ascii -> bool) (s : string) :
  forall prev,
    replace_go (PlusC p) FieldResolver.blank (runLength p s) prev s = squeeze p true s
    /\ replace_go (PlusC p) FieldResolver.blank 0 prev s = squeeze p false s.
Proof.
  induction s as [|a s IH]; intros prev.
  - split; reflexivity.
  - cbn [runLength squeeze]. destruct (p a) eqn:Ep.
    + split.
      * cbn [replace_go]. apply IH.
      * cbn [replace_go]. rewrite match_at_plus, Ep.
        rewrite consumed_length
          by (cbn [String.length]; pose proof (dropRun_length p s); lia).
        cbn [String.length].
        replace (S (String.length s) - String.length (dropRun p s))%nat
          with (S (runLength p s)) by (pose proof (dropRun_length p s); lia).
        unfold FieldResolver.blank at 1. cbn [String.append].
        f_equal. apply IH.
    + assert (H0 : replace_go (PlusC p) FieldResolver.blank 0 prev (String a s)
                   = String a (squeeze p false s)).
      { cbn [replace_go]. rewrite match_at_plus, Ep. f_equal. apply IH. }
      split; exact H0.
Qed.

Lemma replaceAll_plus (p : ascii -> bool) (s : string) :
  replaceAll (PlusC p) FieldResolver.blank s = squeeze p false s.
Proof. apply replace_plus. Qed.

End RunsFacts.

Section TrimFacts.
Import JsString Regex Runs.

Lemma all_app (P : ascii -> bool) (x y : string) :
  all P (x ++ y) = all P x && all P y.
Proof.
  induction x as [|a x IH]; [reflexivity|].
  cbn. rewrite IH, andb_assoc. reflexivity.
Qed.

Lemma all_substring (P : ascii -> bool) (n : nat) (s : string) :
  all P s = true -> all P (String.substring 0 n s) = true.
Proof.
  revert s. induction n as [|n IH]; intros [|a s]; cbn; try reflexivity.
  intros H. apply andb_true_iff in H as [Ha Hs]. rewrite Ha. cbn. apply IH, Hs.
Qed.

Lemma all_impl (P Q : ascii -> bool) (s : string) :
  (forall a, P a = true -> Q a = true) -> all P s = true -> all Q s = true.
Proof.
  intros H. induction s as [|a s IH]; [reflexivity|].
  cbn. intros Hs. apply andb_true_iff in Hs as [Ha Hs].
  rewrite (H a Ha), (IH Hs). reflexivity.
Qed.

Lemma all_trimStart (P : ascii -> bool) (s : string) :
  all P s = true -> all P (trimStart s) = true.
Proof.
  induction s as [|a s IH]; [reflexivity|].
  cbn [trimStart]. destruct (is_space a); [|auto].
  cbn. intros H. apply andb_true_iff in H as [_ H]. auto.
Qed.

Lemma all_trimEnd (P : ascii -> bool) (s : string) :
  all P s = true -> all P (trimEnd s) = true.
Proof.
  induction s as [|a s IH]; [reflexivity|].
  cbn [trimEnd all]. intros H. apply andb_true_iff in H as [Ha Hs].
  specialize (IH Hs). destruct (trimEnd s) as [|b t].
  - destruct (is_space a); cbn; [reflexivity | rewrite Ha; reflexivity].
  - cbn [all] in *. rewrite Ha, IH. reflexivity.
Qed.

Lemma all_trim (P : ascii -> bool) (s : string) :
  all P s = true -> all P (trim s) = true.
Proof. intros H. apply all_trimEnd, all_trimStart, H. Qed.

Lemma noPair_weaken (p : ascii -> bool) (s : string) :
  noPair p true s = true -> noPair p false s = true.
Proof. destruct s as [|a s]; cbn; [auto|]. destruct (p a); [discriminate | auto]. Qed.

Lemma noPair_trimStart (p : ascii -> bool) (b : bool) (s : string) :
  noPair p b s = true -> noPair p false (trimStart s) = true.
Proof.
  revert b. induction s as [|a s IH]; intros b; [reflexivity|].
  cbn [trimStart]. destruct (is_space a).
  - cbn [noPair]. destruct (p a); [|apply IH].
    intros H. apply andb_true_iff in H as [_ H]. apply (IH true H).
  - destruct b; [apply noPair_weaken | auto].
Qed.

Lemma noPair_trimEnd (p : ascii -> bool) (b : bool) (s : string) :
  noPair p b s = true -> noPair p b (trimEnd s) = true.
Proof.
  revert b. induction s as [|a s IH]; intros b; [reflexivity|].
  cbn [trimEnd noPair]. destruct (p a) eqn:Ep.
  - intros H. apply andb_true_iff in H as [Hb Hs]. specialize (IH true Hs).
    destruct (trimEnd s) as [|c t].
    + destruct (is_space a); cbn; [reflexivity | rewrite Ep, Hb; reflexivity].
    + cbn [noPair]. rewrite Ep, Hb. exact IH.
  - intros Hs. specialize (IH false Hs).
    destruct (trimEnd s) as [|c t].
    + destruct (is_space a); cbn; [reflexivity | rewrite Ep; reflexivity].
    + cbn [noPair]. rewrite Ep. exact IH.
Qed.

Lemma trimStart_head (s : string) : startsWith is_space (trimStart s) = false.
Proof.
  induction s as [|a s IH]; [reflexivity|].
  cbn [trimStart]. destruct (is_space a) eqn:E; [exact IH | cbn; exact E].
Qed.

Lemma trimEnd_head (s : string) :
  startsWith is_space s = false -> startsWith is_space (trimEnd s) = false.
Proof.
  destruct s as [|a s]; [reflexivity|]. cbn [startsWith trimEnd]. intros E.
  destruct (trimEnd s); [rewrite E|]; cbn; auto.
Qed.

Lemma trimEnd_last (s : string) : endsWith is_space (trimEnd s) = false.
Proof.
  induction s as [|a s IH]; [reflexivity|].
  cbn [trimEnd]. destruct (trimEnd s) as [|b t].
  - destruct (is_space a) eqn:E; cbn; auto.
  - cbn [endsWith] in *. exact IH.
Qed.

Lemma trim_edges (s : string) :
  startsWith is_space (trim s) = false /\ endsWith is_space (trim s) = false.
Proof.
  split; [apply trimEnd_head, trimStart_head | apply trimEnd_last].
Qed.

Lemma trimStart_fixed (s : string) : startsWith is_space s = false -> trimStart s = s.
Proof. destruct s as [|a s]; cbn; [auto|]. intros ->. reflexivity. Qed.

Lemma trimEnd_fixed (s : string) : endsWith is_space s = false -> trimEnd s = s.
Proof.
  induction s as [|a s IH]; [reflexivity|].
  cbn [trimEnd endsWith]. destruct s as [|b t].
  - cbn. intros ->. reflexivity.
  - intros H. rewrite (IH H). reflexivity.
Qed.

Lemma trim_fixed (s : string) :
  startsWith is_space s = false -> endsWith is_space s = false -> trim s = s.
Proof. intros H1 H2. unfold trim. rewrite (trimStart_fixed s H1). apply trimEnd_fixed, H2. Qed.

(** [trim] is idempotent. *)
Lemma trim_trim (s : string) : trim (trim s) = trim s.
Proof. destruct (trim_edges s). apply trim_fixed; assumption. Qed.

End TrimFacts.

(* ================================================================== *)
(** * Normalised texts *)

Section NormalizeExtras.
Import JsString Regex Runs Options.

Lemma alnum_not_blank (a : ascii) : is_alnum a = true -> is_blank a = false.
Proof.
  unfold is_blank. destruct (Ascii.eqb a " ") eqn:E; [|reflexivity].
  apply Ascii.eqb_eq in E. subst a. vm_compute. discriminate.
Qed.

Lemma blank_is_space (a : ascii) : is_blank a = true -> is_space a = true.
Proof. unfold is_blank. intros E. apply Ascii.eqb_eq in E. subst a. reflexivity. Qed.

Lemma alnum_not_space (a : ascii) : is_alnum a = true -> is_space a = false.
Proof.
  destruct a as [[] [] [] [] [] [] [] []]; vm_compute; intros; congruence.
Qed.

Lemma alnum_lower (a : ascii) : is_alnum a = true -> lower_ascii a = a.
Proof.
  destruct a as [[] [] [] [] [] [] [] []]; vm_compute; intros; congruence.
Qed.

Lemma not_alnum_alnum (a : ascii) : not_alnum a = negb (is_alnum a).
Proof. reflexivity. Qed.

Lemma squeeze_alphabet (b : bool) (s : string) :
  all (fun a => is_alnum a || is_blank a) (squeeze not_alnum b s) = true.
Proof.
  revert b. induction s as [|a s IH]; intros b; [reflexivity|].
  cbn [squeeze]. rewrite not_alnum_alnum. destruct (is_alnum a) eqn:Ea; cbn [negb].
  - cbn [all]. rewrite Ea, IH. reflexivity.
  - destruct b; [apply IH|]. cbn [all]. rewrite IH. reflexivity.
Qed.

Lemma squeeze_noPair (b : bool) (s : string) :
  noPair is_blank b (squeeze not_alnum b s) = true.
Proof.
  revert b. induction s as [|a s IH]; intros b; [reflexivity|].
  cbn [squeeze]. rewrite not_alnum_alnum. destruct (is_alnum a) eqn:Ea; cbn [negb].
  - cbn [noPair]. rewrite (alnum_not_blank a Ea). apply IH.
  - destruct b; [apply IH|]. cbn [noPair]. change (is_blank " ") with true.
    cbn. apply IH.
Qed.

Lemma normal_head (s : string) :
  all (fun a => is_alnum a || is_blank a) s = true ->
  noPair is_blank true s = true -> startsWith is_space s = false.
Proof.
  destruct s as [|a s]; [reflexivity|]. cbn.
  destruct (is_alnum a) eqn:Ea; [intros; apply alnum_not_space, Ea|].
  cbn. destruct (is_blank a); [discriminate|]. discriminate.
Qed.

Lemma trimStart_normal (s : string) :
  all (fun a => is_alnum a || is_blank a) s = true ->
  noPair is_blank false s = true ->
  noPair is_blank true (trimStart s) = true.
Proof.
  destruct s as [|a s]; [reflexivity|]. cbn [all noPair trimStart].
  intros Hall Hp. apply andb_true_iff in Hall as [Ha Hs].
  destruct (is_alnum a) eqn:Ea.
  - rewrite (alnum_not_space a Ea). cbn [noPair].
    rewrite (alnum_not_blank a Ea) in *. exact Hp.
  - cbn in Ha. rewrite Ha in Hp. cbn in Hp. rewrite (blank_is_space a Ha).
    rewrite (trimStart_fixed s (normal_head s Hs Hp)). exact Hp.
Qed.

Lemma normalizeText_squeeze (v : string) :
  normalizeText v = trim (squeeze not_alnum false (toLowerCase v)).
Proof. unfold normalizeText. rewrite replaceAll_plus. reflexivity. Qed.

Lemma normalizeText_normal (v : string) : normal (normalizeText v) = true.
Proof.
  rewrite normalizeText_squeeze. unfold normal.
  rewrite (all_trim _ _ (squeeze_alphabet false (toLowerCase v))).
  destruct (trim_edges (squeeze not_alnum false (toLowerCase v))) as [_ ->].
  unfold trim. rewrite noPair_trimEnd; [reflexivity|].
  apply trimStart_normal; [apply squeeze_alphabet | apply squeeze_noPair].
Qed.

Lemma toLowerCase_normal (s : string) :
  all (fun a => is_alnum a || is_blank a) s = true -> toLowerCase s = s.
Proof.
  induction s as [|a s IH]; [reflexivity|]. cbn [all toLowerCase].
  intros H. apply andb_true_iff in H as [Ha Hs]. rewrite (IH Hs). f_equal.
  apply orb_true_iff in Ha as [Ha|Ha]; [apply alnum_lower, Ha|].
  apply Ascii.eqb_eq in Ha. subst a. reflexivity.
Qed.

Lemma squeeze_normal (b : bool) (s : string) :
  all (fun a => is_alnum a || is_blank a) s = true ->
  noPair is_blank b s = true -> squeeze not_alnum b s = s.
Proof.
  revert b. induction s as [|a s IH]; intros b; [reflexivity|].
  cbn [all noPair squeeze]. intros H Hp. apply andb_true_iff in H as [Ha Hs].
  rewrite not_alnum_alnum. destruct (is_alnum a) eqn:Ea; cbn [negb].
  - rewrite (alnum_not_blank a Ea) in Hp. rewrite (IH false Hs Hp). reflexivity.
  - cbn in Ha. rewrite Ha in Hp. apply andb_true_iff in Hp as [Hb Hp].
    destruct b; [discriminate|]. rewrite (IH true Hs Hp).
    apply Ascii.eqb_eq in Ha. subst a. reflexivity.
Qed.

Lemma normal_fixed (s : string) : normal s = true -> normalizeText s = s.
Proof.
  unfold normal. intros H. apply andb_true_iff in H as [H He].
  apply andb_true_iff in H as [Ha Hp]. apply negb_true_iff in He.
  rewrite normalizeText_squeeze, (toLowerCase_normal s Ha).
  rewrite (squeeze_normal false s Ha (noPair_weaken _ _ Hp)).
  apply trim_fixed; [apply normal_head; assumption | exact He].
Qed.

(** X21. [normalizeText] computes a normal form: its result is made of words of
    lower-case letters and digits separated by single spaces, with no space
    at either end; it is the text with every run of other characters
    squeezed into one space and trimmed; and normalising twice changes
    nothing. *)
Theorem normalizeText_normal_form (v : string) :
  normalizeText v = trim (squeeze not_alnum false (toLowerCase v))
  /\ normal (normalizeText v) = true
  /\ normalizeText (normalizeText v) = normalizeText v.
Proof.
  split; [apply normalizeText_squeeze|].
  split; [apply normalizeText_normal|].
  apply normal_fixed, normalizeText_normal.
Qed.

Lemma normal_not_dash (s : string) :
  normal s = true -> String.eqb s "--" = false /\ String.eqb s "-" = false.
Proof.
  intros H. split.
  - destruct (String.eqb s "--") eqn:E; [|reflexivity].
    apply String.eqb_eq in E. subst s. vm_compute in H. discriminate.
  - destruct (String.eqb s "-") eqn:E; [|reflexivity].
    apply String.eqb_eq in E. subst s. vm_compute in H. discriminate.
Qed.

(** X22. Of the nine comparisons of [isBlankChoice] five decide: the cleaned
    text is empty, is [please select], starts with [select] or contains
    [choose], or the value is empty. The comparisons with one and two dashes
    never hold, since cleaning removes every dash, and the two with
    [select] and [select an option] are covered by the prefix test. *)
Theorem blank_choice_deciding_tests (value text : string) :
  let cleaned := normalizeText (or_else (or_else text value) "") in
  String.eqb cleaned "--" = false
  /\ String.eqb cleaned "-" = false
  /\ isBlankChoice value text
     = ((String.length cleaned =? 0)%nat
        || String.eqb cleaned "please select"
        || String.prefix "select" cleaned
        || includes cleaned "choose"
        || String.eqb value "").
Proof.
  intros cleaned. unfold isBlankChoice. cbv zeta. fold cleaned.
  destruct (normal_not_dash cleaned (normalizeText_normal _)) as [H2 H1].
  rewrite H2, H1. split; [reflexivity|]. split; [reflexivity|].
  destruct (String.eqb cleaned "select") eqn:E1.
  { apply String.eqb_eq in E1. rewrite E1. reflexivity. }
  destruct (String.eqb cleaned "select an option") eqn:E2.
  { apply String.eqb_eq in E2. rewrite E2. reflexivity. }
  destruct (String.length cleaned =? 0)%nat, (String.eqb cleaned "please select"),
    (String.prefix "select" cleaned), (includes cleaned "choose"), (String.eqb value "");
    reflexivity.
Qed.

End NormalizeExtras.

(* ================================================================== *)
(** * Choosing among options *)

Section OptionsExtras.
Import JsString Regex Runs Options.

Lemma gt_true (a b : Q) : gt a b = true -> (b < a)%Q.
Proof.
  unfold gt. intros H. apply negb_true_iff in H.
  apply Qnot_le_lt. intros Hle. apply Qle_bool_iff in Hle. congruence.
Qed.

Lemma gt_false (a b : Q) : gt a b = false -> (a <= b)%Q.
Proof.
  unfold gt. intros H. apply negb_false_iff in H. apply Qle_bool_iff. exact H.
Qed.

Lemma best_of_spec (na : string) (opts : list OptionChoice) :
  forall (best : option OptionChoice) (bs : Q),
    let r := best_of na opts best bs in
    (r = best /\ forall o sc, In o opts -> rate na o = Some sc -> (sc <= bs)%Q)
    \/ (exists i o sc,
           nth_error opts i = Some o /\ r = Some o /\ rate na o = Some sc
           /\ (bs < sc)%Q
           /\ forall j o' sc', nth_error opts j = Some o' -> rate na o' = Some sc' ->
                               (sc' <= sc)%Q /\ ((j < i)%nat -> (sc' < sc)%Q)).
Proof.
  induction opts as [|o opts IH]; intros best bs; cbn [best_of].
  - left. split; [reflexivity|]. intros o sc [].
  - destruct (rate na o) as [s|] eqn:Er.
    + destruct (gt s bs) eqn:Eg.
      * apply gt_true in Eg. right.
        destruct (IH (Some o) s) as [[Hr Hall]|(i & o1 & sc & Hn & Hr & Hsc & Hlt & Hmax)].
        -- exists 0%nat, o, s. repeat split; auto.
           ++ destruct j as [|j]; cbn in H.
              ** injection H as <-. rewrite Er in H0. injection H0 as <-. apply Qle_refl.
              ** apply (Hall o' sc'); [eapply nth_error_In; eassumption | assumption].
           ++ intros Hj. lia.
        -- exists (S i), o1, sc. repeat split; auto.
           ++ eapply Qlt_trans; eassumption.
           ++ destruct j as [|j]; cbn in H.
              ** injection H as <-. rewrite Er in H0. injection H0 as <-.
                 apply Qlt_le_weak, Hlt.
              ** apply (Hmax j o' sc'); assumption.
           ++ intros Hj. destruct j as [|j]; cbn in H.
              ** injection H as <-. rewrite Er in H0. injection H0 as <-. exact Hlt.
              ** apply (Hmax j o' sc'); [assumption | assumption | lia].
      * apply gt_false in Eg.
        destruct (IH best bs) as [[Hr Hall]|(i & o1 & sc & Hn & Hr & Hsc & Hlt & Hmax)].
        -- left. split; [exact Hr|]. intros o' sc' [ <- |Hin] Hrate.
           ++ rewrite Er in Hrate. injection Hrate as <-. exact Eg.
           ++ apply (Hall o' sc'); assumption.
        -- right. exists (S i), o1, sc. repeat split; auto.
           ++ destruct j as [|j]; cbn in H.
              ** injection H as <-. rewrite Er in H0. injection H0 as <-.
                 apply Qlt_le_weak. eapply Qle_lt_trans; eassumption.
              ** apply (Hmax j o' sc'); assumption.
           ++ intros Hj. destruct j as [|j]; cbn in H.
              ** injection H as <-. rewrite Er in H0. injection H0 as <-.
                 eapply Qle_lt_trans; eassumption.
              ** apply (Hmax j o' sc'); [assumption | assumption | lia].
    + destruct (IH best bs) as [[Hr Hall]|(i & o1 & sc & Hn & Hr & Hsc & Hlt & Hmax)].
      * left. split; [exact Hr|]. intros o' sc' [ <- |Hin] Hrate.
        -- congruence.
        -- apply (Hall o' sc'); assumption.
      * right. exists (S i), o1, sc. repeat split; auto.
        -- destruct j as [|j]; cbn in H; [congruence|].
           apply (Hmax j o' sc'); assumption.
        -- intros Hj. destruct j as [|j]; cbn in H; [congruence|].
           apply (Hmax j o' sc'); [assumption | assumption | lia].
Qed.

Lemma pick_some (options : list OptionChoice) (answer v : string) :
  pickBestOption options answer = Some v ->
  normalizeText answer <> ""
  /\ exists i o sc,
      nth_error options i = Some o /\ v = value o
      /\ rate (normalizeText answer) o = Some sc /\ (0 < sc)%Q
      /\ forall j o' sc', nth_error options j = Some o' ->
                          rate (normalizeText answer) o' = Some sc' ->
                          (sc' <= sc)%Q /\ ((j < i)%nat -> (sc' < sc)%Q).
Proof.
  unfold pickBestOption. cbv zeta.
  destruct (normalizeText answer) as [|a na] eqn:En; [discriminate|]. cbn [truthy negb].
  destruct (best_of_spec (String a na) options None 0)
    as [[Hr _]|(i & o & sc & Hn & Hr & Hsc & Hlt & Hmax)]; cbv zeta in Hr; rewrite Hr.
  - discriminate.
  - intros H. injection H as <-. split; [discriminate|].
    exists i, o, sc. repeat split; auto; apply (Hmax j o' sc'); assumption.
Qed.

Lemma pick_none (options : list OptionChoice) (answer : string) :
  pickBestOption options answer = None <->
  normalizeText answer = ""
  \/ forall o sc, In o options -> rate (normalizeText answer) o = Some sc -> (sc <= 0)%Q.
Proof.
  unfold pickBestOption. cbv zeta.
  destruct (normalizeText answer) as [|a na] eqn:En; cbn [truthy negb].
  - split; auto.
  - destruct (best_of_spec (String a na) options None 0)
      as [[Hr Hall]|(i & o & sc & Hn & Hr & Hsc & Hlt & Hmax)]; cbv zeta in Hr; rewrite Hr.
    + split; [intros _; right; exact Hall | reflexivity].
    + split; [discriminate|]. intros [H|H]; [discriminate|]. exfalso.
      apply (Qlt_not_le _ _ Hlt). apply (H o sc); [|exact Hsc].
      eapply nth_error_In; eassumption.
Qed.

(** X23. [pickBestOption] returns the value of the first option with the highest
    score, provided that score is above 0: no option scores higher, and
    every option before it scores lower. It returns nothing exactly when the
    answer normalises to the empty text or no option scores above 0. *)
Theorem pick_is_first_best (options : list OptionChoice) (answer : string) :
  let na := normalizeText answer in
  (forall v, pickBestOption options answer = Some v ->
     na <> ""
     /\ exists i o sc,
         nth_error options i = Some o /\ v = value o
         /\ rate na o = Some sc /\ (0 < sc)%Q
         /\ forall j o' sc', nth_error options j = Some o' -> rate na o' = Some sc' ->
                             (sc' <= sc)%Q /\ ((j < i)%nat -> (sc' < sc)%Q))
  /\ (pickBestOption options answer = None <->
      na = "" \/ forall o sc, In o options -> rate na o = Some sc -> (sc <= 0)%Q).
Proof.
  split; [intros v; apply pick_some | apply pick_none].
Qed.

Lemma findIndex_found {A : Type} (f : A -> bool) (xs : list A) (k : nat) (x : A) :
  nth_error xs k = Some x -> f x = true ->
  exists i y, findIndex f xs = Some i /\ (i <= k)%nat
              /\ nth_error xs i = Some y /\ f y = true.
Proof.
  revert k. induction xs as [|z xs IH]; intros k Hk Hf; [destruct k; discriminate|].
  cbn [findIndex]. destruct (f z) eqn:Ez.
  - exists 0%nat, z. repeat split; auto. lia.
  - destruct k as [|k]; cbn in Hk; [congruence|].
    destruct (IH k Hk Hf) as (i & y & Hi & Hle & Hn & Hy). rewrite Hi.
    exists (S i), y. repeat split; auto. lia.
Qed.

Lemma rate_text (na : string) (o : OptionChoice) (sc : Q) :
  rate na o = Some sc -> or_else (text o) (value o) <> "".
Proof.
  unfold rate. cbv zeta. intros H E. rewrite E in H.
  change (normalizeText "") with "" in H. discriminate.
Qed.

(** X24. In a radio group an option that is chosen is always found again: when
    [pickBestOption] returns a choice, the choice is not empty and the
    search by trimmed lower-case label finds a radio, at or before the
    chosen one, whose label is the choice up to case and outer blanks. So
    the fallback search and the guard against index -1 never decide, and a
    radio is targeted exactly when an option is chosen. *)
Theorem radio_choice_is_found (options : list RadioOption) (answer : string) :
  let choices := map (fun opt => {| value := label opt; text := label opt |}) options in
  (forall choice, pickBestOption choices answer = Some choice ->
     choice <> ""
     /\ exists i opt,
         findIndex (fun opt => String.eqb (toLowerCase (trim (label opt)))
                                          (toLowerCase (trim choice))) options = Some i
         /\ radioTarget options answer = Some i
         /\ nth_error options i = Some opt
         /\ toLowerCase (trim (label opt)) = toLowerCase (trim choice))
  /\ (radioTarget options answer = None <-> pickBestOption choices answer = None).
Proof.
  intros choices.
  assert (Hsome : forall choice, pickBestOption choices answer = Some choice ->
     choice <> ""
     /\ exists i opt,
         findIndex (fun opt => String.eqb (toLowerCase (trim (label opt)))
                                          (toLowerCase (trim choice))) options = Some i
         /\ radioTarget options answer = Some i
         /\ nth_error options i = Some opt
         /\ toLowerCase (trim (label opt)) = toLowerCase (trim choice)).
  { intros choice Hpick.
    destruct (pick_some choices answer choice Hpick)
      as (_ & k & o & sc & Hk & Hv & Hrate & _).
    unfold choices in Hk. rewrite nth_error_map in Hk.
    destruct (nth_error options k) as [ro|] eqn:Ero; [|discriminate].
    cbn in Hk. injection Hk as <-. cbn [value] in Hv.
    assert (Hne : choice <> "").
    { pose proof (rate_text _ _ _ Hrate) as Ht. cbn [text value] in Ht.
      rewrite Hv. intros E. rewrite E in Ht. apply Ht. reflexivity. }
    split; [exact Hne|].
    destruct (findIndex_found
                (fun opt => String.eqb (toLowerCase (trim (label opt)))
                                       (toLowerCase (trim choice))) options k ro Ero)
      as (i & y & Hi & _ & Hn & Hy).
    { rewrite Hv. apply String.eqb_refl. }
    exists i, y. split; [exact Hi|]. split; [|split; [exact Hn|]].
    - unfold radioTarget. cbv zeta. fold choices. rewrite Hpick.
      destruct choice; [contradiction|]. cbn [truthy negb]. rewrite Hi. reflexivity.
    - apply String.eqb_eq, Hy. }
  split; [exact Hsome|].
  split.
  - intros Hnone. destruct (pickBestOption choices answer) as [choice|] eqn:Hpick;
      [|reflexivity].
    destruct (Hsome choice eq_refl) as (_ & i & opt & _ & Ht & _). congruence.
  - intros Hnone. unfold radioTarget. cbv zeta. fold choices. rewrite Hnone. reflexivity.
Qed.

End OptionsExtras.

(* ================================================================== *)
(** * The sanitised answer *)

Section SanitizeExtras.
Import JsString Regex Runs FieldResolver Pieces.

Lemma star_cap (P p : ascii -> bool) (k : cont) :
  (forall cap prev s res, all P s = true -> capOk P cap ->
                          k cap prev s = Some res -> capOk P (snd res)) ->
  forall s cap prev res, all P s = true -> capOk P cap ->
                         star p k cap prev s = Some res -> capOk P (snd res).
Proof.
  intros Hk. induction s as [|a s IH]; intros cap prev res Hs Hc; cbn [star].
  - apply Hk; assumption.
  - pose proof Hs as Hs'. cbn in Hs'. apply andb_true_iff in Hs' as [_ Hs'].
    destruct (p a); [|apply Hk; assumption].
    destruct (star p k cap (Some a) s) as [x|] eqn:E.
    + intros H. injection H as <-. apply (IH cap (Some a) x Hs' Hc E).
    + apply Hk; assumption.
Qed.

Lemma rmatch_cap (P : ascii -> bool) (r : regex) :
  forall k,
    (forall cap prev s res, all P s = true -> capOk P cap ->
                            k cap prev s = Some res -> capOk P (snd res)) ->
    forall s cap prev res, all P s = true -> capOk P cap ->
                           rmatch r k cap prev s = Some res -> capOk P (snd res).
Proof.
  induction r as [|c|p| |r1 IH1 r2 IH2|r1 IH1 r2 IH2|r1 IH1|p|r1 IH1];
    intros k Hk s cap prev res Hs Hc; cbn [rmatch].
  - apply Hk; assumption.
  - destruct s as [|a s]; [discriminate|].
    cbn in Hs. apply andb_true_iff in Hs as [_ Hs].
    destruct (Ascii.eqb _ _); [apply Hk; assumption | discriminate].
  - destruct s as [|a s]; [discriminate|].
    cbn in Hs. apply andb_true_iff in Hs as [_ Hs].
    destruct (p a); [apply Hk; assumption | discriminate].
  - destruct (xorb _ _); [apply Hk; assumption | discriminate].
  - apply IH1; try assumption.
    intros cap' prev' s' res' Hs' Hc'. apply IH2; assumption.
  - destruct (rmatch r1 k cap prev s) as [x|] eqn:E.
    + intros H. injection H as <-. apply (IH1 k Hk s cap prev x Hs Hc E).
    + apply IH2; assumption.
  - destruct (rmatch r1 k cap prev s) as [x|] eqn:E.
    + intros H. injection H as <-. apply (IH1 k Hk s cap prev x Hs Hc E).
    + apply Hk; assumption.
  - apply star_cap; assumption.
  - apply IH1; try assumption.
    intros cap' prev' s' res' Hs' _. apply Hk; [exact Hs'|].
    cbn. unfold consumed. apply all_substring, Hs.
Qed.

Lemma match_at_cap (P : ascii -> bool) (r : regex) (prev : option ascii)
      (s rest : string) (cap : option string) :
  all P s = true -> match_at r prev s = Some (rest, cap) -> capOk P cap.
Proof.
  intros Hs H. unfold match_at in H.
  apply (rmatch_cap P r accept) with (s := s) (cap := None) (prev := prev)
                                     (res := (rest, cap)); auto.
  - intros cap' prev' s' res' _ Hc' Hacc. unfold accept in Hacc.
    injection Hacc as <-. exact Hc'.
  - exact I.
Qed.

(** A replacement whose inserted texts are made of the characters of the
    input and of characters that satisfy [P] keeps [P]. *)
Lemma replace_preserves (P : ascii -> bool) (r : regex)
      (f : string -> option string -> string) :
  (forall m cap, all P m = true -> capOk P cap -> all P (f m cap) = true) ->
  forall s skip prev, all P s = true -> all P (replace_go r f skip prev s) = true.
Proof.
  intros Hf. induction s as [|a s IH]; intros skip prev Hs.
  - destruct skip; cbn [replace_go]; [|reflexivity].
    destruct (match_at r prev "") as [[rest cap]|] eqn:E; [|reflexivity].
    apply Hf; [reflexivity | apply (match_at_cap P r prev "" rest cap Hs E)].
  - pose proof Hs as Hs'. cbn in Hs'. apply andb_true_iff in Hs' as [Ha Hs'].
    destruct skip; cbn [replace_go]; [|apply IH, Hs'].
    destruct (match_at r prev (String a s)) as [[rest cap]|] eqn:E.
    + assert (Hm : all P (f (consumed (String a s) rest) cap) = true).
      { apply Hf; [unfold consumed; apply all_substring, Hs|].
        apply (match_at_cap P r prev (String a s) rest cap Hs E). }
      destruct (String.length (consumed (String a s) rest)); rewrite all_app, Hm.
      * cbn. rewrite Ha. apply IH, Hs'.
      * cbn. apply IH, Hs'.
    + cbn. rewrite Ha. apply IH, Hs'.
Qed.

Lemma replaceAll_preserves (P : ascii -> bool) (r : regex)
      (f : string -> option string -> string) (s : string) :
  (forall m cap, all P m = true -> capOk P cap -> all P (f m cap) = true) ->
  all P s = true -> all P (replaceAll r f s) = true.
Proof. intros Hf Hs. apply replace_preserves; assumption. Qed.

Lemma drop_ok (P : ascii -> bool) (m : string) (cap : option string) :
  all P m = true -> capOk P cap -> all P (drop m cap) = true.
Proof. reflexivity. Qed.

Lemma group1_ok (P : ascii -> bool) (m : string) (cap : option string) :
  all P m = true -> capOk P cap -> all P (group1 m cap) = true.
Proof. intros _ Hc. destruct cap; [exact Hc | reflexivity]. Qed.

Lemma blank_ok (P : ascii -> bool) (m : string) (cap : option string) :
  P " "%char = true -> all P m = true -> capOk P cap -> all P (blank m cap) = true.
Proof. intros H _ _. cbn. rewrite H. reflexivity. Qed.

Lemma star_removed (s : string) (prev : option ascii) :
  all not_star (replace_go (Lit "*") drop 0 prev s) = true.
Proof.
  revert prev. induction s as [|a s IH]; intros prev; [reflexivity|].
  cbn [replace_go]. unfold match_at. cbn [Lit rmatch].
  destruct (Ascii.eqb (lower_ascii a) (lower_ascii "*")) eqn:E.
  - unfold accept. rewrite consumed_length by (cbn; lia).
    cbn [String.length]. replace (S (String.length s) - String.length s)%nat with 1%nat by lia.
    cbn [drop String.append]. apply IH.
  - cbn [all]. rewrite IH, andb_true_r. unfold not_star, is_chr.
    destruct (Ascii.eqb a "*") eqn:Ea; [|reflexivity].
    apply Ascii.eqb_eq in Ea. subst a. discriminate.
Qed.

Lemma squeeze_removes (p : ascii -> bool) (b : bool) (s : string) :
  p " "%char = false -> all (fun a => negb (p a)) (squeeze p b s) = true.
Proof.
  intros Hp. revert b. induction s as [|a s IH]; intros b; [reflexivity|].
  cbn [squeeze]. destruct (p a) eqn:Ea.
  - destruct b; [apply IH|]. cbn [all]. rewrite Hp, IH. reflexivity.
  - cbn [all]. rewrite Ea, IH. reflexivity.
Qed.

Lemma match_at_spaces2 (prev : option ascii) (s : string) :
  match_at spaces2 prev s
  = match s with
    | String a s' =>
        if is_space a && startsWith is_space s'
        then Some (dropRun is_space s', None) else None
    | EmptyString => None
    end.
Proof.
  unfold match_at, spaces2. cbn [Cat rmatch]. destruct s as [|a s']; [reflexivity|].
  destruct (is_space a); [|reflexivity]. cbn [andb].
  destruct s' as [|b s'']; [reflexivity|]. cbn [startsWith dropRun].
  destruct (is_space b); [apply star_greedy | reflexivity].
Qed.

Lemma replace_spaces2 (s : string) :
  forall prev,
    replace_go spaces2 blank (runLength is_space s) prev s = squeeze2 is_space true s
    /\ replace_go spaces2 blank 0 prev s = squeeze2 is_space false s.
Proof.
  induction s as [|a s IH]; intros prev.
  - split; reflexivity.
  - assert (H0 : replace_go spaces2 blank 0 prev (String a s)
                 = squeeze2 is_space false (String a s)).
    { cbn [replace_go squeeze2]. rewrite match_at_spaces2.
      destruct (is_space a && startsWith is_space s) eqn:E.
      - rewrite consumed_length
          by (cbn [String.length]; pose proof (dropRun_length is_space s); lia).
        cbn [String.length].
        replace (S (String.length s) - String.length (dropRun is_space s))%nat
          with (S (runLength is_space s))
          by (pose proof (dropRun_length is_space s); lia).
        unfold blank at 1. cbn [String.append]. f_equal. apply IH.
      - f_equal. apply IH. }
    split; [|exact H0].
    cbn [runLength]. destruct (is_space a) eqn:Ea.
    + cbn [replace_go squeeze2]. rewrite Ea. apply IH.
    + rewrite H0. cbn [squeeze2]. rewrite Ea. reflexivity.
Qed.

Lemma squeeze2_noPair (s : string) :
  noPair is_space true (squeeze2 is_space true s) = true
  /\ noPair is_space false (squeeze2 is_space false s) = true
  /\ (startsWith is_space s = false ->
      noPair is_space true (squeeze2 is_space false s) = true).
Proof.
  induction s as [|a s (IH1 & IH2 & IH3)]; [repeat split; reflexivity|].
  cbn [squeeze2 startsWith]. destruct (is_space a) eqn:Ea; cbn [andb].
  - split; [exact IH1|]. split; [|discriminate].
    destruct (startsWith is_space s) eqn:Es.
    + cbn [noPair]. change (is_space " ") with true. cbn. exact IH1.
    + cbn [noPair]. rewrite Ea. cbn. apply IH3. reflexivity.
  - cbn [noPair]. rewrite Ea. repeat split; auto.
Qed.

Lemma clean_split (s : string) :
  all not_star s = true -> all (fun a => negb (is_newline a)) s = true ->
  all clean s = true.
Proof.
  induction s as [|a s IH]; [reflexivity|]. cbn [all]. intros H1 H2.
  apply andb_true_iff in H1 as [A1 B1]. apply andb_true_iff in H2 as [A2 B2].
  unfold clean at 1. rewrite A1, A2, (IH B1 B2). reflexivity.
Qed.

(** X25. Whatever the raw answer, the sanitised answer holds no asterisk and no
    line feed, no two adjacent whitespace characters, and no whitespace at
    either end. *)
Theorem sanitized_answer_is_plain (rawAnswer : string) :
  let answer := sanitize rawAnswer in
  all (fun a => negb (is_chr "*" a) && negb (is_newline a)) answer = true
  /\ noPair is_space false answer = true
  /\ startsWith is_space answer = false
  /\ endsWith is_space answer = false.
Proof.
  unfold sanitize. cbv zeta.
  set (a1 := replaceAll (Lit "**") drop rawAnswer).
  set (a2 := replaceAll (Lit "*") drop a1).
  set (a3 := replaceAll heading_pattern drop a2).
  set (a4 := replaceAll link_pattern group1 a3).
  set (a5 := replaceAll bracket_pattern group1 a4).
  set (a6 := replaceAll (PlusC is_newline) blank a5).
  set (a7 := replaceAll (Cat [Cls is_space; Cls is_space; StarC is_space]) blank a6).
  assert (H2 : all not_star a2 = true) by apply star_removed.
  assert (H3 : all not_star a3 = true)
    by (apply replaceAll_preserves; [apply drop_ok | exact H2]).
  assert (H4 : all not_star a4 = true)
    by (apply replaceAll_preserves; [apply group1_ok | exact H3]).
  assert (H5 : all not_star a5 = true)
    by (apply replaceAll_preserves; [apply group1_ok | exact H4]).
  assert (H6 : all clean a6 = true).
  { apply clean_split.
    - apply replaceAll_preserves; [intros; apply blank_ok; auto | exact H5].
    - unfold a6. rewrite replaceAll_plus. apply squeeze_removes. reflexivity. }
  assert (H7 : all clean a7 = true)
    by (apply replaceAll_preserves; [intros; apply blank_ok; auto | exact H6]).
  assert (H7' : noPair is_space false a7 = true).
  { unfold a7. change (Cat [Cls is_space; Cls is_space; StarC is_space]) with spaces2.
    unfold replaceAll. rewrite (proj2 (replace_spaces2 a6 None)).
    apply squeeze2_noPair. }
  split; [exact (all_trim _ _ H7)|].
  split; [|apply trim_edges].
  unfold trim. apply noPair_trimEnd. apply (noPair_trimStart _ false). exact H7'.
Qed.

End SanitizeExtras.

(* ================================================================== *)
(** * The number extracted from an answer *)

Section NumbersExtras.
Import JsString Regex Runs Numbers FieldResolver Pieces.

Lemma chr_dot (a : ascii) : Ascii.eqb (lower_ascii a) (lower_ascii ".") = is_dot a.
Proof. destruct a as [[] [] [] [] [] [] [] []]; reflexivity. Qed.

Lemma chr_minus (a : ascii) : Ascii.eqb (lower_ascii a) (lower_ascii "-") = is_minus a.
Proof. destruct a as [[] [] [] [] [] [] [] []]; reflexivity. Qed.

Lemma minus_not_digit (a : ascii) : is_minus a = true -> is_digit a = false.
Proof. unfold is_minus. intros E. apply Ascii.eqb_eq in E. subst a. reflexivity. Qed.

Lemma dot_not_digit (a : ascii) : is_dot a = true -> is_digit a = false.
Proof. unfold is_dot. intros E. apply Ascii.eqb_eq in E. subst a. reflexivity. Qed.

Lemma star_then (p : ascii -> bool) (k : cont) (g : string -> string) :
  (forall cap prev s, k cap prev s = Some (g s, cap)) ->
  forall s cap prev, star p k cap prev s = Some (g (dropRun p s), cap).
Proof.
  intros Hk. induction s as [|a s IH]; intros cap prev; cbn [star dropRun].
  - apply Hk.
  - destruct (p a); [rewrite IH; reflexivity | apply Hk].
Qed.

Lemma fraction_rest (cap : option string) (prev : option ascii) (s : string) :
  rmatch fraction_pattern accept cap prev s = Some (snd (fractionAt s), cap).
Proof.
  unfold fraction_pattern, digits, PlusC. cbn [Lit rmatch].
  destruct s as [|a s1]; [reflexivity|]. rewrite chr_dot. cbn [fractionAt].
  destruct s1 as [|d s2]; [destruct (is_dot a); reflexivity|].
  destruct (is_dot a); [|reflexivity]. cbn [andb].
  destruct (is_digit d); [|reflexivity].
  rewrite star_greedy. reflexivity.
Qed.

Lemma unsigned_rest (cap : option string) (prev : option ascii) (s : string) :
  rmatch (Seq digits fraction_pattern) accept cap prev s
  = match unsignedAt s with Some (_, rest) => Some (rest, cap) | None => None end.
Proof.
  unfold digits, PlusC, unsignedAt. cbn [rmatch].
  destruct s as [|d s']; [reflexivity|]. cbn [startsWith dropRun].
  destruct (is_digit d); [|reflexivity].
  rewrite (star_then is_digit
             (fun cap' prev' s'0 => rmatch fraction_pattern accept cap' prev' s'0)
             (fun s => snd (fractionAt s))); [reflexivity|].
  intros. apply fraction_rest.
Qed.

Lemma signed (r : regex) (cap : option string) (prev : option ascii) (s : string) :
  rmatch (Seq (Opt (Lit "-")) r) accept cap prev s
  = match s with
    | String a s' =>
        if is_minus a then
          match rmatch r accept cap (Some a) s' with
          | Some x => Some x
          | None => rmatch r accept cap prev s
          end
        else rmatch r accept cap prev s
    | EmptyString => rmatch r accept cap prev s
    end.
Proof.
  cbn [rmatch Lit]. destruct s as [|a s']; [reflexivity|].
  rewrite chr_minus. destruct (is_minus a); reflexivity.
Qed.

Lemma match_at_numeric (prev : option ascii) (s : string) :
  match_at numeric_pattern prev s
  = match numberAt s with Some (_, rest) => Some (rest, None) | None => None end.
Proof.
  unfold match_at, numeric_pattern.
  change (Cat [Opt (Lit "-"); digits; Opt (Seq (Lit ".") digits)])
    with (Seq (Opt (Lit "-")) (Seq digits fraction_pattern)).
  rewrite signed. destruct s as [|a s'].
  - rewrite unsigned_rest. reflexivity.
  - cbn [numberAt]. destruct (is_minus a) eqn:Em.
    + rewrite !unsigned_rest. destruct (unsignedAt s') as [[n rest]|]; [reflexivity|].
      unfold unsignedAt. cbn [startsWith]. rewrite (minus_not_digit a Em). reflexivity.
    + rewrite unsigned_rest. reflexivity.
Qed.

Lemma takeRun_dropRun (p : ascii -> bool) (s : string) :
  takeRun p s ++ dropRun p s = s.
Proof.
  induction s as [|a s IH]; [reflexivity|].
  cbn [takeRun dropRun]. destruct (p a); [cbn; rewrite IH|]; reflexivity.
Qed.

Lemma append_assoc (x y z : string) : (x ++ y) ++ z = x ++ (y ++ z).
Proof. induction x as [|a x IH]; [reflexivity|]. cbn. rewrite IH. reflexivity. Qed.

Lemma fractionAt_split (s : string) : fst (fractionAt s) ++ snd (fractionAt s) = s.
Proof.
  destruct s as [|a [|d r]]; try reflexivity. cbn [fractionAt].
  destruct (is_dot a && is_digit d); [|reflexivity].
  cbn. rewrite takeRun_dropRun. reflexivity.
Qed.

Lemma unsignedAt_split (s n rest : string) :
  unsignedAt s = Some (n, rest) -> n ++ rest = s.
Proof.
  unfold unsignedAt. destruct (startsWith is_digit s); [|discriminate].
  intros H. injection H as <- <-.
  rewrite append_assoc, fractionAt_split. apply takeRun_dropRun.
Qed.

Lemma numberAt_split (s n rest : string) :
  numberAt s = Some (n, rest) -> n ++ rest = s.
Proof.
  destruct s as [|a s']; [discriminate|]. cbn [numberAt].
  destruct (is_minus a).
  - destruct (unsignedAt s') as [[n' rest']|] eqn:E; [|discriminate].
    intros H. injection H as <- <-. cbn. rewrite (unsignedAt_split _ _ _ E). reflexivity.
  - apply unsignedAt_split.
Qed.

Lemma substring_prefix (x r : string) :
  String.substring 0 (String.length x) (x ++ r) = x.
Proof.
  induction x as [|a x IH]; [destruct r; reflexivity|]. cbn. rewrite IH. reflexivity.
Qed.

Lemma append_length (x r : string) :
  String.length (x ++ r) = (String.length x + String.length r)%nat.
Proof. induction x as [|a x IH]; [reflexivity|]. cbn. rewrite IH. reflexivity. Qed.

Lemma consumed_prefix (x r : string) : consumed (x ++ r) r = x.
Proof.
  unfold consumed. rewrite append_length.
  replace (String.length x + String.length r - String.length r)%nat
    with (String.length x) by lia.
  apply substring_prefix.
Qed.

Lemma exec_numeric (s : string) (prev : option ascii) :
  match exec_from numeric_pattern prev s with
  | Some (m, _) => m
  | None => ""
  end = firstNumber s.
Proof.
  revert prev. induction s as [|a s IH]; intros prev.
  - cbn [exec_from firstNumber]. rewrite match_at_numeric. reflexivity.
  - cbn [exec_from firstNumber]. rewrite match_at_numeric.
    destruct (numberAt (String a s)) as [[n rest]|] eqn:E; [|apply IH].
    rewrite <- (numberAt_split _ _ _ E). apply consumed_prefix.
Qed.

Lemma dropRun_takeRun (p : ascii -> bool) (s r : string) :
  dropRun p (takeRun p s ++ r) = dropRun p r.
Proof.
  induction s as [|a s IH]; [reflexivity|].
  cbn [takeRun]. destruct (p a) eqn:Ea; [|reflexivity].
  cbn [String.append dropRun]. rewrite Ea. exact IH.
Qed.

Lemma dropRun_takeRun_nil (p : ascii -> bool) (s : string) :
  dropRun p (takeRun p s) = "".
Proof.
  induction s as [|a s IH]; [reflexivity|].
  cbn [takeRun]. destruct (p a) eqn:Ea; [|reflexivity].
  cbn [dropRun]. rewrite Ea. exact IH.
Qed.

Lemma unsigned_numeral (s n rest : string) :
  unsignedAt s = Some (n, rest) ->
  startsWith is_digit n = true
  /\ match dropRun is_digit n with
     | EmptyString => true
     | String a f =>
         is_dot a && startsWith is_digit f
         && (String.length (dropRun is_digit f) =? 0)%nat
     end = true.
Proof.
  unfold unsignedAt. destruct (startsWith is_digit s) eqn:Es; [|discriminate].
  intros H. injection H as <- _. split.
  - destruct s as [|d s']; [discriminate|]. cbn in Es. cbn [takeRun]. rewrite Es.
    cbn. exact Es.
  - rewrite dropRun_takeRun.
    destruct (dropRun is_digit s) as [|a [|d r]]; try reflexivity.
    cbn [fractionAt]. destruct (is_dot a && is_digit d) eqn:E; [|reflexivity].
    apply andb_true_iff in E as [Ea Ed]. cbn [fst dropRun].
    rewrite (dot_not_digit a Ea), Ea. cbn [startsWith andb]. rewrite Ed.
    cbn [dropRun andb]. rewrite Ed, dropRun_takeRun_nil. reflexivity.
Qed.

Lemma numberAt_numeral (s n rest : string) :
  numberAt s = Some (n, rest) -> numeral n = true.
Proof.
  destruct s as [|a s']; [discriminate|]. cbn [numberAt].
  destruct (is_minus a) eqn:Em.
  - destruct (unsignedAt s') as [[n' rest']|] eqn:E; [|discriminate].
    intros H. injection H as <- _. unfold numeral. rewrite Em.
    destruct (unsigned_numeral _ _ _ E) as [H1 H2]. rewrite H1, H2. reflexivity.
  - intros E. destruct (unsigned_numeral _ _ _ E) as [H1 H2].
    unfold numeral. destruct n as [|b t]; [discriminate|].
    destruct (is_minus b) eqn:Eb.
    + cbn in H1. rewrite (minus_not_digit b Eb) in H1. discriminate.
    + rewrite H1, H2. reflexivity.
Qed.

Lemma numberAt_digit (s : string) :
  startsWith is_digit s = true -> numberAt s <> None.
Proof.
  destruct s as [|a s']; [discriminate|]. cbn [startsWith numberAt]. intros Ea.
  destruct (is_minus a) eqn:Em; [rewrite (minus_not_digit a Em) in Ea; discriminate|].
  unfold unsignedAt. cbn [startsWith]. rewrite Ea. discriminate.
Qed.

Lemma firstNumber_numeral (s : string) :
  firstNumber s = "" \/ numeral (firstNumber s) = true.
Proof.
  induction s as [|a s IH]; [left; reflexivity|].
  cbn [firstNumber]. destruct (numberAt (String a s)) as [[n rest]|] eqn:E; [|exact IH].
  right. apply (numberAt_numeral _ _ _ E).
Qed.

Lemma firstNumber_occurs (s : string) :
  exists before after, s = before ++ firstNumber s ++ after.
Proof.
  induction s as [|a s (before & after & IH)]; [exists "", ""; reflexivity|].
  cbn [firstNumber]. destruct (numberAt (String a s)) as [[n rest]|] eqn:E.
  - exists "", rest. cbn. symmetry. apply (numberAt_split _ _ _ E).
  - exists (String a before), after. cbn. rewrite <- IH. reflexivity.
Qed.

Lemma firstNumber_empty (s : string) :
  firstNumber s = "" <-> all (fun a => negb (is_digit a)) s = true.
Proof.
  induction s as [|a s IH]; [split; reflexivity|].
  cbn [firstNumber all]. destruct (numberAt (String a s)) as [[n rest]|] eqn:E.
  - split.
    + intros ->. pose proof (numberAt_numeral _ _ _ E) as H. discriminate.
    + intros H. exfalso. apply andb_true_iff in H as [Ha Hs].
      apply negb_true_iff in Ha. cbn [numberAt] in E.
      destruct (is_minus a).
      * destruct (unsignedAt s) as [[n' rest']|] eqn:Eu; [|discriminate].
        unfold unsignedAt in Eu. destruct s as [|b s']; [discriminate|].
        cbn [startsWith] in Eu. cbn in Hs. apply andb_true_iff in Hs as [Hb _].
        apply negb_true_iff in Hb. rewrite Hb in Eu. discriminate.
      * unfold unsignedAt in E. cbn [startsWith] in E. rewrite Ha in E. discriminate.
  - assert (Ha : is_digit a = false).
    { destruct (is_digit a) eqn:Ea; [|reflexivity].
      exfalso. apply (numberAt_digit (String a s)); [exact Ea | exact E]. }
    rewrite Ha. cbn [negb andb]. exact IH.
Qed.

(** X26. The number typed into a numeric field is the leftmost number of the
    answer: [extractNumericAnswer] returns a piece of the answer that is
    either empty or a numeral (an optional minus sign, digits, and
    optionally a dot and digits), and it is empty exactly when the answer
    holds no digit. *)
Theorem extracted_number_is_a_numeral (answer : string) :
  let m := extractNumericAnswer answer in
  m = firstNumber answer
  /\ (m = "" <-> all (fun a => negb (is_digit a)) answer = true)
  /\ (m = "" \/ numeral m = true)
  /\ exists before after, answer = before ++ m ++ after.
Proof.
  assert (H : extractNumericAnswer answer = firstNumber answer).
  { unfold extractNumericAnswer, exec. apply exec_numeric. }
  cbv zeta. rewrite H.
  split; [reflexivity|]. split; [apply firstNumber_empty|].
  split; [apply firstNumber_numeral | apply firstNumber_occurs].
Qed.

End NumbersExtras.

(* ================================================================== *)
(** * Collecting the LinkedIn jobs of a run *)

Section AutomationExtras.
Import JsString Regex Classifier Search Queries Automation.

Lemma addJob_spec (st : Found) (job : Job) :
  consistent st ->
  consistent (addJob st job)
  /\ incl (linkedInJobs st) (linkedInJobs (addJob st job))
  /\ In (keyOf job) (seenUrls (addJob st job))
  /\ (forall j, In j (linkedInJobs (addJob st job)) -> In j (linkedInJobs st) \/ j = job)
  /\ (List.length (linkedInJobs st) <= List.length (linkedInJobs (addJob st job)))%nat.
Proof.
  intros [Hs Hnd]. unfold addJob. cbv zeta. fold (keyOf job).
  destruct (existsb (String.eqb (keyOf job)) (seenUrls st)) eqn:Ex.
  - split; [split; assumption|]. split; [apply incl_refl|].
    split; [|split; [auto | lia]].
    apply existsb_exists in Ex as (q & Hq & Hqe). apply String.eqb_eq in Hqe.
    subst q. exact Hq.
  - assert (Hnot : ~ In (keyOf job) (seenUrls st)).
    { intros Hin. assert (existsb (String.eqb (keyOf job)) (seenUrls st) = true)
        by (apply existsb_exists; exists (keyOf job); split;
            [exact Hin | apply String.eqb_refl]). congruence. }
    unfold consistent. cbn [seenUrls linkedInJobs]. unfold push.
    split; [split|].
    + rewrite map_app, Hs. reflexivity.
    + apply NoDup_app; [exact Hnd | repeat constructor; intros [] |].
      intros x Hx [ <- |[]]. contradiction.
    + split; [apply incl_appl, incl_refl|].
      split; [apply in_or_app; right; left; reflexivity|].
      split.
      * intros j Hj. apply in_app_or in Hj as [Hj|[ <- |[]]]; auto.
      * rewrite length_app. lia.
Qed.

Lemma addJobs_spec (jobs : list Job) (st : Found) :
  consistent st ->
  let st' := fold_left addJob jobs st in
  consistent st'
  /\ incl (linkedInJobs st) (linkedInJobs st')
  /\ (forall j, In j jobs -> In (keyOf j) (seenUrls st'))
  /\ (forall j, In j (linkedInJobs st') -> In j (linkedInJobs st) \/ In j jobs)
  /\ (List.length (linkedInJobs st) <= List.length (linkedInJobs st'))%nat.
Proof.
  revert st. induction jobs as [|job jobs IH]; intros st Hc; cbn [fold_left].
  - split; [exact Hc|]. split; [apply incl_refl|].
    split; [intros j []|]. split; [auto | lia].
  - destruct (addJob_spec st job Hc) as (A1 & A2 & A3 & A4 & A5).
    destruct (IH (addJob st job) A1) as (B1 & B2 & B3 & B4 & B5).
    split; [exact B1|]. split; [eapply incl_tran; eassumption|].
    split; [|split].
    + intros j [ <- |Hj]; [|apply B3, Hj].
      destruct B1 as [Bs _]. destruct A1 as [As _].
      rewrite Bs. rewrite As in A3. apply in_map_iff in A3 as (x & Hx & Hin).
      apply in_map_iff. exists x. split; [exact Hx | apply B2, Hin].
    + intros j Hj. destruct (B4 j Hj) as [Hj'|Hj']; [|right; right; exact Hj'].
      destruct (A4 j Hj') as [ | -> ]; [left; assumption | right; left; reflexivity].
    + lia.
Qed.

Lemma searchAll_spec (forceApply : bool) (page : nat -> Combo -> option (list LinkedInCard))
      (combos : list Combo) :
  forall n st,
    consistent st ->
    let st' := searchAll forceApply page n combos st in
    consistent st'
    /\ incl (linkedInJobs st) (linkedInJobs st')
    /\ (forall j, In j (linkedInJobs st') ->
          In j (linkedInJobs st)
          \/ exists i combo cards,
               nth_error combos i = Some combo /\ page (n + i)%nat combo = Some cards
               /\ In j (searchLinkedIn forceApply cards))
    /\ ((List.length (linkedInJobs st') < 10)%nat ->
        (forall i combo, nth_error combos i = Some combo -> page (n + i)%nat combo <> None) ->
        forall i combo cards j,
          nth_error combos i = Some combo -> page (n + i)%nat combo = Some cards ->
          In j (searchLinkedIn forceApply cards) -> In (keyOf j) (seenUrls st')).
Proof.
  induction combos as [|combo combos IH]; intros n st Hc; cbn [searchAll].
  - split; [exact Hc|]. split; [apply incl_refl|]. split; [auto|].
    intros _ _ i combo cards j Hi. destruct i; discriminate.
  - destruct (page n combo) as [cards|] eqn:Ep.
    + destruct (addJobs_spec (searchLinkedIn forceApply cards) st Hc)
        as (A1 & A2 & A3 & A4 & A5).
      set (st1 := fold_left addJob (searchLinkedIn forceApply cards) st) in *.
      assert (Hhere : forall j, In j (linkedInJobs st1) ->
                In j (linkedInJobs st)
                \/ exists i combo0 cards0,
                     nth_error (combo :: combos) i = Some combo0
                     /\ page (n + i)%nat combo0 = Some cards0
                     /\ In j (searchLinkedIn forceApply cards0)).
      { intros j Hj. destruct (A4 j Hj) as [|Hin]; [left; assumption|].
        right. exists 0%nat, combo, cards. rewrite Nat.add_0_r. auto. }
      cbv zeta. destruct (10 <=? List.length (linkedInJobs st1))%nat eqn:E10.
      * split; [exact A1|]. split; [exact A2|]. split; [exact Hhere|].
        intros Hlt. apply Nat.leb_le in E10. lia.
      * destruct (IH (S n) st1 A1) as (B1 & B2 & B3 & B4).
        split; [exact B1|]. split; [eapply incl_tran; eassumption|].
        split.
        -- intros j Hj. destruct (B3 j Hj) as [Hj'|(i & c & cs & Hi & Hp & Hin)].
           ++ apply Hhere, Hj'.
           ++ right. exists (S i), c, cs. cbn [nth_error].
              replace (n + S i)%nat with (S n + i)%nat by lia. auto.
        -- intros Hlt Hall i c cs j Hi Hp Hin. destruct i as [|i].
           ++ cbn in Hi. injection Hi as <-. rewrite Nat.add_0_r in Hp.
              rewrite Ep in Hp. injection Hp as <-.
              destruct B1 as [Bs _]. destruct A1 as [As _].
              pose proof (A3 j Hin) as Hk. rewrite As in Hk.
              apply in_map_iff in Hk as (x & Hx & Hxin).
              rewrite Bs. apply in_map_iff. exists x. split; [exact Hx | apply B2, Hxin].
           ++ cbn in Hi. apply (B4 Hlt) with (i := i) (combo := c) (cards := cs); auto.
              ** intros i0 c0 Hi0. replace (S n + i0)%nat with (n + S i0)%nat by lia.
                 apply (Hall (S i0) c0). exact Hi0.
              ** replace (S n + i)%nat with (n + S i)%nat by lia. exact Hp.
    + split; [exact Hc|]. split; [apply incl_refl|]. split; [auto|].
      intros _ Hall. exfalso. apply (Hall 0%nat combo); [reflexivity|].
      rewrite Nat.add_0_r. exact Ep.
Qed.

Lemma searchLinkedIn_unforced (cards : list LinkedInCard) : searchLinkedIn false cards = [].
Proof.
  unfold searchLinkedIn. apply fold_left_skip. intros acc x.
  unfold linkedInStep. rewrite keeps_only_forced. reflexivity.
Qed.

Lemma consistent_nothing : consistent nothing.
Proof. split; [reflexivity | constructor]. Qed.

(** X27. The jobs a run collects on LinkedIn are counted once each: no two of
    them have the same key (the numeric id of the job URL, or the URL), and
    each comes from one of the searches. When fewer than 10 were collected
    and no search threw, every job of every search is among them under its
    key. Unless FORCE_APPLY is set the run collects no LinkedIn job at
    all. *)
Theorem linkedin_jobs_counted_once
        (forceApply loginOk : bool) (pref : SearchPreference)
        (page : nat -> Combo -> option (list LinkedInCard)) :
  let combos := searchCombos (buildMultipleQueries pref) in
  let jobs := findLinkedInJobs forceApply loginOk pref page in
  NoDup (map keyOf jobs)
  /\ (forall j, In j jobs ->
        exists i combo cards,
          nth_error combos i = Some combo /\ page i combo = Some cards
          /\ In j (searchLinkedIn forceApply cards))
  /\ (loginOk = true -> (List.length jobs < 10)%nat ->
      (forall i combo, nth_error combos i = Some combo -> page i combo <> None) ->
      forall i combo cards j,
        nth_error combos i = Some combo -> page i combo = Some cards ->
        In j (searchLinkedIn forceApply cards) -> In (keyOf j) (map keyOf jobs))
  /\ (forceApply = false -> jobs = []).
Proof.
  intros combos jobs. subst jobs. unfold findLinkedInJobs. fold combos.
  destruct (searchAll_spec forceApply page combos 0 nothing consistent_nothing)
    as ((Hs & Hnd) & _ & Hfrom & Hall).
  destruct loginOk.
  - split; [rewrite <- Hs; exact Hnd|].
    split.
    { intros j Hj. destruct (Hfrom j Hj) as [[]|H]. exact H. }
    split.
    { intros _ Hlt Hno i combo cards j Hi Hp Hin. rewrite <- Hs.
      apply (Hall Hlt Hno i combo cards j Hi Hp Hin). }
    intros ->.
    destruct (linkedInJobs (searchAll false page 0 combos nothing)) as [|j l] eqn:E;
      [reflexivity|].
    exfalso. destruct (Hfrom j) as [[]|(i & c & cs & _ & _ & Hin)].
    + try rewrite E. left. reflexivity.
    + rewrite searchLinkedIn_unforced in Hin. destruct Hin.
  - split; [constructor|]. split; [intros j []|]. split; [discriminate|]. reflexivity.
Qed.

End AutomationExtras.

Section JobKeyExtras.
Import JsString Regex Runs Numbers Search Automation.

Lemma star_const (p : ascii -> bool) (k : cont) (h : string -> outcome) :
  (forall cap prev s, k cap prev s = Some (h s)) ->
  forall s cap prev, star p k cap prev s = Some (h (dropRun p s)).
Proof.
  intros Hk. induction s as [|a s IH]; intros cap prev; cbn [star dropRun].
  - apply Hk.
  - destruct (p a); [rewrite IH; reflexivity | apply Hk].
Qed.

Lemma rmatch_seq (r1 r2 : regex) (k : cont) (cap : option string) (prev : option ascii)
      (s : string) :
  rmatch (Seq r1 r2) k cap prev s
  = rmatch r1 (fun cap' prev' s' => rmatch r2 k cap' prev' s') cap prev s.
Proof. reflexivity. Qed.

Lemma exact_match (l : string) :
  forall k cap prev s,
    rmatch (Exact l) k cap prev s = None
    \/ exists rest prev', s = l ++ rest /\ rmatch (Exact l) k cap prev s = k cap prev' rest.
Proof.
  induction l as [|a l IH]; intros k cap prev s.
  - right. exists s, prev. split; reflexivity.
  - assert (Hone : forall k' cap' prev' s',
               rmatch (Cls (Ascii.eqb a)) k' cap' prev' s' = None
               \/ exists rest, s' = String a rest
                  /\ rmatch (Cls (Ascii.eqb a)) k' cap' prev' s' = k' cap' (Some a) rest).
    { intros k' cap' prev' s'. cbn [rmatch]. destruct s' as [|b rest]; [left; reflexivity|].
      destruct (Ascii.eqb a b) eqn:E; [|left; reflexivity].
      apply Ascii.eqb_eq in E. subst b. right. exists rest. split; reflexivity. }
    destruct l as [|b l].
    + cbn [Exact]. destruct (Hone k cap prev s) as [H|(rest & -> & H)]; [left; exact H|].
      right. exists rest, (Some a). split; [reflexivity | exact H].
    + change (Exact (String a (String b l)))
        with (Seq (Cls (Ascii.eqb a)) (Exact (String b l))).
      rewrite rmatch_seq.
      destruct (Hone (fun cap' prev' s' => rmatch (Exact (String b l)) k cap' prev' s')
                     cap prev s) as [H|(rest & -> & H)]; [left; exact H|].
      rewrite H. destruct (IH k cap (Some a) rest) as [H'|(rest' & p' & -> & H')];
        [left; exact H'|].
      right. exists rest', p'. split; [reflexivity | exact H'].
Qed.

Lemma captured_digits (cap : option string) (prev : option ascii) (s : string) :
  rmatch (Cap digits) accept cap prev s
  = if startsWith is_digit s
    then Some (dropRun is_digit s, Some (takeRun is_digit s))
    else None.
Proof.
  unfold digits, PlusC. cbn [rmatch]. destruct s as [|d s']; [reflexivity|].
  cbn [startsWith dropRun takeRun]. destruct (is_digit d) eqn:Ed; [|reflexivity].
  rewrite (star_const is_digit _
             (fun s'' => (s'', Some (consumed (String d s') s'')))) by reflexivity.
  f_equal. f_equal. f_equal.
  rewrite <- (takeRun_dropRun is_digit s') at 1.
  change (String d (takeRun is_digit s' ++ dropRun is_digit s'))
    with (String d (takeRun is_digit s') ++ dropRun is_digit s').
  apply consumed_prefix.
Qed.

Lemma match_at_job_view (prev : option ascii) (s rest : string) (cap : option string) :
  match_at job_view_pattern prev s = Some (rest, cap) ->
  exists t, s = "/jobs/view/" ++ t /\ startsWith is_digit t = true
            /\ cap = Some (takeRun is_digit t).
Proof.
  unfold match_at, job_view_pattern.
  change (rmatch (Seq (Exact "/jobs/view/") (Cap digits)) accept None prev s)
    with (rmatch (Exact "/jobs/view/")
                 (fun cap' prev' s' => rmatch (Cap digits) accept cap' prev' s')
                 None prev s).
  destruct (exact_match "/jobs/view/"
              (fun cap' prev' s' => rmatch (Cap digits) accept cap' prev' s') None prev s)
    as [H|(t & p' & Hs & H)]; rewrite H; [discriminate|].
  rewrite captured_digits. destruct (startsWith is_digit t) eqn:Et; [|discriminate].
  intros E. injection E as _ <-. exists t. auto.
Qed.

Lemma exec_job_view (s : string) :
  forall prev m cap,
    exec_from job_view_pattern prev s = Some (m, cap) ->
    exists before t, s = before ++ "/jobs/view/" ++ t /\ startsWith is_digit t = true
                     /\ cap = Some (takeRun is_digit t).
Proof.
  induction s as [|a s IH]; intros prev m cap; cbn [exec_from].
  - destruct (match_at job_view_pattern prev "") as [[rest c]|] eqn:E; [|discriminate].
    intros H. injection H as _ <-.
    destruct (match_at_job_view _ _ _ _ E) as (t & Hs & Ht & Hc).
    exists "", t. auto.
  - destruct (match_at job_view_pattern prev (String a s)) as [[rest c]|] eqn:E.
    + intros H. injection H as _ <-.
      destruct (match_at_job_view _ _ _ _ E) as (t & Hs & Ht & Hc).
      exists "", t. auto.
    + intros H. destruct (IH _ _ _ H) as (before & t & Hs & Ht & Hc).
      exists (String a before), t. split; [rewrite Hs; reflexivity | auto].
Qed.

Lemma takeRun_all (p : ascii -> bool) (s : string) : all p (takeRun p s) = true.
Proof.
  induction s as [|a s IH]; [reflexivity|]. cbn [takeRun].
  destruct (p a) eqn:E; [cbn; rewrite E, IH|]; reflexivity.
Qed.

Lemma dropRun_head (p : ascii -> bool) (s : string) : startsWith p (dropRun p s) = false.
Proof.
  induction s as [|a s IH]; [reflexivity|]. cbn [dropRun].
  destruct (p a) eqn:E; [exact IH | cbn; exact E].
Qed.

Lemma exact_prefix (l : string) :
  forall (k : cont) cap prev rest,
    exists prev', rmatch (Exact l) k cap prev (l ++ rest) = k cap prev' rest.
Proof.
  induction l as [|a l IH]; intros k cap prev rest.
  - exists prev. reflexivity.
  - destruct l as [|b l].
    + exists (Some a). cbn. rewrite Ascii.eqb_refl. reflexivity.
    + change (Exact (String a (String b l)))
        with (Seq (Cls (Ascii.eqb a)) (Exact (String b l))).
      rewrite rmatch_seq.
      destruct (IH k cap (Some a) rest) as [p' Hp'].
      exists p'. rewrite <- Hp'. cbn [rmatch append]. rewrite Ascii.eqb_refl. reflexivity.
Qed.

Lemma match_at_view (prev : option ascii) (t : string) :
  match_at job_view_pattern prev ("/jobs/view/" ++ t)
  = if startsWith is_digit t
    then Some (dropRun is_digit t, Some (takeRun is_digit t))
    else None.
Proof.
  unfold match_at, job_view_pattern.
  change (rmatch (Seq (Exact "/jobs/view/") (Cap digits)) accept None prev
                 ("/jobs/view/" ++ t))
    with (rmatch (Exact "/jobs/view/")
                 (fun cap' prev' s' => rmatch (Cap digits) accept cap' prev' s')
                 None prev ("/jobs/view/" ++ t)).
  destruct (exact_prefix "/jobs/view/"
              (fun cap' prev' s' => rmatch (Cap digits) accept cap' prev' s') None prev t)
    as [p' H].
  rewrite H. apply captured_digits.
Qed.

Lemma exec_from_first_view (before t : string) :
  startsWith is_digit t = true ->
  forall prev,
    (forall b' t', before ++ "/jobs/view/" ++ t = b' ++ "/jobs/view/" ++ t' ->
                   (String.length b' < String.length before)%nat ->
                   startsWith is_digit t' = false) ->
    exists m, exec_from job_view_pattern prev (before ++ "/jobs/view/" ++ t)
              = Some (m, Some (takeRun is_digit t)).
Proof.
  intros Ht. induction before as [|a b IH]; intros prev Hfirst.
  - change ("" ++ "/jobs/view/" ++ t) with (String "/" ("jobs/view/" ++ t)).
    cbn [exec_from].
    change (String "/" ("jobs/view/" ++ t)) with ("/jobs/view/" ++ t).
    rewrite match_at_view, Ht. eexists. reflexivity.
  - change (String a b ++ "/jobs/view/" ++ t) with (String a (b ++ "/jobs/view/" ++ t)).
    cbn [exec_from].
    destruct (match_at job_view_pattern prev (String a (b ++ "/jobs/view/" ++ t)))
      as [[rest c]|] eqn:E.
    + exfalso. destruct (match_at_job_view _ _ _ _ E) as (t0 & Hs & Ht0 & _).
      rewrite (Hfirst "" t0) in Ht0; [discriminate | exact Hs | cbn; lia].
    + apply IH. intros b' t' Hs Hlen.
      apply (Hfirst (String a b') t'); [|cbn; lia].
      change (String a (b ++ "/jobs/view/" ++ t) = String a (b' ++ "/jobs/view/" ++ t')).
      f_equal. exact Hs.
Qed.

Lemma takeRun_app (p : ascii -> bool) (x y : string) :
  all p x = true -> startsWith p y = false -> takeRun p (x ++ y) = x.
Proof.
  induction x as [|a x IH]; intros Hx Hy.
  - destruct y as [|b y]; [reflexivity|]. cbn in Hy |- *. rewrite Hy. reflexivity.
  - cbn in Hx. apply andb_true_iff in Hx as [Ha Hx]. cbn. rewrite Ha, IH; auto.
Qed.

(** X28. The key of a job URL is the numeric id behind the first
    [/jobs/view/] that is followed by a digit: the whole run of digits
    there, so that what comes after the id in the URL (a slash, tracking
    parameters) and any later [/jobs/view/] play no part in the key, and
    the key differs from the URL.  A URL in which no [/jobs/view/] is
    followed by a digit is its own key.  In every case the key is the URL
    itself or a non-empty run of digits that follows a [/jobs/view/] of the
    URL and is taken whole. *)
Theorem job_key_is_the_view_id (url : string) :
  (normalizeJobUrl url = url
   \/ exists before after,
        url = before ++ "/jobs/view/" ++ normalizeJobUrl url ++ after
        /\ normalizeJobUrl url <> ""
        /\ all is_digit (normalizeJobUrl url) = true
        /\ startsWith is_digit after = false)
  /\ ((forall before t, url = before ++ "/jobs/view/" ++ t ->
                        startsWith is_digit t = false) ->
      normalizeJobUrl url = url)
  /\ (forall before t,
        url = before ++ "/jobs/view/" ++ t ->
        startsWith is_digit t = true ->
        (forall b' t', url = b' ++ "/jobs/view/" ++ t' ->
                       (String.length b' < String.length before)%nat ->
                       startsWith is_digit t' = false) ->
        normalizeJobUrl url = takeRun is_digit t
        /\ normalizeJobUrl url <> url
        /\ forall id after,
             t = id ++ after -> all is_digit id = true ->
             startsWith is_digit after = false ->
             normalizeJobUrl url = id).
Proof.
  split; [|split].
  - unfold normalizeJobUrl, exec.
    destruct (exec_from job_view_pattern None url) as [[m cap]|] eqn:E; [|left; reflexivity].
    destruct (exec_job_view url None m cap E) as (before & t & Hs & Ht & ->).
    right. exists before, (dropRun is_digit t).
    rewrite takeRun_dropRun. split; [exact Hs|].
    split; [|split; [apply takeRun_all | apply dropRun_head]].
    destruct t as [|d t']; [discriminate|]. cbn in Ht. cbn [takeRun]. rewrite Ht. discriminate.
  - intros Hnone. unfold normalizeJobUrl, exec.
    destruct (exec_from job_view_pattern None url) as [[m cap]|] eqn:E; [|reflexivity].
    destruct (exec_job_view url None m cap E) as (before & t & Hs & Ht & _).
    rewrite (Hnone before t Hs) in Ht. discriminate.
  - intros before t Hs Ht Hfirst.
    assert (Hkey : normalizeJobUrl url = takeRun is_digit t).
    { subst url. destruct (exec_from_first_view before t Ht None Hfirst) as [m Hm].
      unfold normalizeJobUrl, exec. rewrite Hm. reflexivity. }
    split; [exact Hkey|]. split.
    + rewrite Hkey. intros Heq.
      assert (Hall : all is_digit url = true) by (rewrite <- Heq; apply takeRun_all).
      rewrite Hs in Hall. rewrite all_app in Hall.
      apply andb_true_iff in Hall as [_ Hall]. cbn in Hall.
      rewrite andb_false_r in Hall || discriminate Hall.
    + intros id after -> Hid Hafter. rewrite Hkey. apply takeRun_app; assumption.
Qed.

End JobKeyExtras.

Section JobKeyWitnesses.
Import JsString Regex Runs Numbers Search Automation.

Lemma job_key_is_the_view_id_witness :
  normalizeJobUrl "https://www.linkedin.com/jobs/view/4012345678/?refId=abc&trk=flagship3"
  = "4012345678"
  /\ normalizeJobUrl "https://www.linkedin.com/jobs/view/12/?next=/jobs/view/34" = "12".
Proof.
  split; [|reflexivity].
  destruct (job_key_is_the_view_id
              "https://www.linkedin.com/jobs/view/4012345678/?refId=abc&trk=flagship3")
    as (_ & _ & H).
  destruct (H "https://www.linkedin.com" "4012345678/?refId=abc&trk=flagship3"
              eq_refl eq_refl) as (_ & _ & Hid).
  - intros b' t' Hs Hlen.
    repeat (destruct b' as [|? b']; [discriminate Hs | injection Hs as <- Hs]).
    cbn in Hlen. lia.
  - apply (Hid "4012345678" "/?refId=abc&trk=flagship3"); reflexivity.
Defined.

End JobKeyWitnesses.

(* ================================================================== *)
(** * The exclusion rule *)

Section ExclusionExtras.
Import JsString Regex Classifier.

Lemma find_includes (t : string) (l : list string) (x : string) :
  find (fun p => includes t p) l = Some x -> In x l /\ includes t x = true.
Proof. apply find_some. Qed.

(** X29. A job is excluded only for a phrase of its title: when [isExcludedJob]
    excludes, the lower-cased title contains one of the listed phrases and
    the reason quotes it; when it does not, the reason is empty. The
    description takes part only through the word [node]: two descriptions
    that agree on whether title and description mention it give the same
    verdict, and a mention can only lift an exclusion. *)
Theorem exclusion_is_by_title (title description description' : string) :
  let r := isExcludedJob title description in
  let mentionsNode := fun d => includes (toLowerCase (title ++ " " ++ d)) "node" in
  (excluded r = true ->
   exists phrase before,
     In phrase (EXCLUDED_TECH ++ EXCLUDED_FRONTEND_ONLY ++ EXCLUDED_BACKEND_ONLY)%list
     /\ includes (toLowerCase title) phrase = true
     /\ excluded_reason r = before ++ dquote ++ phrase ++ dquote)
  /\ (excluded r = false -> excluded_reason r = "")
  /\ (mentionsNode description = mentionsNode description' ->
      isExcludedJob title description = isExcludedJob title description')
  /\ (mentionsNode description' = true ->
      excluded (isExcludedJob title description') = true -> excluded r = true).
Proof.
  cbv zeta. unfold isExcludedJob. cbv zeta.
  destruct (find (fun tech => includes (toLowerCase title) tech) EXCLUDED_TECH)
    as [tech|] eqn:Et.
  { apply find_includes in Et as [Hin Hinc].
    split; [|split; [discriminate | split; reflexivity]].
    intros _. exists tech, "Title contains excluded tech: ".
    split; [apply in_or_app; left; exact Hin|]. split; [exact Hinc | reflexivity]. }
  destruct (if negb (includes (toLowerCase title) "full")
               && negb (includes (toLowerCase title) "mern")
            then find (fun fe => includes (toLowerCase title) fe) EXCLUDED_FRONTEND_ONLY
            else None) as [fe|] eqn:Ef.
  { assert (Hfe : In fe EXCLUDED_FRONTEND_ONLY /\ includes (toLowerCase title) fe = true).
    { destruct (negb _ && negb _); [apply find_includes, Ef | discriminate]. }
    destruct Hfe as [Hin Hinc].
    split; [|split; [discriminate | split; reflexivity]].
    intros _. exists fe, "Frontend-only role: ".
    split; [apply in_or_app; right; apply in_or_app; left; exact Hin|].
    split; [exact Hinc | reflexivity]. }
  split; [|split; [|split]].
  - destruct (includes (toLowerCase (title ++ " " ++ description)) "node"); cbn [negb];
      [discriminate|].
    destruct (find (fun be => includes (toLowerCase title) be) EXCLUDED_BACKEND_ONLY)
      as [be|] eqn:Eb; [|discriminate].
    apply find_includes in Eb as [Hin Hinc].
    intros _. exists be, "Backend-only role without Node.js: ".
    split; [apply in_or_app; right; apply in_or_app; right; exact Hin|].
    split; [exact Hinc | reflexivity].
  - destruct (includes (toLowerCase (title ++ " " ++ description)) "node"); cbn [negb];
      [reflexivity|].
    destruct (find (fun be => includes (toLowerCase title) be) EXCLUDED_BACKEND_ONLY);
      [discriminate | reflexivity].
  - intros ->. reflexivity.
  - intros ->. cbn [negb]. discriminate.
Qed.

End ExclusionExtras.
